(** * MountainRangeThreaded: the coordinated looping thread pool and the
      threaded mountain-range stepper built on it.

    The development embeds [src/MountainRangeThreaded.hpp]:
    - [getenv_as_size_t] and the [std::from_chars] call it relies on;
    - [CoordinatedLoopingThreadpool]: worker threads, the two counting
      semaphores and the [synced] flag, as an interleaving transition system;
    - [MountainRangeThreaded]: the two pools, the two barriers, the atomic
      accumulator and the published time step. *)

From Stdlib Require Import ZArith Lia Bool Ascii String List PrimFloat.
From stdpp Require Import base option list relations.

Local Open Scope Z_scope.

(** ** Environment parsing *)

Module Env.

(** [size_t] on the LP64 targets the code is written for ([0ul] is used as a
    [size_t] in the constructor). *)
Definition SIZE_MAX : Z := 2 ^ 64 - 1.

Inductive errc := errc_ok | invalid_argument | result_out_of_range.

Definition is_digit (c : ascii) : bool :=
  let n := nat_of_ascii c in (48 <=? n)%nat && (n <=? 57)%nat.

Definition digit_value (c : ascii) : Z := Z.of_nat (nat_of_ascii c) - 48.

(** The longest prefix of decimal digits: the pattern [std::from_chars]
    matches for an unsigned type in base 10 (no sign, no white space). *)
Fixpoint digit_prefix (s : string) : list ascii :=
  match s with
  | String c r => if is_digit c then c :: digit_prefix r else []
  | EmptyString => []
  end.

Definition decimal_value (ds : list ascii) : Z :=
  fold_left (fun acc c => 10 * acc + digit_value c) ds 0.

(** [std::from_chars(first, last, value)] for [size_t].  Pointers into the
    buffer are offsets from [first]; [value] is passed by reference, so the
    function takes the variable's content on entry and returns its content on
    exit: it is stored to only when the conversion succeeds. *)
Definition from_chars (s : string) (value : Z) : nat * errc * Z :=
  let ds := digit_prefix s in
  match ds with
  | [] => (0%nat, invalid_argument, value)
  | _ =>
      let v := decimal_value ds in
      if v <=? SIZE_MAX then (List.length ds, errc_ok, v)
      else (List.length ds, result_out_of_range, value)
  end.

(** [getenv_as_size_t(key, default_value)].  [val] is what [std::getenv]
    returned ([None] for [nullptr]); [indeterminate] is the content of the
    local [size_t result;], which the source declares without an
    initialiser.  The error code of the structured binding is never read. *)
Definition getenv_as_size_t (indeterminate : Z) (val : option string)
    (default_value : Z) : Z :=
  match val with
  | None => default_value
  | Some v =>
      let result := indeterminate in
      let '(ptr, _error, result) := from_chars v result in
      if Nat.eqb ptr (String.length v) then result else default_value
  end.

(** The format named by the source comment, [^[0-9]+$]. *)
Fixpoint all_digits (s : string) : bool :=
  match s with
  | String c r => is_digit c && all_digits r
  | EmptyString => true
  end.

Definition well_formed (s : string) : bool :=
  match s with EmptyString => false | _ => all_digits s end.

Lemma digit_prefix_full (s : string) :
  List.length (digit_prefix s) = String.length s -> all_digits s = true.
Proof.
  induction s as [|c r IH]; simpl; [done|].
  destruct (is_digit c) eqn:E; simpl; [|done].
  intros H; apply IH; lia.
Qed.

(** X2: a value that is set, not empty and not all digits falls back to
    the default, whatever the local held. *)
Lemma getenv_as_size_t_garbage (u : Z) (s : string) (d : Z) :
  s <> EmptyString -> all_digits s = false ->
  getenv_as_size_t u (Some s) d = d.
Proof.
  intros Hne Hbad. unfold getenv_as_size_t, from_chars.
  destruct (digit_prefix s) as [|c ds] eqn:E.
  - destruct s; [done|]. reflexivity.
  - assert (Hlen : List.length (digit_prefix s) <> String.length s).
    { intros H. apply digit_prefix_full in H. congruence. }
    rewrite E in Hlen.
    destruct (decimal_value (c :: ds) <=? SIZE_MAX);
      destruct (Nat.eqb_spec (List.length (c :: ds)) (String.length s)); done.
Qed.

Lemma getenv_as_size_t_unset (u d : Z) : getenv_as_size_t u None d = d.
Proof. reflexivity. Qed.

Example getenv_4x : forall u, getenv_as_size_t u (Some "4x"%string) 1 = 1.
Proof. reflexivity. Qed.

Example getenv_negative : forall u, getenv_as_size_t u (Some "-3"%string) 1 = 1.
Proof. reflexivity. Qed.

Example getenv_8 : forall u, getenv_as_size_t u (Some "8"%string) 1 = 8.
Proof. reflexivity. Qed.

(** C1 (fails on the code): for the empty string [std::from_chars] consumes
    nothing, so the returned pointer equals [val + strlen(val)] and
    [getenv_as_size_t] returns the never-assigned local [result] instead of
    the default: the empty string does not match [^[0-9]+$], yet the result
    is whatever the local held, here shown for every content [u], and it
    differs from the default 1 as soon as [u] does. *)
Theorem getenv_as_size_t_empty_returns_local :
  (forall u, getenv_as_size_t u (Some EmptyString) 1 = u) /\
  well_formed EmptyString = false /\
  getenv_as_size_t 0 (Some EmptyString) 1 <> 1.
Proof. split; [reflexivity|split; [reflexivity|discriminate]]. Qed.

(** *** Values of the right format *)

Lemma digit_prefix_all_digits (s : string) :
  all_digits s = true -> digit_prefix s = list_ascii_of_string s.
Proof.
  induction s as [|c r IH]; simpl; [done|].
  destruct (is_digit c); simpl; [|done]. intros H. by rewrite IH.
Qed.

Lemma length_list_ascii_of_string (s : string) :
  List.length (list_ascii_of_string s) = String.length s.
Proof. induction s; simpl; congruence. Qed.

Lemma decimal_value_nonneg_from (ds : list ascii) (acc : Z) :
  (0 <= acc)%Z -> Forall (fun c => is_digit c = true) ds ->
  (0 <= fold_left (fun acc c => 10 * acc + digit_value c) ds acc)%Z.
Proof.
  revert acc. induction ds as [|c ds IH]; intros acc Hacc Hds; simpl;
    [done|].
  apply Forall_cons in Hds as [Hc Hds]. apply IH; [|done].
  unfold is_digit in Hc. apply andb_true_iff in Hc as [H1 H2].
  apply Nat.leb_le in H1. unfold digit_value. lia.
Qed.

Lemma all_digits_Forall (s : string) :
  all_digits s = true ->
  Forall (fun c => is_digit c = true) (list_ascii_of_string s).
Proof.
  induction s as [|c r IH]; simpl; [constructor|].
  intros [Hc Hr]%andb_true_iff. constructor; auto.
Qed.

(** X1: a value of the format [^[0-9]+$] whose number fits a [size_t] is
    returned as that number, a [size_t], whatever the default is and
    whatever the unassigned local held; leading zeros are accepted. *)
Theorem getenv_as_size_t_well_formed (u : Z) (s : string) (d : Z) :
  well_formed s = true ->
  (decimal_value (list_ascii_of_string s) <= SIZE_MAX)%Z ->
  getenv_as_size_t u (Some s) d = decimal_value (list_ascii_of_string s) /\
  (0 <= getenv_as_size_t u (Some s) d <= SIZE_MAX)%Z.
Proof.
  intros Hwf Hfit.
  assert (Hall : all_digits s = true) by (by destruct s).
  assert (Hval : getenv_as_size_t u (Some s) d
                 = decimal_value (list_ascii_of_string s)).
  { unfold getenv_as_size_t, from_chars.
    rewrite (digit_prefix_all_digits s Hall).
    pose proof (length_list_ascii_of_string s) as Hlen.
    apply Z.leb_le in Hfit.
    destruct (list_ascii_of_string s) as [|c ds] eqn:E.
    { destruct s; [done|]. simpl in E. done. }
    cbv zeta. rewrite Hfit, Hlen. by rewrite Nat.eqb_refl. }
  rewrite Hval. split; [done|]. split; [|done].
  apply decimal_value_nonneg_from; [lia|by apply all_digits_Forall].
Qed.

Lemma getenv_as_size_t_well_formed_witness :
  getenv_as_size_t 5 (Some "016"%string) 1 = 16%Z /\
  (0 <= getenv_as_size_t 5 (Some "016"%string) 1 <= SIZE_MAX)%Z.
Proof.
  apply (getenv_as_size_t_well_formed 5 "016"%string 1).
  - reflexivity.
  - vm_compute. discriminate.
Defined.

(** X3: a value made of digits only whose number does not fit a [size_t]:
    [std::from_chars] reports [result_out_of_range] without storing, the
    returned pointer is at the end of the string, and the function, which
    does not look at the error code, returns the unassigned local: neither
    the default nor a number read from the string. *)
Theorem getenv_as_size_t_out_of_range (u : Z) (s : string) (d : Z) :
  well_formed s = true ->
  (SIZE_MAX < decimal_value (list_ascii_of_string s))%Z ->
  from_chars s u = (String.length s, result_out_of_range, u) /\
  getenv_as_size_t u (Some s) d = u.
Proof.
  intros Hwf Hbig.
  assert (Hall : all_digits s = true) by (by destruct s).
  unfold getenv_as_size_t, from_chars.
  rewrite (digit_prefix_all_digits s Hall).
  pose proof (length_list_ascii_of_string s) as Hlen.
  apply Z.leb_gt in Hbig.
  destruct (list_ascii_of_string s) as [|c ds] eqn:E.
  { destruct s; [done|]. simpl in E. done. }
  cbv zeta. rewrite Hbig, Hlen. by rewrite Nat.eqb_refl.
Qed.

Lemma getenv_as_size_t_out_of_range_witness :
  from_chars "18446744073709551616"%string 5
  = (20%nat, result_out_of_range, 5%Z) /\
  getenv_as_size_t 5 (Some "18446744073709551616"%string) 1 = 5%Z.
Proof.
  apply (getenv_as_size_t_out_of_range 5 "18446744073709551616"%string 1).
  - reflexivity.
  - vm_compute. reflexivity.
Defined.

(** X2, on ["4x"]: the default comes back, whatever the local held. *)
Lemma getenv_as_size_t_garbage_witness :
  getenv_as_size_t 5 (Some "4x"%string) 1 = 1%Z.
Proof.
  apply (getenv_as_size_t_garbage 5 "4x"%string 1).
  - discriminate.
  - reflexivity.
Defined.

End Env.

Local Close Scope Z_scope.

(** ** The coordinated looping thread pool, as a transition system

    Threads are the caller and the workers of each pool.  Every thread is a
    deterministic program whose next atomic action is given by an executable
    partial function ([None]: the thread is blocked or has returned); the
    scheduler picks any thread that can move. *)

Module Pool.

(** [std::barrier<>]: [pending] arrivals are still missing in the current
    [phase]; the last arrival completes the phase and re-arms the barrier. *)
Record barrier := Barrier { expected : nat; pending : nat; phase : nat }.

Definition arrive (b : barrier) : barrier :=
  match pending b with
  | S (S k) => Barrier (expected b) (S k) (phase b)
  | _ => Barrier (expected b) (expected b) (S (phase b))
  end.

Section Semantics.
Context {P D R : Type} `{EqDecision P}.

(** The body of a bound function [F]: plain actions on the shared data,
    which receive the thread's argument, and [arrive_and_wait] on the
    barrier [b]. *)
Inductive instr :=
| Arrive (b : P)
| Do (f : nat -> D -> D).

(** Where a worker thread stands in its [while (true)] loop. *)
Inductive wpc :=
| Parked                                  (* at [start_sem.acquire()] *)
| Woken                                   (* at [token.stop_requested()] *)
| Running (rest : list instr)             (* inside [F(arg)] *)
| Waiting (b : P) (ph : nat) (rest : list instr) (* in [arrive_and_wait] *)
| Exited.                                 (* returned *)

(** [invoked] and [released] are history variables: how many times this
    worker has called [F(arg)] and executed [finish_sem.release()]. *)
Record worker := Worker
  { arg : nat; stop_requested : bool; pc : wpc;
    invoked : nat; released : nat }.

(** [triggers] and [syncs] are history variables: calls of [trigger] and
    completed waits of [sync]. *)
Record pool := MkPool
  { workers : list worker; start_sem : nat; finish_sem : nat;
    synced : bool; triggers : nat; syncs : nat }.

(** The constructor: semaphores at 0, [synced{true}], one worker per
    argument, parked on the start semaphore. *)
Definition new_pool (args : list nat) : pool :=
  MkPool (map (fun a => Worker a false Parked 0 0) args) 0 0 true 0 0.

Definition size (p : pool) : nat := length (workers p).

Definition set_pc (c : wpc) (w : worker) : worker :=
  Worker (arg w) (stop_requested w) c (invoked w) (released w).
Definition request_stop (w : worker) : worker :=
  Worker (arg w) true (pc w) (invoked w) (released w).
Definition invoke (body : list instr) (w : worker) : worker :=
  Worker (arg w) (stop_requested w) (Running body) (S (invoked w))
         (released w).
Definition finish (w : worker) : worker :=
  Worker (arg w) (stop_requested w) Parked (invoked w) (S (released w)).

Definition set_workers (ws : list worker) (p : pool) : pool :=
  MkPool ws (start_sem p) (finish_sem p) (synced p) (triggers p) (syncs p).
Definition set_start (n : nat) (p : pool) : pool :=
  MkPool (workers p) n (finish_sem p) (synced p) (triggers p) (syncs p).
Definition set_finish (n : nat) (p : pool) : pool :=
  MkPool (workers p) (start_sem p) n (synced p) (triggers p) (syncs p).

(** [trigger()]: [start_sem.release(workers.size()); synced = false;]. *)
Definition trigger (p : pool) : pool :=
  MkPool (workers p) (start_sem p + size p) (finish_sem p) false
         (S (triggers p)) (syncs p).

(** The last statement of [sync()]: [synced = true;]. *)
Definition mark_synced (p : pool) : pool :=
  MkPool (workers p) (start_sem p) (finish_sem p) true
         (triggers p) (S (syncs p)).

(** The caller's atomic actions.  [CSync] is the test at the head of
    [sync()]; its loop is unrolled into one [CFinishAcquire] per worker,
    followed by [CSetSynced]. *)
Inductive cinstr :=
| CData (f : D -> D)
| CRet (f : D -> R)
| CTrigger (p : P)
| CSync (p : P)
| CFinishAcquire (p : P)
| CSetSynced (p : P)
| CRequestStop (p : P) (i : nat)
| CJoin (p : P) (i : nat).

Definition trigger_sync (p : P) : list cinstr := [CTrigger p; CSync p].

(** [~CoordinatedLoopingThreadpool()] for a pool of [n] workers, followed
    by the destruction of the [std::jthread]s, each of which joins. *)
Definition destroy (p : P) (n : nat) : list cinstr :=
  map (CRequestStop p) (seq 0 n) ++ CTrigger p :: map (CJoin p) (seq 0 n).

Record sys := Sys
  { pools : P -> pool; bars : P -> barrier; dat : D;
    cpc : list cinstr; cret : option R }.

Definition upd {A} (p : P) (x : A) (f : P -> A) : P -> A :=
  fun q => if decide (q = p) then x else f q.

Definition set_pool (p : P) (x : pool) (s : sys) : sys :=
  Sys (upd p x (pools s)) (bars s) (dat s) (cpc s) (cret s).
Definition set_bar (p : P) (x : barrier) (s : sys) : sys :=
  Sys (pools s) (upd p x (bars s)) (dat s) (cpc s) (cret s).
Definition set_dat (d : D) (s : sys) : sys :=
  Sys (pools s) (bars s) d (cpc s) (cret s).
Definition set_cpc (k : list cinstr) (s : sys) : sys :=
  Sys (pools s) (bars s) (dat s) k (cret s).
Definition set_cret (r : R) (s : sys) : sys :=
  Sys (pools s) (bars s) (dat s) (cpc s) (Some r).
Definition set_worker (p : P) (i : nat) (w : worker) (s : sys) : sys :=
  set_pool p (set_workers (<[i := w]> (workers (pools s p))) (pools s p)) s.

Definition caller_step (s : sys) : option sys :=
  match cpc s with
  | [] => None
  | CData f :: k => Some (set_cpc k (set_dat (f (dat s)) s))
  | CRet f :: k => Some (set_cpc k (set_cret (f (dat s)) s))
  | CTrigger p :: k => Some (set_cpc k (set_pool p (trigger (pools s p)) s))
  | CSync p :: k =>
      if synced (pools s p) then Some (set_cpc k s)
      else Some (set_cpc (replicate (size (pools s p)) (CFinishAcquire p)
                            ++ CSetSynced p :: k) s)
  | CFinishAcquire p :: k =>
      match finish_sem (pools s p) with
      | 0 => None
      | S n => Some (set_cpc k (set_pool p (set_finish n (pools s p)) s))
      end
  | CSetSynced p :: k =>
      Some (set_cpc k (set_pool p (mark_synced (pools s p)) s))
  | CRequestStop p i :: k =>
      w ← workers (pools s p) !! i;
      Some (set_cpc k (set_worker p i (request_stop w) s))
  | CJoin p i :: k =>
      w ← workers (pools s p) !! i;
      match pc w with Exited => Some (set_cpc k s) | _ => None end
  end.

Variable closure : P -> list instr.

(** One atomic action of worker [i] of pool [p]. *)
Definition worker_step (p : P) (i : nat) (s : sys) : option sys :=
  w ← workers (pools s p) !! i;
  match pc w with
  | Parked =>
      match start_sem (pools s p) with
      | 0 => None
      | S n => Some (set_worker p i (set_pc Woken w)
                       (set_pool p (set_start n (pools s p)) s))
      end
  | Woken =>
      if stop_requested w then Some (set_worker p i (set_pc Exited w) s)
      else Some (set_worker p i (invoke (closure p) w) s)
  | Running [] =>
      Some (set_worker p i (finish w)
              (set_pool p (set_finish (S (finish_sem (pools s p)))
                             (pools s p)) s))
  | Running (Do f :: r) =>
      Some (set_worker p i (set_pc (Running r) w)
              (set_dat (f (arg w) (dat s)) s))
  | Running (Arrive b :: r) =>
      Some (set_worker p i (set_pc (Waiting b (phase (bars s b)) r) w)
              (set_bar b (arrive (bars s b)) s))
  | Waiting b ph r =>
      if decide (phase (bars s b) = ph) then None
      else Some (set_worker p i (set_pc (Running r) w) s)
  | Exited => None
  end.

Inductive thread := Caller | WorkerOf (p : P) (i : nat).

Definition thread_step (th : thread) (s : sys) : option sys :=
  match th with
  | Caller => caller_step s
  | WorkerOf p i => worker_step p i s
  end.

Definition step (s s' : sys) : Prop := exists th, thread_step th s = Some s'.

Definition steps : sys -> sys -> Prop := rtc step.

(** *** Counting workers *)

Fixpoint countb (f : worker -> bool) (ws : list worker) : nat :=
  match ws with
  | [] => 0
  | w :: r => (if f w then 1 else 0) + countb f r
  end.

Lemma countb_le f ws : countb f ws <= length ws.
Proof. induction ws as [|w r IH]; simpl; [lia|]. destruct (f w); lia. Qed.

Lemma countb_insert f ws i w w' :
  ws !! i = Some w ->
  countb f (<[i := w']> ws) + (if f w then 1 else 0)
  = countb f ws + (if f w' then 1 else 0).
Proof.
  revert i; induction ws as [|x r IH]; intros [|i] Hi; simplify_eq/=.
  - lia.
  - specialize (IH _ Hi). lia.
Qed.

Lemma countb_full f ws i w :
  countb f ws = length ws -> ws !! i = Some w -> f w = true.
Proof.
  revert i; induction ws as [|x r IH]; intros [|i] Hc Hi; simplify_eq/=.
  - pose proof (countb_le f r). destruct (f w); [done|lia].
  - pose proof (countb_le f r). destruct (f x); [|lia].
    eapply IH; [|done]. lia.
Qed.

Lemma countb_lt_witness f ws :
  countb f ws < length ws -> exists i w, ws !! i = Some w /\ f w = false.
Proof.
  induction ws as [|x r IH]; simpl; [lia|].
  destruct (f x) eqn:E.
  - intros H. destruct IH as (i & w & ? & ?); [lia|]. by exists (S i), w.
  - intros _. by exists 0, x.
Qed.

(** *** Reading a state after an update *)

Lemma upd_eq {A} p (x : A) f : upd p x f p = x.
Proof. unfold upd. by rewrite decide_True. Qed.

Lemma upd_ne {A} p q (x : A) f : q <> p -> upd p x f q = f q.
Proof. intros. unfold upd. by rewrite decide_False. Qed.

Lemma countb_pos_witness f ws :
  0 < countb f ws -> exists i w, ws !! i = Some w /\ f w = true.
Proof.
  induction ws as [|x r IH]; simpl; [lia|].
  destruct (f x) eqn:E.
  - intros _. by exists 0, x.
  - intros H. destruct IH as (i & w & ? & ?); [lia|]. by exists (S i), w.
Qed.

Lemma countb_zero_intro f ws :
  (forall i w, ws !! i = Some w -> f w = false) -> countb f ws = 0.
Proof.
  induction ws as [|x r IH]; simpl; [done|]. intros H.
  rewrite (H 0 x eq_refl), IH; [done|]. intros i w Hi. by apply (H (S i)).
Qed.

Lemma countb_full_intro f ws :
  (forall i w, ws !! i = Some w -> f w = true) -> countb f ws = length ws.
Proof.
  induction ws as [|x r IH]; simpl; [done|]. intros H.
  rewrite (H 0 x eq_refl), IH; [done|]. intros i w Hi. by apply (H (S i)).
Qed.

Lemma countb_all_but_one f ws i w :
  countb f ws + 1 = length ws -> ws !! i = Some w -> f w = false ->
  forall j w', j <> i -> ws !! j = Some w' -> f w' = true.
Proof.
  intros Hc Hi Hf j w' Hne Hj.
  destruct (f w') eqn:E; [done|exfalso].
  revert i j Hi Hj Hne Hc.
  induction ws as [|x r IH]; intros [|i] [|j] Hi Hj Hne Hc; simplify_eq/=.
  - rewrite Hf in Hc.
    assert (countb f r = length r) as Hfull by lia.
    pose proof (countb_full f r j w' Hfull Hj). congruence.
  - rewrite E in Hc.
    assert (countb f r = length r) as Hfull by lia.
    pose proof (countb_full f r i w Hfull Hi). congruence.
  - pose proof (countb_le f r). destruct (f x).
    + eapply (IH i j); eauto; lia.
    + assert (countb f r = length r) as Hfull by lia.
      pose proof (countb_full f r i w Hfull Hi). congruence.
Qed.

(** *** The invariant of one trigger/sync cycle *)

Fixpoint arrivals (r : list instr) : nat :=
  match r with
  | [] => 0
  | Arrive _ :: r => S (arrivals r)
  | Do _ :: r => arrivals r
  end.

Lemma arrivals_app r1 r2 : arrivals (r1 ++ r2) = arrivals r1 + arrivals r2.
Proof. induction r1 as [|[]]; simpl; lia. Qed.

Definition unstarted (r0 : nat) (w : worker) : bool :=
  match pc w with Parked => Nat.eqb (released w) r0 | _ => false end.

Definition finished (r0 : nat) (w : worker) : bool :=
  Nat.eqb (released w) (S r0).

Definition waiting_in (ph : nat) (w : worker) : bool :=
  match pc w with Waiting _ q _ => Nat.eqb q ph | _ => false end.

Definition parked_at (r0 : nat) (w : worker) : Prop :=
  pc w = Parked /\ released w = r0 /\ stop_requested w = false.

(** No iteration is outstanding on pool [p]: every worker is parked on the
    start semaphore, has completed as many iterations as there were
    completed syncs, both semaphores are at 0 and the barrier is armed
    for all the workers. *)
Record quiescent (p : P) (s : sys) : Prop := Quiescent
  { q_workers :
      Forall (parked_at (syncs (pools s p))) (workers (pools s p));
    q_args : forall i w, workers (pools s p) !! i = Some w -> arg w = i;
    q_start : start_sem (pools s p) = 0;
    q_finish : finish_sem (pools s p) = 0;
    q_synced : synced (pools s p) = true;
    q_expected : expected (bars s p) = size (pools s p);
    q_pending : pending (bars s p) = size (pools s p) }.

Definition idle (q : P) (s : sys) : Prop :=
  start_sem (pools s q) = 0 /\
  Forall (fun w => pc w = Parked) (workers (pools s q)).

Lemma quiescent_idle p s : quiescent p s -> idle p s.
Proof.
  intros [Hw _ Hs _ _ _ _]. split; [done|].
  eapply Forall_impl; [exact Hw|]. by intros w (? & _).
Qed.

Lemma idle_worker_blocked q s i : idle q s -> worker_step q i s = None.
Proof.
  intros [Hs Hw]. unfold worker_step.
  destruct (workers (pools s q) !! i) as [w|] eqn:Hi; simpl; [|done].
  rewrite (proj1 (Forall_lookup _ _) Hw i w Hi), Hs. done.
Qed.

Lemma countb_witness_pos f (ws : list worker) i w :
  ws !! i = Some w -> f w = true -> 0 < countb f ws.
Proof.
  revert i; induction ws as [|x r IH]; intros [|i] Hi Hf; simplify_eq/=.
  - rewrite Hf. lia.
  - specialize (IH _ Hi Hf). lia.
Qed.

(** When a worker can move. *)
Lemma worker_step_enabled s q i w :
  workers (pools s q) !! i = Some w ->
  match pc w with
  | Parked => 0 < start_sem (pools s q)
  | Woken | Running _ => True
  | Waiting b ph _ => phase (bars s b) <> ph
  | Exited => False
  end ->
  exists s', worker_step q i s = Some s'.
Proof.
  intros Hi Hen. unfold worker_step. rewrite Hi. simpl.
  destruct (pc w) as [| |r|b ph r|].
  - destruct (start_sem (pools s q)); [lia|eauto].
  - destruct (stop_requested w); eauto.
  - destruct r as [|[]]; eauto.
  - rewrite decide_False by done. eauto.
  - done.
Qed.

Section Cycle.
Variable p : P.
  (** The state in which the caller is about to call [trigger()]. *)
Variable s0 : sys.
  (** What the caller goes on with once [sync()] has returned. *)
Variable k : list cinstr.

  (** The bound function rendezvouses on the pool's own barrier only, and
      does so at least once. *)
Hypothesis Hbar :
    Forall (fun i => forall b, i = Arrive b -> b = p) (closure p).
Hypothesis Harr : 1 <= arrivals (closure p).
Hypothesis Hq0 : quiescent p s0.
Hypothesis Hidle0 : forall q, q <> p -> idle q s0.

Local Abbreviation r0 := (syncs (pools s0 p)).
Local Abbreviation p0 := (phase (bars s0 p)).
Local Abbreviation n := (size (pools s0 p)).
Local Abbreviation total := (arrivals (closure p)).

  (** Where a worker may stand while the barrier is in phase [ph]. *)
Definition wok (ph : nat) (w : worker) : Prop :=
    stop_requested w = false /\
    match pc w with
    | Parked =>
        (released w = r0 /\ ph = p0) \/
        (released w = S r0 /\ ph = p0 + total)
    | Woken => released w = r0 /\ ph = p0
    | Running r =>
        released w = r0 /\
        exists pre, closure p = pre ++ r /\ ph = p0 + arrivals pre
    | Waiting b q r =>
        b = p /\ released w = r0 /\
        exists pre, closure p = pre ++ Arrive p :: r /\
                    q = p0 + arrivals pre /\ (ph = q \/ ph = S q)
    | Exited => False
    end.

Definition cycle_pc (fin : nat) (s : sys) : Prop :=
    (fin = n /\ cpc s = CSync p :: k) \/
    cpc s = replicate fin (CFinishAcquire p) ++ CSetSynced p :: k.

  (** The invariant between [trigger()] and the end of [sync()]; [fin] is
      the number of [finish_sem.acquire()] the caller still has to do. *)
Record cycle_inv (fin : nat) (s : sys) : Prop := CycleInv
    { ci_pc : cycle_pc fin s;
      ci_fin : fin <= n;
      ci_wok : Forall (wok (phase (bars s p))) (workers (pools s p));
      ci_args : forall i w, workers (pools s p) !! i = Some w -> arg w = i;
      ci_size : length (workers (pools s p)) = n;
      ci_start :
        start_sem (pools s p) = countb (unstarted r0) (workers (pools s p));
      ci_finish :
        finish_sem (pools s p) + n
        = countb (finished r0) (workers (pools s p)) + fin;
      ci_synced : synced (pools s p) = false;
      ci_triggers : triggers (pools s p) = S (triggers (pools s0 p));
      ci_syncs : syncs (pools s p) = r0;
      ci_expected : expected (bars s p) = n;
      ci_pending :
        pending (bars s p)
        + countb (waiting_in (phase (bars s p))) (workers (pools s p)) = n;
      ci_pending_pos : n = 0 \/ 1 <= pending (bars s p);
      ci_phase : n = 0 -> phase (bars s p) = p0;
      ci_frame :
        forall q, q <> p -> pools s q = pools s0 q /\ bars s q = bars s0 q;
      ci_cret : cret s = cret s0 }.

  (** The state in which [sync()] returns. *)
Record cycle_done (s : sys) : Prop := CycleDone
    { cd_quiescent : quiescent p s;
      cd_pc : cpc s = k;
      cd_size : size (pools s p) = n;
      cd_syncs : syncs (pools s p) = S r0;
      cd_triggers : triggers (pools s p) = S (triggers (pools s0 p));
      cd_phase :
        phase (bars s p) = if decide (n = 0) then p0 else p0 + total;
      cd_frame :
        forall q, q <> p -> pools s q = pools s0 q /\ bars s q = bars s0 q;
      cd_cret : cret s = cret s0 }.

Lemma cycle_init s1 :
    cpc s0 = CTrigger p :: CSync p :: k ->
    caller_step s0 = Some s1 ->
    cycle_inv n s1 /\ dat s1 = dat s0.
Proof.
    intros Hpc Hstep. unfold caller_step in Hstep. rewrite Hpc in Hstep.
    simplify_eq. destruct Hq0 as [Hw Ha Hs Hf Hsy He Hp].
    split; [|done]. split; simpl; rewrite ?upd_eq; simpl; try done.
    - by left.
    - eapply Forall_impl; [exact Hw|]. intros w (Hpc' & Hr & Hst).
      split; [done|]. rewrite Hpc'. by left.
    - rewrite Hs. simpl. symmetry. apply countb_full_intro.
      intros i w Hi. destruct (proj1 (Forall_lookup _ _) Hw i w Hi)
        as (Hpc' & Hr & _).
      unfold unstarted. rewrite Hpc', Hr. apply Nat.eqb_refl.
    - rewrite Hf. simpl. rewrite countb_zero_intro; [done|].
      intros i w Hi. destruct (proj1 (Forall_lookup _ _) Hw i w Hi)
        as (_ & Hr & _).
      unfold finished. rewrite Hr. apply Nat.eqb_neq. lia.
    - rewrite Hp. rewrite countb_zero_intro; [unfold size; lia|].
      intros i w Hi. destruct (proj1 (Forall_lookup _ _) Hw i w Hi)
        as (Hpc' & _).
      unfold waiting_in. by rewrite Hpc'.
    - rewrite Hp. unfold size. lia.
    - intros q Hq. by rewrite upd_ne.
Qed.

Lemma wok_finished ph w :
  wok ph w -> finished r0 w = true ->
  pc w = Parked /\ released w = S r0 /\ stop_requested w = false /\
  ph = p0 + total.
Proof.
  unfold finished. intros [Hst Hw] Hf%Nat.eqb_eq.
  destruct (pc w) as [| |r|b q r|].
  - destruct Hw as [[? ?]|[? ?]]; [lia|done].
  - destruct Hw as [? ?]; lia.
  - destruct Hw as [? ?]; lia.
  - destruct Hw as (_ & ? & _); lia.
  - done.
Qed.

Lemma cycle_caller fin s s' :
  cycle_inv fin s -> caller_step s = Some s' ->
  dat s' = dat s /\ ((exists fin', cycle_inv fin' s') \/ cycle_done s').
Proof.
  intros [Hpc Hfin Hw Ha Hsz Hs Hf Hsy Htr Hsyn He Hp Hpp Hph Hfr Hcr] Hstep.
  unfold caller_step in Hstep.
  destruct Hpc as [[-> Hpc]|Hpc]; rewrite Hpc in Hstep.
  - rewrite Hsy in Hstep. simplify_eq. split; [done|]. left. exists n.
    split; simpl; try done. right. unfold size. by rewrite Hsz.
  - destruct fin as [|fin]; simpl in Hstep.
    + simplify_eq. split; [done|]. right.
      pose proof (countb_le (finished r0) (workers (pools s p))) as Hle.
      assert (Hall : forall i w, workers (pools s p) !! i = Some w ->
                pc w = Parked /\ released w = S r0 /\
                stop_requested w = false /\
                phase (bars s p) = p0 + total).
      { intros i w Hi. apply wok_finished.
        - exact (proj1 (Forall_lookup _ _) Hw i w Hi).
        - eapply countb_full; [|exact Hi]. lia. }
      split; simpl; rewrite ?upd_eq; simpl; try done.
      * split; simpl; rewrite ?upd_eq; simpl; try done.
        -- apply Forall_lookup. intros i w Hi.
           destruct (Hall i w Hi) as (? & ? & ? & _). split; [done|].
           split; [congruence|done].
        -- rewrite Hs. apply countb_zero_intro. intros i w Hi.
           destruct (Hall i w Hi) as (Hpc' & Hr & _).
           unfold unstarted. rewrite Hpc', Hr. apply Nat.eqb_neq. lia.
        -- lia.
        -- unfold size. simpl. lia.
        -- unfold size. simpl.
           rewrite countb_zero_intro in Hp; [lia|]. intros i w Hi.
           destruct (Hall i w Hi) as (Hpc' & _).
           unfold waiting_in. by rewrite Hpc'.
      * by rewrite Hsyn.
      * case_decide as Hn; [by apply Hph|].
        destruct (workers (pools s p)) as [|w ws] eqn:Hws;
          [simpl in Hsz; lia|].
        by destruct (Hall 0 w eq_refl) as (_ & _ & _ & ?).
      * intros q Hq. rewrite upd_ne by done. by apply Hfr.
    + destruct (finish_sem (pools s p)) as [|m] eqn:Hfs; simplify_eq.
      split; [done|]. left. exists fin.
      split; simpl; rewrite ?upd_eq; simpl; try done; try lia.
      * by right.
      * intros q Hq. rewrite upd_ne by done. by apply Hfr.
Qed.

Lemma cycle_worker_other fin s q i :
  q <> p -> cycle_inv fin s -> worker_step q i s = None.
Proof.
  intros Hq Hinv. apply idle_worker_blocked.
  destruct (ci_frame _ _ Hinv q Hq) as [Hp' _].
  unfold idle. rewrite Hp'. by apply Hidle0.
Qed.

Lemma countb_insert_as f ws i w w' (b b' : bool) :
  ws !! i = Some w -> f w = b -> f w' = b' ->
  countb f (<[i := w']> ws) + (if b then 1 else 0)
  = countb f ws + (if b' then 1 else 0).
Proof. intros Hi <- <-. by apply countb_insert. Qed.

Lemma args_insert (ws : list worker) i w w' :
  (forall j x, ws !! j = Some x -> arg x = j) ->
  ws !! i = Some w -> arg w' = arg w ->
  forall j x, <[i := w']> ws !! j = Some x -> arg x = j.
Proof.
  intros Ha Hi Hw j x Hj. destruct (decide (j = i)) as [->|Hne].
  - rewrite list_lookup_insert_eq in Hj by (by eapply lookup_lt_Some).
    simplify_eq. rewrite Hw. by apply Ha.
  - rewrite list_lookup_insert_ne in Hj by done. by apply Ha.
Qed.

Ltac wbool Hpcw :=
  unfold unstarted, finished, waiting_in, finish, invoke, set_pc;
  cbn [pc released]; rewrite ?Hpcw; cbn [pc released];
  first [ done | apply Nat.eqb_eq; lia | apply Nat.eqb_neq; lia ].

Lemma unstarted_true r w :
  unstarted r w = true -> pc w = Parked /\ released w = r.
Proof.
  unfold unstarted. destruct (pc w); try done.
  by intros ?%Nat.eqb_eq.
Qed.

Lemma waiting_in_true ph w :
  waiting_in ph w = true -> exists b r, pc w = Waiting b ph r.
Proof.
  unfold waiting_in. destruct (pc w) as [| |?|b q r|]; try done.
  intros ->%Nat.eqb_eq. eauto.
Qed.

Lemma closure_arrive_own pre b r : closure p = pre ++ Arrive b :: r -> b = p.
Proof.
  intros Hc. rewrite Hc in Hbar.
  apply Forall_app in Hbar as [_ Hb]. apply Forall_cons in Hb as [Hb _].
  by apply Hb.
Qed.

Ltac count3 ws i w w' Hi Hpcw ph b1 b1' b2 b2' b3 b3' :=
  let C1 := fresh "C" in
  let C2 := fresh "C" in
  let C3 := fresh "C" in
  pose proof (countb_insert_as (unstarted r0) ws i w w' b1 b1' Hi
                ltac:(wbool Hpcw) ltac:(wbool Hpcw)) as C1;
  pose proof (countb_insert_as (finished r0) ws i w w' b2 b2' Hi
                ltac:(wbool Hpcw) ltac:(wbool Hpcw)) as C2;
  pose proof (countb_insert_as (waiting_in ph) ws i w w' b3 b3' Hi
                ltac:(wbool Hpcw) ltac:(wbool Hpcw)) as C3;
  cbv iota in C1, C2, C3.

Ltac inv_fields ws ph :=
  split; simpl; rewrite ?upd_eq; simpl; rewrite ?upd_eq; simpl;
  fold ws; fold ph; try done; try lia.

Lemma cycle_worker fin s i s' :
  cycle_inv fin s -> worker_step p i s = Some s' -> cycle_inv fin s'.
Proof.
  intros [Hpc Hfin Hw Ha Hsz Hs Hf Hsy Htr Hsyn He Hp Hpp Hph Hfr Hcr] Hstep.
  unfold worker_step in Hstep.
  destruct (workers (pools s p) !! i) as [w|] eqn:Hi; simpl in Hstep; [|done].
  pose proof (proj1 (Forall_lookup _ _) Hw i w Hi) as [Hst Hwk].
  assert (Hn : n <> 0).
  { apply lookup_lt_Some in Hi. lia. }
  destruct Hpp as [?|Hpp]; [done|]. clear Hph.
  set (ws := workers (pools s p)) in *.
  set (ph := phase (bars s p)) in *.
  destruct (pc w) as [| |r|b q r|] eqn:Hpcw.
  - (* start_sem.acquire() *)
    destruct (start_sem (pools s p)) as [|m] eqn:Hss; simplify_eq.
    assert (Hr : released w = r0 /\ ph = p0).
    { destruct Hwk as [?|[Hr Hph]]; [done|exfalso].
      destruct (countb_pos_witness (unstarted r0) ws) as (j & w2 & Hj & Hu);
        [lia|].
      apply unstarted_true in Hu as [Hpc2 Hr2].
      destruct (proj1 (Forall_lookup _ _) Hw j w2 Hj) as [_ Hwk2].
      rewrite Hpc2 in Hwk2. lia. }
    destruct Hr as [Hr Hph].
    count3 ws i w (set_pc Woken w) Hi Hpcw ph true false false false
      false false.
    inv_fields ws ph.
    + apply Forall_insert; [done|]. by split.
    + by eapply args_insert.
    + by rewrite length_insert.
    + intros q Hq. rewrite !upd_ne by done. by apply Hfr.
  - (* token.stop_requested() *)
    rewrite Hst in Hstep. simplify_eq. destruct Hwk as [Hr Hph].
    count3 ws i w (invoke (closure p) w) Hi Hpcw ph
      false false false false false false.
    inv_fields ws ph.
    + apply Forall_insert; [done|]. split; [done|]. simpl.
      split; [done|]. exists []. simpl. split; [done|lia].
    + by eapply args_insert.
    + by rewrite length_insert.
    + intros q Hq. rewrite !upd_ne by done. by apply Hfr.
  - destruct r as [|[b|f] r]; simplify_eq;
      destruct Hwk as (Hr & pre & Hcl & Hph).
    + (* finish_sem.release() *)
      rewrite app_nil_r in Hcl. subst pre.
      count3 ws i w (finish w) Hi Hpcw ph false false false true
        false false.
      inv_fields ws ph.
      * apply Forall_insert; [done|]. split; [done|]. simpl. right. lia.
      * by eapply args_insert.
      * by rewrite length_insert.
      * intros q Hq. rewrite !upd_ne by done. by apply Hfr.
    + (* arrive_and_wait(): arrival *)
      pose proof (closure_arrive_own _ _ _ Hcl) as ->.
      fold ph. unfold arrive.
      destruct (pending (bars s p)) as [|[|m]] eqn:Hpend; [lia| |].
      * (* the last arrival completes the phase *)
        assert (Hoth : forall j w2, j <> i -> ws !! j = Some w2 ->
                  exists b' r', pc w2 = Waiting b' ph r').
        { intros j w2 Hne Hj. apply waiting_in_true.
          eapply (countb_all_but_one (waiting_in ph) ws i w);
            [lia|done|wbool Hpcw|done|done]. }
        count3 ws i w (set_pc (Waiting p ph r) w) Hi Hpcw (S ph)
          false false false false false false.
        inv_fields ws ph.
        -- apply Forall_lookup. intros j w2 Hj.
           destruct (decide (j = i)) as [->|Hne].
           ++ rewrite list_lookup_insert_eq in Hj
                by (by eapply lookup_lt_Some).
              simplify_eq. split; [done|]. simpl. split; [done|].
              split; [done|]. exists pre. auto.
           ++ rewrite list_lookup_insert_ne in Hj by done.
              destruct (Hoth j w2 Hne Hj) as (b' & r' & Hpc2).
              destruct (proj1 (Forall_lookup _ _) Hw j w2 Hj) as [? Hwk2].
              split; [done|]. rewrite Hpc2 in *.
              destruct Hwk2 as (? & ? & pre2 & ? & ? & ?).
              split; [done|]. split; [done|]. exists pre2. auto.
        -- by eapply args_insert.
        -- by rewrite length_insert.
        -- rewrite countb_zero_intro; [lia|]. intros j w2 Hj.
           destruct (decide (j = i)) as [->|Hne].
           ++ rewrite list_lookup_insert_eq in Hj
                by (by eapply lookup_lt_Some).
              simplify_eq. wbool Hpcw.
           ++ rewrite list_lookup_insert_ne in Hj by done.
              destruct (Hoth j w2 Hne Hj) as (b' & r' & Hpc2).
              wbool Hpc2.
        -- intros q Hq. rewrite !upd_ne by done. by apply Hfr.
      * count3 ws i w (set_pc (Waiting p ph r) w) Hi Hpcw ph
          false false false false false true.
        inv_fields ws ph.
        -- apply Forall_insert; [done|]. split; [done|]. simpl.
           split; [done|]. split; [done|]. exists pre. auto.
        -- by eapply args_insert.
        -- by rewrite length_insert.
        -- intros q Hq. rewrite !upd_ne by done. by apply Hfr.
    + (* a plain action of the bound function *)
      count3 ws i w (set_pc (Running r) w) Hi Hpcw ph
        false false false false false false.
      inv_fields ws ph.
      * apply Forall_insert; [done|]. split; [done|]. simpl.
        split; [done|]. exists (pre ++ [Do f]).
        rewrite <- app_assoc, arrivals_app. simpl. split; [done|lia].
      * by eapply args_insert.
      * by rewrite length_insert.
      * intros q Hq. rewrite !upd_ne by done. by apply Hfr.
  - (* arrive_and_wait(): the phase has completed *)
    assert (b = p) as -> by apply Hwk.
    fold ph in Hstep. case_decide as Hd; simplify_eq.
    destruct Hwk as (_ & Hr & pre & Hcl & Hq & Hph).
    count3 ws i w (set_pc (Running r) w) Hi Hpcw ph
      false false false false false false.
    inv_fields ws ph.
    + apply Forall_insert; [done|]. split; [done|]. simpl.
      split; [done|]. exists (pre ++ [Arrive p]).
      rewrite <- app_assoc, arrivals_app. simpl. split; [done|lia].
    + by eapply args_insert.
    + by rewrite length_insert.
    + intros q' Hq'. rewrite !upd_ne by done. by apply Hfr.
  - done.
Qed.

(** Inside a cycle some thread can always move: the handshake and the
    barrier never deadlock. *)
Lemma cycle_progress fin s : cycle_inv fin s -> exists s', step s s'.
Proof.
  intros [Hpc Hfin Hw Ha Hsz Hs Hf Hsy Htr Hsyn He Hp Hpp Hph Hfr Hcr].
  assert (Hcaller : forall s', caller_step s = Some s' -> exists s', step s s').
  { intros s' H. exists s', Caller. done. }
  assert (Hworker : forall i s', worker_step p i s = Some s' ->
            exists s', step s s').
  { intros i s' H. exists s', (WorkerOf p i). done. }
  destruct Hpc as [[-> Hpc]|Hpc].
  { eapply Hcaller. unfold caller_step. rewrite Hpc, Hsy. done. }
  destruct fin as [|fin].
  { eapply Hcaller. unfold caller_step. rewrite Hpc. done. }
  destruct (finish_sem (pools s p)) as [|m] eqn:Hfs.
  2:{ eapply Hcaller. unfold caller_step. rewrite Hpc. simpl.
      rewrite Hfs. done. }
  destruct Hpp as [?|Hpp]; [lia|].
  set (ws := workers (pools s p)) in *.
  set (ph := phase (bars s p)) in *.
  (* a worker that is not waiting in the current phase *)
  destruct (countb_lt_witness (waiting_in ph) ws) as (j & w2 & Hj & Hnw);
    [lia|].
  (* a worker that has not finished *)
  destruct (countb_lt_witness (finished r0) ws) as (i & w & Hi & Hnf);
    [lia|].
  destruct (proj1 (Forall_lookup _ _) Hw j w2 Hj) as [_ Hwk2].
  destruct (proj1 (Forall_lookup _ _) Hw i w Hi) as [_ Hwk].
  unfold finished in Hnf. apply Nat.eqb_neq in Hnf.
  unfold waiting_in in Hnw.
  assert (Hparked : forall i' w', ws !! i' = Some w' -> pc w' = Parked ->
            released w' = r0 -> exists s', step s s').
  { intros i' w' Hi' Hpc' Hr'.
    destruct (worker_step_enabled s p i' w' Hi') as [s' Hs'];
      [|by eapply Hworker].
    rewrite Hpc', Hs. eapply countb_witness_pos; [exact Hi'|].
    unfold unstarted. rewrite Hpc', Hr'. apply Nat.eqb_refl. }
  assert (Hmove : forall i' w', ws !! i' = Some w' ->
            match pc w' with
            | Woken | Running _ => True
            | Waiting b q _ => b = p /\ ph <> q
            | _ => False
            end -> exists s', step s s').
  { intros i' w' Hi' Hpc'.
    destruct (worker_step_enabled s p i' w' Hi') as [s' Hs'];
      [|by eapply Hworker].
    destruct (pc w'); try done. by destruct Hpc' as [-> ?]. }
  destruct (pc w2) as [| |r2|b2 q2 r2|] eqn:Hpc2; [| | | |done].
  - destruct Hwk2 as [[Hr2 _]|[_ Hph2]]; [by eapply (Hparked j w2)|].
    (* [w2] has finished, so the phase is the last one; [w] is behind *)
    destruct (pc w) as [| |r|b q r|] eqn:Hpcw; [| | | |done].
    + destruct Hwk as [[? _]|[? _]]; [by eapply (Hparked i w)|lia].
    + eapply (Hmove i w Hi). by rewrite Hpcw.
    + eapply (Hmove i w Hi). by rewrite Hpcw.
    + eapply (Hmove i w Hi). rewrite Hpcw.
      destruct Hwk as (-> & _ & pre & Hcl & -> & _). split; [done|].
      rewrite Hph2, Hcl, arrivals_app. simpl. lia.
  - eapply (Hmove j w2 Hj). by rewrite Hpc2.
  - eapply (Hmove j w2 Hj). by rewrite Hpc2.
  - eapply (Hmove j w2 Hj). rewrite Hpc2.
    destruct Hwk2 as (-> & _). split; [done|].
    apply Nat.eqb_neq in Hnw. lia.
Qed.

(** What [cycle_done] says of the pools and barriers alone. *)
Record cycle_post (s : sys) : Prop := CyclePost
  { cp_quiescent : quiescent p s;
    cp_size : size (pools s p) = n;
    cp_syncs : syncs (pools s p) = S r0;
    cp_triggers : triggers (pools s p) = S (triggers (pools s0 p));
    cp_phase :
      phase (bars s p) = if decide (n = 0) then p0 else p0 + total;
    cp_frame :
      forall q, q <> p -> pools s q = pools s0 q /\ bars s q = bars s0 q }.

Lemma cycle_done_post s : cycle_done s -> cycle_post s.
Proof. intros []. by split. Qed.

Lemma cycle_post_ext s s' :
  pools s' = pools s -> bars s' = bars s -> cycle_post s -> cycle_post s'.
Proof.
  intros Hp Hb [[] ? ? ? ? ?].
  split; [split|..]; rewrite ?Hp, ?Hb; done.
Qed.

End Cycle.

(** *** Termination: a measure that every atomic action decreases *)

Fixpoint sumw (f : worker -> nat) (ws : list worker) : nat :=
  match ws with
  | [] => 0
  | w :: r => f w + sumw f r
  end.

Lemma sumw_insert f ws i w w' :
  ws !! i = Some w ->
  sumw f (<[i := w']> ws) + f w = sumw f ws + f w'.
Proof.
  revert i; induction ws as [|x r IH]; intros [|i] Hi; simplify_eq/=.
  - lia.
  - specialize (IH _ Hi). lia.
Qed.

Definition permit (p : P) : nat := 2 * length (closure p) + 3.

Definition wcost (p : P) (w : worker) : nat :=
  match pc w with
  | Parked | Exited => 0
  | Woken => 2 * length (closure p) + 2
  | Running r => 2 * length r + 1
  | Waiting _ _ r => 2 * length r + 2
  end.

Definition ccost (p : P) (s : sys) (c : cinstr) : nat :=
  match c with
  | CTrigger q =>
      1 + (if decide (q = p) then size (pools s p) * permit p else 0)
  | CSync q => size (pools s q) + 2
  | _ => 1
  end.

Definition measure (p : P) (s : sys) : nat :=
  sum_list_with (ccost p s) (cpc s)
  + start_sem (pools s p) * permit p
  + sumw (wcost p) (workers (pools s p)).

Lemma ccost_sizes p s s' k :
  (forall q, size (pools s' q) = size (pools s q)) ->
  sum_list_with (ccost p s') k = sum_list_with (ccost p s) k.
Proof.
  intros Hsz. induction k as [|c k IH]; simpl; [done|]. rewrite IH.
  f_equal. destruct c; simpl; rewrite ?Hsz; done.
Qed.

Lemma sum_replicate_acquire p s q m :
  sum_list_with (ccost p s) (replicate m (CFinishAcquire q)) = m.
Proof. induction m; simpl; lia. Qed.

Lemma size_upd_insert s p q i w :
  size (upd p (set_workers (<[i := w]> (workers (pools s p))) (pools s p))
          (pools s) q) = size (pools s q).
Proof.
  unfold upd, size. case_decide; subst; simpl; [|done].
  by rewrite length_insert.
Qed.

Lemma caller_step_size s s' q :
  caller_step s = Some s' -> size (pools s' q) = size (pools s q).
Proof.
  unfold caller_step. intros Hstep.
  destruct (cpc s) as [|c k] eqn:Hpc; [done|].
  destruct c as [f|f|q'|q'|q'|q'|q' i|q' i]; simpl in Hstep.
  - by simplify_eq.
  - by simplify_eq.
  - simplify_eq. simpl. unfold upd, size. by case_decide; subst.
  - by destruct (synced (pools s q')); simplify_eq.
  - destruct (finish_sem (pools s q')); simplify_eq. simpl.
    unfold upd, size. by case_decide; subst.
  - simplify_eq. simpl. unfold upd, size. by case_decide; subst.
  - destruct (workers (pools s q') !! i) as [w|] eqn:Hi; simplify_eq/=.
    apply size_upd_insert.
  - destruct (workers (pools s q') !! i) as [w|] eqn:Hi; simplify_eq/=.
    by destruct (pc w); simplify_eq.
Qed.

Lemma caller_step_measure p s s' :
  caller_step s = Some s' -> measure p s' < measure p s.
Proof.
  intros Hstep. pose proof (fun q => caller_step_size s s' q Hstep) as Hsz.
  unfold measure. rewrite ccost_sizes with (s := s) by done. clear Hsz.
  unfold caller_step in Hstep.
  destruct (cpc s) as [|c k] eqn:Hpc; [done|].
  destruct c as [f|f|q|q|q|q|q i|q i]; simpl in Hstep.
  - simplify_eq. simpl. lia.
  - simplify_eq. simpl. lia.
  - simplify_eq. simpl.
    unfold upd. case_decide as Hd; [subst q|]; simpl.
    + rewrite decide_True by done. unfold size. lia.
    + rewrite decide_False by done. lia.
  - destruct (synced (pools s q)); simplify_eq; simpl.
    + lia.
    + rewrite sum_list_with_app, sum_replicate_acquire. simpl. lia.
  - destruct (finish_sem (pools s q)) as [|m]; simplify_eq. simpl.
    unfold upd. case_decide as Hd; [subst q|]; simpl; lia.
  - simplify_eq. simpl.
    unfold upd. case_decide as Hd; [subst q|]; simpl; lia.
  - destruct (workers (pools s q) !! i) as [w|] eqn:Hi; simplify_eq/=.
    unfold upd. case_decide as Hd; [subst q|]; simpl; [|lia].
    pose proof (sumw_insert (wcost p) _ i w (request_stop w) Hi) as Hsum.
    unfold wcost in Hsum at 2 4. simpl in Hsum. lia.
  - destruct (workers (pools s q) !! i) as [w|] eqn:Hi; simplify_eq/=.
    destruct (pc w); simplify_eq. simpl. lia.
Qed.

Lemma worker_step_size s s' q i q' :
  worker_step q i s = Some s' -> size (pools s' q') = size (pools s q').
Proof.
  unfold worker_step. intros Hstep.
  destruct (workers (pools s q) !! i) as [w|] eqn:Hi; simplify_eq/=.
  assert (Hins : forall (w' : worker) (x : pool),
            size x = size (pools s q) ->
            size (upd q (set_workers (<[i := w']> (workers x)) x)
                    (upd q x (pools s)) q') = size (pools s q')).
  { intros w' x Hx. unfold upd, size in *.
    case_decide; subst; simpl; [|done]. by rewrite length_insert. }
  destruct (pc w) as [| |r|b ph r|].
  - destruct (start_sem (pools s q)); simplify_eq. simpl.
    rewrite upd_eq. by apply Hins.
  - destruct (stop_requested w); simplify_eq; apply size_upd_insert.
  - destruct r as [|[]]; simplify_eq; simpl; rewrite ?upd_eq.
    + by apply Hins.
    + apply size_upd_insert.
    + apply size_upd_insert.
  - case_decide; simplify_eq. apply size_upd_insert.
  - done.
Qed.

Lemma worker_step_measure p s s' i :
  worker_step p i s = Some s' -> measure p s' < measure p s.
Proof.
  intros Hstep.
  pose proof (fun q => worker_step_size s s' p i q Hstep) as Hsz.
  unfold measure. rewrite ccost_sizes with (s := s) by done. clear Hsz.
  unfold worker_step in Hstep.
  destruct (workers (pools s p) !! i) as [w|] eqn:Hi; simplify_eq/=.
  assert (Hcpc : forall s', cpc s' = cpc s ->
            sum_list_with (ccost p s) (cpc s')
            = sum_list_with (ccost p s) (cpc s)) by (by intros ? ->).
  destruct (pc w) as [| |r|b ph r|] eqn:Hpcw.
  - destruct (start_sem (pools s p)) as [|m]; simplify_eq.
    simpl. rewrite !upd_eq. simpl.
    pose proof (sumw_insert (wcost p) _ i w (set_pc Woken w) Hi) as Hsum.
    unfold wcost in Hsum at 2 4. rewrite Hpcw in Hsum. simpl in Hsum.
    unfold permit. lia.
  - destruct (stop_requested w); simplify_eq; simpl; rewrite !upd_eq; simpl.
    + pose proof (sumw_insert (wcost p) _ i w (set_pc Exited w) Hi) as Hsum.
      unfold wcost in Hsum at 2 4. rewrite Hpcw in Hsum. simpl in Hsum. lia.
    + pose proof (sumw_insert (wcost p) _ i w
                    (invoke (closure p) w) Hi) as Hsum.
      unfold wcost in Hsum at 2 4. rewrite Hpcw in Hsum. simpl in Hsum. lia.
  - destruct r as [|[b|f] r]; simplify_eq; simpl; rewrite !upd_eq; simpl.
    + pose proof (sumw_insert (wcost p) _ i w (finish w) Hi) as Hsum.
      unfold wcost in Hsum at 2 4. rewrite Hpcw in Hsum. simpl in Hsum. lia.
    + pose proof (sumw_insert (wcost p) _ i w
                    (set_pc (Waiting b (phase (bars s b)) r) w) Hi) as Hsum.
      unfold wcost in Hsum at 2 4. rewrite Hpcw in Hsum. simpl in Hsum. lia.
    + pose proof (sumw_insert (wcost p) _ i w (set_pc (Running r) w) Hi)
        as Hsum.
      unfold wcost in Hsum at 2 4. rewrite Hpcw in Hsum. simpl in Hsum. lia.
  - case_decide; simplify_eq. simpl. rewrite !upd_eq. simpl.
    pose proof (sumw_insert (wcost p) _ i w (set_pc (Running r) w) Hi)
      as Hsum.
    unfold wcost in Hsum at 2 4. rewrite Hpcw in Hsum. simpl in Hsum. lia.
  - done.
Qed.

(** A predicate that every step preserves, that lets some thread move as
    long as the caller has not returned, and under which every step
    decreases a measure: every run from a state satisfying it reaches a
    state where the caller has returned. *)
Lemma reaches_return (I : sys -> Prop) (mu : sys -> nat) :
  (forall s s', I s -> step s s' -> I s' /\ mu s' < mu s) ->
  (forall s, I s -> cpc s <> [] -> exists s', step s s') ->
  forall s, I s -> exists s', steps s s' /\ cpc s' = [] /\ I s'.
Proof.
  intros Hpres Hprog s.
  remember (mu s) as m eqn:Hm. revert s Hm.
  induction (lt_wf m) as [m _ IH]. intros s -> HI.
  destruct (cpc s) as [|c k] eqn:Hpc.
  { exists s. split; [apply rtc_refl|done]. }
  destruct (Hprog s HI) as [s1 Hstep]; [by rewrite Hpc|].
  destruct (Hpres s s1 HI Hstep) as [HI1 Hlt].
  destruct (IH (mu s1) Hlt s1 eq_refl HI1) as (s' & Hs & ? & ?).
  exists s'. split; [by eapply rtc_l|done].
Qed.

Lemma steps_invariant (I : sys -> Prop) s s' :
  (forall s s', I s -> step s s' -> I s') -> I s -> steps s s' -> I s'.
Proof. intros Hpres HI Hs. induction Hs; eauto. Qed.

(** A schedule, executed: each listed thread takes one atomic action if it
    can, and is skipped if it is blocked. *)
Fixpoint exec (ths : list thread) (s : sys) : sys :=
  match ths with
  | [] => s
  | th :: r => exec r (default s (thread_step th s))
  end.

Lemma exec_steps ths s : steps s (exec ths s).
Proof.
  revert s. induction ths as [|th r IH]; intros s; simpl; [apply rtc_refl|].
  destruct (thread_step th s) as [s1|] eqn:Hs; simpl; [|apply IH].
  eapply rtc_l; [by exists th|apply IH].
Qed.

(** *** What a worker's action leaves alone *)

Lemma worker_step_caller s s' q i :
  worker_step q i s = Some s' -> cpc s' = cpc s /\ cret s' = cret s.
Proof.
  unfold worker_step. intros Hstep.
  destruct (workers (pools s q) !! i) as [w|]; simplify_eq/=.
  destruct (pc w) as [| |[|[]]| |]; simplify_eq/=; try done.
  - by destruct (start_sem (pools s q)); simplify_eq/=.
  - by destruct (stop_requested w); simplify_eq/=.
  - by case_decide; simplify_eq/=.
Qed.

Lemma worker_step_flags s s' q i p :
  worker_step q i s = Some s' ->
  synced (pools s' p) = synced (pools s p) /\
  triggers (pools s' p) = triggers (pools s p) /\
  syncs (pools s' p) = syncs (pools s p).
Proof.
  unfold worker_step. intros Hstep.
  destruct (workers (pools s q) !! i) as [w|]; simplify_eq/=.
  destruct (pc w) as [| |[|[]]| |]; simplify_eq/=;
    repeat match goal with
    | H : context [match ?x with _ => _ end] |- _ => destruct x; simplify_eq/=
    end;
    destruct (decide (p = q)) as [->|Hne];
    rewrite ?upd_eq, ?upd_ne by done; simpl; rewrite ?upd_eq; done.
Qed.

Lemma lookup_set_worker s q j x p i :
  workers (pools (set_worker q j x s) p) !! i
  = if decide (p = q /\ i = j /\ j < size (pools s q)) then Some x
    else workers (pools s p) !! i.
Proof.
  unfold set_worker, size. simpl. unfold upd.
  destruct (decide (p = q)) as [->|Hne]; simpl.
  - destruct (decide (i = j)) as [->|Hij].
    + destruct (decide (j < length (workers (pools s q)))) as [Hlt|Hge].
      * rewrite decide_True by done. by apply list_lookup_insert_eq.
      * rewrite decide_False by tauto. rewrite list_insert_ge by lia. done.
    + rewrite decide_False by tauto. by rewrite list_lookup_insert_ne.
  - rewrite decide_False by tauto. done.
Qed.

(** What the other threads can do to a worker: nothing but request it to
    stop. *)
Definition same_position (w w' : worker) : Prop :=
  arg w' = arg w /\ pc w' = pc w /\ invoked w' = invoked w /\
  released w' = released w /\
  (stop_requested w = true -> stop_requested w' = true).

Lemma same_position_refl w : same_position w w.
Proof. by repeat split. Qed.

Lemma caller_step_worker s s' p i w :
  caller_step s = Some s' -> workers (pools s p) !! i = Some w ->
  exists w', workers (pools s' p) !! i = Some w' /\ same_position w w'.
Proof.
  unfold caller_step. intros Hstep Hi.
  assert (Hpool : forall q (x : pool), workers x = workers (pools s q) ->
            workers (upd q x (pools s) p) !! i = Some w).
  { intros q x Hx. unfold upd. case_decide; subst; by rewrite ?Hx. }
  destruct (cpc s) as [|c k]; [done|].
  destruct c as [f|f|q|q|q|q|q j|q j]; simpl in Hstep.
  - simplify_eq. exists w. split; [done|apply same_position_refl].
  - simplify_eq. exists w. split; [done|apply same_position_refl].
  - simplify_eq. exists w. split; [by apply Hpool|apply same_position_refl].
  - destruct (synced (pools s q)); simplify_eq; exists w;
      (split; [done|apply same_position_refl]).
  - destruct (finish_sem (pools s q)); simplify_eq. exists w.
    split; [by apply Hpool|apply same_position_refl].
  - simplify_eq. exists w. split; [by apply Hpool|apply same_position_refl].
  - destruct (workers (pools s q) !! j) as [w0|] eqn:Hj; simplify_eq/=.
    pose proof (lookup_set_worker s q j (request_stop w0) p i) as Hl.
    simpl in Hl. rewrite Hl. case_decide as Hd.
    + destruct Hd as (-> & -> & _). simplify_eq. eexists. split; [done|].
      by repeat split.
    + exists w. split; [done|apply same_position_refl].
  - destruct (workers (pools s q) !! j) as [w0|] eqn:Hj; simplify_eq/=.
    destruct (pc w0); simplify_eq. exists w.
    split; [done|apply same_position_refl].
Qed.

Lemma worker_step_worker s s' q j p i w :
  worker_step q j s = Some s' -> workers (pools s p) !! i = Some w ->
  (q, j) <> (p, i) ->
  exists w', workers (pools s' p) !! i = Some w' /\ same_position w w'.
Proof.
  unfold worker_step. intros Hstep Hi Hne.
  destruct (workers (pools s q) !! j) as [w0|] eqn:Hj; simplify_eq/=.
  assert (Hset : forall x s1,
            workers (pools s1 p) !! i = Some w ->
            workers (pools (set_worker q j x s1) p) !! i = Some w).
  { intros x s1 H1. rewrite lookup_set_worker. case_decide as Hd; [|done].
    destruct Hd as (-> & -> & _). done. }
  assert (Hpool : forall (x : pool), workers x = workers (pools s q) ->
            workers (upd q x (pools s) p) !! i = Some w).
  { intros x Hx. unfold upd. case_decide; subst; by rewrite ?Hx. }
  exists w. split; [|apply same_position_refl].
  destruct (pc w0) as [| |[|[]]| |]; simpl in Hstep;
    repeat match type of Hstep with
    | context [match ?x with _ => _ end] => destruct x
    end; simplify_eq; apply Hset; simpl; try done; by apply Hpool.
Qed.

(** What a worker's own action does to it. *)
Definition own_move (p : P) (s : sys) (w w' : worker) : Prop :=
  match pc w with
  | Parked => w' = set_pc Woken w
  | Woken =>
      w' = if stop_requested w then set_pc Exited w
           else invoke (closure p) w
  | Running [] => w' = finish w
  | Running (Do f :: r) => w' = set_pc (Running r) w
  | Running (Arrive b :: r) => w' = set_pc (Waiting b (phase (bars s b)) r) w
  | Waiting b ph r => w' = set_pc (Running r) w
  | Exited => False
  end.

Lemma worker_step_self s s' p i w :
  worker_step p i s = Some s' -> workers (pools s p) !! i = Some w ->
  exists w', workers (pools s' p) !! i = Some w' /\ own_move p s w w'.
Proof.
  unfold worker_step, own_move. intros Hstep Hi. rewrite Hi in Hstep.
  simpl in Hstep.
  assert (Hset : forall x s1, size (pools s1 p) = size (pools s p) ->
            workers (pools (set_worker p i x s1) p) !! i = Some x).
  { intros x s1 Hsz. rewrite lookup_set_worker. rewrite decide_True; [done|].
    rewrite Hsz. apply lookup_lt_Some in Hi. done. }
  destruct (pc w) as [| |[|[]]| |]; simpl in Hstep;
    repeat match type of Hstep with
    | context [match ?x with _ => _ end] => destruct x
    end; simplify_eq; eexists; (split; [apply Hset|done]);
    simpl; rewrite ?upd_eq; done.
Qed.

(** Every call of [F] that has returned was followed by exactly one
    [finish_sem.release()]: outside [F] the two history counters agree,
    inside [F] the call in progress is the only one not yet matched. *)
Definition balanced (w : worker) : Prop :=
  invoked w
  = released w + match pc w with Running _ | Waiting _ _ _ => 1 | _ => 0 end.

Lemma own_move_balanced p s w w' :
  own_move p s w w' -> balanced w -> balanced w'.
Proof.
  unfold own_move, balanced.
  destruct (pc w) as [| |[|[]]| |] eqn:Hpc; try done; intros -> Hb;
    try destruct (stop_requested w); simpl; lia.
Qed.

Lemma same_position_balanced w w' :
  same_position w w' -> balanced w -> balanced w'.
Proof. unfold balanced. intros (_ & -> & -> & -> & _). done. Qed.

Lemma step_balanced p s s' :
  step s s' -> Forall balanced (workers (pools s p)) ->
  Forall balanced (workers (pools s' p)).
Proof.
  intros [th Hstep] Hb. apply Forall_lookup. intros i w' Hi'.
  assert (Hlen : i < size (pools s p)).
  { apply lookup_lt_Some in Hi'. unfold size.
    destruct th as [|q j]; simpl in Hstep.
    - pose proof (caller_step_size _ _ p Hstep) as Hs. unfold size in Hs. lia.
    - pose proof (worker_step_size _ _ _ _ p Hstep) as Hs.
      unfold size in Hs. lia. }
  destruct (lookup_lt_is_Some_2 _ _ Hlen) as [w Hi].
  pose proof (proj1 (Forall_lookup _ _) Hb i w Hi) as Hw.
  destruct th as [|q j]; simpl in Hstep.
  - destruct (caller_step_worker _ _ p i w Hstep Hi) as (w2 & Hi2 & Hsp).
    simplify_eq. by eapply same_position_balanced.
  - destruct (decide ((q, j) = (p, i))) as [Heq|Hne].
    + simplify_eq.
      destruct (worker_step_self _ _ _ _ w Hstep Hi) as (w2 & Hi2 & Hmv).
      simplify_eq. by eapply own_move_balanced.
    + destruct (worker_step_worker _ _ _ _ p i w Hstep Hi Hne)
        as (w2 & Hi2 & Hsp).
      simplify_eq. by eapply same_position_balanced.
Qed.


Lemma worker_step_effect s s' p i w :
  worker_step p i s = Some s' -> workers (pools s p) !! i = Some w ->
  finish_sem (pools s' p)
  = finish_sem (pools s p) + match pc w with Running [] => 1 | _ => 0 end /\
  dat s' = match pc w with
           | Running (Do f :: _) => f (arg w) (dat s)
           | _ => dat s
           end.
Proof.
  unfold worker_step. intros Hstep Hi. rewrite Hi in Hstep. simpl in Hstep.
  destruct (pc w) as [| |[|[]]| |]; simpl in Hstep;
    repeat match type of Hstep with
    | context [match ?x with _ => _ end] => destruct x
    end; simplify_eq; simpl; rewrite ?upd_eq; simpl; rewrite ?upd_eq;
    simpl; split; (done || lia).
Qed.

(** *** A call of the bound function, as it shows in a run *)










(** The caller inside [sync(); k] where [k] is empty or one more [sync()]. *)
Definition in_sync (p : P) (k : list cinstr) (s : sys) : Prop :=
  cpc s = CSync p :: k \/
  (exists m, cpc s = replicate m (CFinishAcquire p) ++ CSetSynced p :: k) \/
  (cpc s = k /\ synced (pools s p) = true) \/
  (cpc s = [] /\ synced (pools s p) = true).

Lemma in_sync_step p k s s' :
  k = [] \/ k = [CSync p] -> in_sync p k s -> step s s' -> in_sync p k s'.
Proof.
  intros Hk HJ [[|q j] Hstep]; simpl in Hstep.
  - unfold caller_step in Hstep.
    destruct HJ as [Hpc|[[m Hpc]|[[Hpc Hsy]|[Hpc Hsy]]]]; rewrite Hpc in Hstep.
    + destruct (synced (pools s p)) eqn:Hsy; simplify_eq.
      * right; right; left. done.
      * right; left. by eexists.
    + destruct m as [|m]; simpl in Hstep.
      * simplify_eq. right; right; left. simpl. by rewrite upd_eq.
      * destruct (finish_sem (pools s p)); simplify_eq.
        right; left. by exists m.
    + destruct Hk as [->| ->]; [done|]. rewrite Hsy in Hstep. simplify_eq.
      right; right; right. done.
    + done.
  - destruct (worker_step_caller _ _ _ _ Hstep) as [Hc _].
    destruct (worker_step_flags _ _ _ _ p Hstep) as (Hsy & _).
    unfold in_sync. rewrite Hc, Hsy. done.
Qed.

(** C5: the [synced] flag.  [trigger()] never blocks and clears it; only
    the caller writes it; when a [sync()] has returned it is set; and a
    second [sync()] right after the first one is a single action of the
    caller that changes nothing but its program counter: in particular it
    takes nothing from the finish semaphore. *)
Theorem synced_flag_protocol (p : P) :
  (forall s k, cpc s = CTrigger p :: k ->
     exists s', caller_step s = Some s' /\ cpc s' = k /\
                synced (pools s' p) = false) /\
  (forall s q i s', worker_step q i s = Some s' ->
     synced (pools s' p) = synced (pools s p)) /\
  (forall s s', cpc s = [CSync p] -> steps s s' -> cpc s' = [] ->
     synced (pools s' p) = true) /\
  (forall s s', cpc s = [CSync p; CSync p] -> steps s s' ->
     cpc s' = [CSync p] ->
     synced (pools s' p) = true /\
     caller_step s' = Some (set_cpc [] s') /\
     finish_sem (pools (set_cpc [] s') p) = finish_sem (pools s' p)).
Proof.
  split; [|split; [|split]].
  - intros s k Hpc. eexists. unfold caller_step. rewrite Hpc.
    split; [done|]. simpl. by rewrite upd_eq.
  - intros s q i s' Hstep. by destruct (worker_step_flags _ _ _ _ p Hstep).
  - intros s s' Hpc Hs Hret.
    assert (HJ : in_sync p [] s') .
    { eapply (steps_invariant (in_sync p [])); [|by left|done].
      intros ? ? ? ?. eapply in_sync_step; eauto. }
    destruct HJ as [Hc|[[m Hc]|[[_ ?]|[_ ?]]]]; try done.
    + congruence.
    + rewrite Hret in Hc. by destruct m.
  - intros s s' Hpc Hs Hret.
    assert (HJ : in_sync p [CSync p] s') .
    { eapply (steps_invariant (in_sync p [CSync p])); [|by left|done].
      intros ? ? ? ?. eapply in_sync_step; eauto. }
    assert (Hsy : synced (pools s' p) = true).
    { destruct HJ as [Hc|[[m Hc]|[[_ ?]|[Hc ?]]]]; try done;
        rewrite Hret in Hc; try destruct m as [|[|m]]; simplify_eq. }
    split; [done|]. split; [|done].
    unfold caller_step. by rewrite Hret, Hsy.
Qed.

(** Every run from [s] is finite and can only stop where the caller has
    returned. *)
Definition returns_always (s : sys) : Prop :=
  (forall s', steps s s' -> cpc s' <> [] -> exists s'', step s' s'') /\
  (exists bound, forall m s', nsteps step m s s' -> m <= bound).

Lemma returns_always_intro (I : sys -> Prop) (mu : sys -> nat) s :
  (forall s s', I s -> step s s' -> I s' /\ mu s' < mu s) ->
  (forall s, I s -> cpc s <> [] -> exists s', step s s') ->
  I s -> returns_always s.
Proof.
  intros Hpres Hprog HI. split.
  - intros s' Hs. apply Hprog.
    eapply (steps_invariant I); [|done..]. intros ? ? ? ?.
    by eapply Hpres.
  - exists (mu s). intros m s' Hn.
    assert (m + mu s' <= mu s); [|lia].
    induction Hn as [|m x y z Hxy _ IH]; [lia|].
    destruct (Hpres x y HI Hxy) as [HIy Hlt]. specialize (IH HIy). lia.
Qed.

(** *** Destruction of a pool *)

Section Destroy.
Variable p : P.
(** The state in which the destructor starts. *)
Variable s0 : sys.
Hypothesis Hidle : forall q, idle q s0.

Local Abbreviation n := (size (pools s0 p)).

Definition history (w : worker) : nat * nat * nat :=
  (arg w, invoked w, released w).

Definition is_parked (w : worker) : bool :=
  match pc w with Parked => true | _ => false end.

Definition stopping (w : worker) : Prop :=
  stop_requested w = true /\
  (pc w = Parked \/ pc w = Woken \/ pc w = Exited).

(** What the destructor never touches. *)
Record destroy_frame (s : sys) : Prop := DestroyFrame
  { df_hist :
      map history (workers (pools s p)) = map history (workers (pools s0 p));
    df_dat : dat s = dat s0;
    df_finish : finish_sem (pools s p) = finish_sem (pools s0 p);
    df_syncs : syncs (pools s p) = syncs (pools s0 p);
    df_bars : forall q, bars s q = bars s0 q;
    df_others : forall q, q <> p -> pools s q = pools s0 q;
    df_cret : cret s = cret s0 }.

(** [j] workers have been asked to stop, [trigger()] is still to come. *)
Record stop_phase (j : nat) (s : sys) : Prop := StopPhase
  { sp_pc :
      cpc s = map (CRequestStop p) (seq j (n - j))
              ++ CTrigger p :: map (CJoin p) (seq 0 n);
    sp_idle : idle p s;
    sp_stop :
      forall i w, i < j -> workers (pools s p) !! i = Some w ->
                  stop_requested w = true;
    sp_triggers : triggers (pools s p) = triggers (pools s0 p) }.

(** [trigger()] has been called, [j] workers have been joined. *)
Record join_phase (j : nat) (s : sys) : Prop := JoinPhase
  { jp_pc : cpc s = map (CJoin p) (seq j (n - j));
    jp_workers : Forall stopping (workers (pools s p));
    jp_start :
      start_sem (pools s p) = countb is_parked (workers (pools s p));
    jp_joined :
      forall i w, i < j -> workers (pools s p) !! i = Some w ->
                  pc w = Exited;
    jp_triggers : triggers (pools s p) = S (triggers (pools s0 p)) }.

Definition destroy_inv (s : sys) : Prop :=
  destroy_frame s /\ size (pools s p) = n /\
  exists j, j <= n /\ (stop_phase j s \/ join_phase j s).

Lemma destroy_init : cpc s0 = destroy p n -> destroy_inv s0.
Proof.
  intros Hpc. split; [by split|]. split; [done|]. exists 0.
  split; [lia|]. left. split; try done.
  - by rewrite Nat.sub_0_r.
  - lia.
Qed.

Lemma map_history_insert (ws : list worker) i w w' :
  ws !! i = Some w -> history w' = history w ->
  map history (<[i := w']> ws) = map history ws.
Proof.
  intros Hi Hh. change (history <$> <[i:=w']> ws = history <$> ws).
  rewrite list_fmap_insert, Hh. apply list_insert_id.
  by rewrite list_lookup_fmap, Hi.
Qed.

Lemma destroy_caller s s' :
  destroy_inv s -> caller_step s = Some s' -> destroy_inv s'.
Proof.
  intros ([Hh Hd Hf Hsy Hb Ho Hc] & Hsz & j & Hj & Hph) Hstep.
  unfold caller_step in Hstep.
  destruct Hph as [[Hpc Hid Hst Htr]|[Hpc Hw Hss Hjd Htr]];
    rewrite Hpc in Hstep.
  - destruct (decide (j = n)) as [->|Hne].
    + (* trigger() *)
      rewrite Nat.sub_diag in Hstep. simpl in Hstep. simplify_eq.
      destruct Hid as [Hs0 Hpk].
      split; [|split].
      * split; simpl; rewrite ?upd_eq; simpl; try done.
        intros q Hq. by rewrite upd_ne, Ho.
      * simpl. by rewrite upd_eq.
      * exists 0. split; [lia|]. right.
        split; simpl; rewrite ?upd_eq; simpl.
        -- by rewrite Nat.sub_0_r.
        -- apply Forall_lookup. intros i w Hi. split.
           ++ eapply Hst; [|done]. apply lookup_lt_Some in Hi.
              unfold size in *. lia.
           ++ left. exact (proj1 (Forall_lookup _ _) Hpk i w Hi).
        -- rewrite Hs0. simpl. symmetry. apply countb_full_intro.
           intros i w Hi. unfold is_parked.
           by rewrite (proj1 (Forall_lookup _ _) Hpk i w Hi).
        -- intros i w Hi. lia.
        -- by rewrite Htr.
    + (* request_stop() on worker [j] *)
      replace (n - j) with (S (n - S j)) in Hstep by lia.
      simpl in Hstep.
      destruct (lookup_lt_is_Some_2 (workers (pools s p)) j) as [w Hw];
        [unfold size in *; lia|].
      rewrite Hw in Hstep. simpl in Hstep. simplify_eq.
      destruct Hid as [Hs0 Hpk].
      split; [|split].
      * split; simpl; rewrite ?upd_eq; simpl; try done.
        -- rewrite <- Hh. by eapply map_history_insert.
        -- intros q Hq. by rewrite upd_ne, Ho.
      * simpl. rewrite upd_eq. unfold size. simpl.
        by rewrite length_insert.
      * exists (S j). split; [lia|]. left.
        split; simpl; rewrite ?upd_eq; simpl; try done.
        -- split; simpl; rewrite ?upd_eq; simpl; [done|].
           apply Forall_insert; [done|].
           exact (proj1 (Forall_lookup _ _) Hpk j w Hw).
        -- intros i w' Hi Hl. destruct (decide (i = j)) as [->|Hij].
           ++ rewrite list_lookup_insert_eq in Hl
                by (by eapply lookup_lt_Some).
              by simplify_eq.
           ++ rewrite list_lookup_insert_ne in Hl by done.
              eapply Hst; [|done]. lia.
  - destruct (decide (j = n)) as [->|Hne].
    + rewrite Nat.sub_diag in Hstep. done.
    + (* join() on worker [j] *)
      replace (n - j) with (S (n - S j)) in Hstep by lia.
      simpl in Hstep.
      destruct (workers (pools s p) !! j) as [w|] eqn:Hwj; simplify_eq/=.
      destruct (pc w) eqn:Hpcw; simplify_eq.
      split; [by split|]. split; [done|].
      exists (S j). split; [lia|]. right. split; simpl; try done.
      intros i w' Hi Hl. destruct (decide (i = j)) as [->|Hij].
      * by simplify_eq.
      * eapply Hjd; [|done]. lia.
Qed.

Lemma destroy_worker_other s q i :
  q <> p -> destroy_inv s -> worker_step q i s = None.
Proof.
  intros Hq ([_ _ _ _ _ Ho _] & _). apply idle_worker_blocked.
  unfold idle. rewrite Ho by done. apply Hidle.
Qed.

Lemma destroy_worker s s' i :
  destroy_inv s -> worker_step p i s = Some s' -> destroy_inv s'.
Proof.
  intros ([Hh Hd Hf Hsy Hb Ho Hc] & Hsz & j & Hj & Hph) Hstep.
  destruct Hph as [[_ Hid _ _]|[Hpc Hw Hss Hjd Htr]].
  { by rewrite idle_worker_blocked in Hstep. }
  unfold worker_step in Hstep.
  destruct (workers (pools s p) !! i) as [w|] eqn:Hi; simplify_eq/=.
  destruct (proj1 (Forall_lookup _ _) Hw i w Hi) as [Hst Hpcw].
  assert (Hjoined : forall w', pc w <> Exited ->
            forall i' x, i' < j ->
              <[i := w']> (workers (pools s p)) !! i' = Some x ->
              pc x = Exited).
  { intros w' Hne i' x Hi' Hl. destruct (decide (i' = i)) as [->|Hii].
    - by rewrite (Hjd i w Hi') in Hne.
    - rewrite list_lookup_insert_ne in Hl by done. by eapply Hjd. }
  destruct (pc w) as [| |r|b q r|] eqn:Hpcw';
    [| |by destruct Hpcw as [?|[?|?]]..|done].
  - (* start_sem.acquire() *)
    destruct (start_sem (pools s p)) as [|m] eqn:Hsm; simplify_eq.
    assert (E : is_parked w = true) by (unfold is_parked; by rewrite Hpcw').
    pose proof (countb_insert_as is_parked _ i w (set_pc Woken w)
      true false Hi E eq_refl) as C. cbv iota in C.
    split; [|split].
    + split; simpl; rewrite ?upd_eq; simpl; rewrite ?upd_eq; simpl;
        try done.
      * rewrite <- Hh. by eapply map_history_insert.
      * intros q Hq. by rewrite !upd_ne, Ho.
    + simpl. rewrite !upd_eq. unfold size. simpl. by rewrite length_insert.
    + exists j. split; [done|]. right.
      split; simpl; rewrite ?upd_eq; simpl; rewrite ?upd_eq; simpl;
        try done.
      * apply Forall_insert; [done|]. split; [done|]. auto.
      * lia.
      * by apply Hjoined.
  - (* token.stop_requested() *)
    rewrite Hst in Hstep. simplify_eq.
    assert (E : is_parked w = false) by (unfold is_parked; by rewrite Hpcw').
    pose proof (countb_insert_as is_parked _ i w (set_pc Exited w)
      false false Hi E eq_refl) as C. cbv iota in C.
    split; [|split].
    + split; simpl; rewrite ?upd_eq; simpl; try done.
      * rewrite <- Hh. by eapply map_history_insert.
      * intros q Hq. by rewrite !upd_ne, Ho.
    + simpl. rewrite !upd_eq. unfold size. simpl. by rewrite length_insert.
    + exists j. split; [done|]. right.
      split; simpl; rewrite ?upd_eq; simpl; try done.
      * apply Forall_insert; [done|]. split; [done|]. auto.
      * lia.
      * by apply Hjoined.
Qed.

Lemma destroy_step s s' : destroy_inv s -> step s s' -> destroy_inv s'.
Proof.
  intros Hinv [[|q i] Hstep]; simpl in Hstep.
  - by eapply destroy_caller.
  - destruct (decide (q = p)) as [->|Hne].
    + by eapply destroy_worker.
    + by rewrite destroy_worker_other in Hstep.
Qed.

Lemma destroy_measure s s' :
  destroy_inv s -> step s s' -> measure p s' < measure p s.
Proof.
  intros Hinv [[|q i] Hstep]; simpl in Hstep.
  - by apply caller_step_measure.
  - destruct (decide (q = p)) as [->|Hne].
    + by eapply worker_step_measure.
    + by rewrite destroy_worker_other in Hstep.
Qed.

(** The destructor never gets stuck: as long as it has not returned, the
    caller or the worker it is joining can move. *)
Lemma destroy_progress s :
  destroy_inv s -> cpc s <> [] -> exists s', step s s'.
Proof.
  intros ([Hh Hd Hf Hsy Hb Ho Hc] & Hsz & j & Hj & Hph) Hne.
  assert (Hcaller : forall s', caller_step s = Some s' -> exists s', step s s').
  { intros s' H. exists s', Caller. done. }
  destruct Hph as [[Hpc Hid Hst Htr]|[Hpc Hw Hss Hjd Htr]].
  - destruct (decide (j = n)) as [->|Hjn].
    + eapply Hcaller. unfold caller_step. rewrite Hpc, Nat.sub_diag. done.
    + destruct (lookup_lt_is_Some_2 (workers (pools s p)) j) as [w Hwj];
        [unfold size in *; lia|].
      eapply Hcaller. unfold caller_step. rewrite Hpc.
      replace (n - j) with (S (n - S j)) by lia. simpl. rewrite Hwj. done.
  - destruct (decide (j = n)) as [->|Hjn].
    { rewrite Hpc, Nat.sub_diag in Hne. done. }
    destruct (lookup_lt_is_Some_2 (workers (pools s p)) j) as [w Hwj];
      [unfold size in *; lia|].
    destruct (proj1 (Forall_lookup _ _) Hw j w Hwj) as [Hstop Hpcw].
    destruct Hpcw as [Hpk|[Hwk|Hex]].
    + destruct (worker_step_enabled s p j w Hwj) as [s' Hs'].
      * rewrite Hpk, Hss. eapply countb_witness_pos; [exact Hwj|].
        unfold is_parked. by rewrite Hpk.
      * by exists s', (WorkerOf p j).
    + destruct (worker_step_enabled s p j w Hwj) as [s' Hs'].
      * by rewrite Hwk.
      * by exists s', (WorkerOf p j).
    + eapply Hcaller. unfold caller_step. rewrite Hpc.
      replace (n - j) with (S (n - S j)) by lia. simpl. rewrite Hwj. simpl.
      rewrite Hex. done.
Qed.

(** Destruction of a pool none of whose workers is inside an iteration.
    Every run of the destructor is finite and cannot stop before the caller
    has returned; when it has, every worker has been asked to stop and has
    returned (the joins succeeded), [trigger()] was called exactly once and
    no [sync()] was completed, no worker called [F] or released the finish
    semaphore, and the shared data is untouched.  The single [trigger()]
    comes after the stop requests: in any state of a run where it has
    happened, every worker has been asked to stop. *)
Lemma destroy_spec :
  cpc s0 = destroy p n ->
  returns_always s0 /\
  (exists s', steps s0 s' /\ cpc s' = []) /\
  (forall s', steps s0 s' ->
     triggers (pools s' p) <> triggers (pools s0 p) ->
     Forall (fun w => stop_requested w = true) (workers (pools s' p))) /\
  (forall s', steps s0 s' -> cpc s' = [] ->
     Forall (fun w => pc w = Exited /\ stop_requested w = true)
            (workers (pools s' p)) /\
     triggers (pools s' p) = S (triggers (pools s0 p)) /\
     syncs (pools s' p) = syncs (pools s0 p) /\
     finish_sem (pools s' p) = finish_sem (pools s0 p) /\
     map history (workers (pools s' p))
     = map history (workers (pools s0 p)) /\
     dat s' = dat s0).
Proof.
  intros Hpc. pose proof (destroy_init Hpc) as H0.
  assert (Hpres : forall s s', destroy_inv s -> step s s' ->
            destroy_inv s' /\ measure p s' < measure p s).
  { intros s s' HI Hs. split; [by eapply destroy_step|].
    by eapply destroy_measure. }
  assert (Hall : forall s', steps s0 s' -> destroy_inv s').
  { intros s' Hs. eapply (steps_invariant destroy_inv); [|done..].
    intros ? ? ? ?. by eapply destroy_step. }
  split; [|split; [|split]].
  - eapply returns_always_intro; [exact Hpres|apply destroy_progress|done].
  - destruct (reaches_return destroy_inv (measure p) Hpres destroy_progress
                s0 H0) as (s' & ? & ? & _). eauto.
  - intros s' Hs Htr.
    destruct (Hall s' Hs) as (_ & _ & j & _ & [[]|[]]); [done|].
    eapply Forall_impl; [done|]. by intros w [? _].
  - intros s' Hs Hret.
    destruct (Hall s' Hs)
      as ([Hh Hd Hf Hsy Hb Ho Hc] & Hsz & j & Hj & Hph).
    destruct Hph as [[Hpc' _ _ _]|[Hpc' Hw Hss Hjd Htr]].
    { rewrite Hret in Hpc'. by destruct (seq j (n - j)). }
    assert (j = n) as ->.
    { rewrite Hret in Hpc'. destruct (n - j) eqn:E; [lia|done]. }
    repeat split; try done.
    apply Forall_lookup. intros i w Hi. split.
    + eapply Hjd; [|done]. apply lookup_lt_Some in Hi. unfold size in *. lia.
    + by destruct (proj1 (Forall_lookup _ _) Hw i w Hi).
Qed.

End Destroy.

(** *** Steps seen from the list of workers *)

Lemma worker_step_workers s s' p i w :
  worker_step p i s = Some s' -> workers (pools s p) !! i = Some w ->
  exists w', workers (pools s' p) = <[i := w']> (workers (pools s p)) /\
             own_move p s w w'.
Proof.
  unfold worker_step, own_move. intros Hstep Hi. rewrite Hi in Hstep.
  simpl in Hstep.
  destruct (pc w) as [| |[|[]]| |]; simpl in Hstep;
    repeat match type of Hstep with
    | context [match ?x with _ => _ end] => destruct x
    end; simplify_eq; eexists; (split; [|done]);
    simpl; rewrite ?upd_eq; simpl; rewrite ?upd_eq; done.
Qed.

Lemma caller_step_workers s s' p :
  caller_step s = Some s' ->
  workers (pools s' p) = workers (pools s p) \/
  exists i w, cpc s = CRequestStop p i :: cpc s' /\
              workers (pools s p) !! i = Some w /\
              workers (pools s' p)
              = <[i := request_stop w]> (workers (pools s p)).
Proof.
  unfold caller_step. intros Hstep.
  destruct (cpc s) as [|c k]; [done|].
  destruct c as [f|f|q|q|q|q|q j|q j]; simpl in Hstep;
    [| | | | | |destruct (workers (pools s q) !! j) as [w|] eqn:Hj
     |destruct (workers (pools s q) !! j) as [w|] eqn:Hj];
    simpl in Hstep;
    repeat match type of Hstep with
    | context [match ?x with _ => _ end] => destruct x eqn:?
    end; simplify_eq/=; try (by left);
    try (left; unfold upd; by case_decide; subst).
  destruct (decide (p = q)) as [->|Hne].
  - right. exists j, w. by rewrite upd_eq.
  - left. by rewrite upd_ne.
Qed.

(** *** A call of the form: plain statements, [trigger_sync()], plain
    statements *)

Definition plain (c : cinstr) : bool :=
  match c with CData _ | CRet _ => true | _ => false end.

(** The effect of plain statements on the shared data and on the value
    returned to the caller. *)
Fixpoint run_plain (k : list cinstr) (x : D * option R) : D * option R :=
  match k with
  | [] => x
  | CData f :: k => run_plain k (f x.1, x.2)
  | CRet f :: k => run_plain k (x.1, Some (f x.1))
  | _ :: k => run_plain k x
  end.

Lemma plain_step c k s :
  plain c = true -> cpc s = c :: k ->
  exists s', caller_step s = Some s' /\
    cpc s' = k /\ pools s' = pools s /\ bars s' = bars s /\
    forall k', run_plain k' (dat s', cret s')
               = run_plain (c :: k') (dat s, cret s).
Proof.
  intros Hc Hpc. unfold caller_step. rewrite Hpc.
  destruct c; try done; eexists; (split; [done|]); done.
Qed.

Section Call.
Variable p : P.
Variables pre post : list cinstr.
(** What is known of the workers and the shared data during the cycle. *)
Variable J : list worker -> D -> Prop.
(** The state in which the call starts. *)
Variable s0 : sys.

Hypothesis Hbar :
  Forall (fun i => forall b, i = Arrive b -> b = p) (closure p).
Hypothesis Harr : 1 <= arrivals (closure p).
Hypothesis Hpre : Forall (fun c => plain c = true) pre.
Hypothesis Hpost : Forall (fun c => plain c = true) post.
Hypothesis Hq0 : quiescent p s0.
Hypothesis Hidle0 : forall q, idle q s0.
Hypothesis Hpc0 : cpc s0 = pre ++ trigger_sync p ++ post.

Local Abbreviation at_trigger := (run_plain pre (dat s0, cret s0)).

Hypothesis HJ0 : J (workers (pools s0 p)) at_trigger.1.
Hypothesis HJstep :
  forall sB fin s i s',
    pools sB = pools s0 -> bars sB = bars s0 -> dat sB = at_trigger.1 ->
    cycle_inv p sB post fin s -> J (workers (pools s p)) (dat s) ->
    worker_step p i s = Some s' ->
    J (workers (pools s' p)) (dat s').

(** The state in which [trigger()] is called. *)
Definition trigger_state (sB : sys) : Prop :=
  pools sB = pools s0 /\ bars sB = bars s0 /\
  (dat sB, cret sB) = at_trigger /\ cpc sB = trigger_sync p ++ post.

Definition before_cycle (s : sys) : Prop :=
  exists k, Forall (fun c => plain c = true) k /\
    cpc s = k ++ trigger_sync p ++ post /\
    pools s = pools s0 /\ bars s = bars s0 /\
    run_plain k (dat s, cret s) = at_trigger.

Definition in_cycle (s : sys) : Prop :=
  exists sB fin, trigger_state sB /\ cycle_inv p sB post fin s /\
    J (workers (pools s p)) (dat s).

Definition after_cycle (s : sys) : Prop :=
  exists sB dC, trigger_state sB /\
    cycle_post p sB s /\
    J (workers (pools s p)) dC /\
    exists k, Forall (fun c => plain c = true) k /\ cpc s = k /\
      run_plain k (dat s, cret s) = run_plain post (dC, cret sB).

Definition call_inv (s : sys) : Prop :=
  before_cycle s \/ in_cycle s \/ after_cycle s.

Lemma call_init : call_inv s0.
Proof. left. exists pre. by repeat split. Qed.

Lemma trigger_state_quiescent sB : trigger_state sB -> quiescent p sB.
Proof.
  intros (Hp & Hb & _). destruct Hq0. split; by rewrite ?Hp, ?Hb.
Qed.

Lemma trigger_state_idle sB q : trigger_state sB -> idle q sB.
Proof. intros (Hp & _). unfold idle. rewrite Hp. apply Hidle0. Qed.

Lemma before_cycle_idle s q : before_cycle s -> idle q s.
Proof. intros (k & _ & _ & Hp & _). unfold idle. rewrite Hp. apply Hidle0. Qed.

Lemma after_cycle_idle s q : after_cycle s -> idle q s.
Proof.
  intros (sB & dC & HB & [Hq _ _ _ _ Hfr] & _).
  destruct (decide (q = p)) as [->|Hne].
  - by apply quiescent_idle.
  - destruct (Hfr q Hne) as [Hp _]. unfold idle. rewrite Hp.
    by apply trigger_state_idle.
Qed.

Lemma call_caller s s' :
  call_inv s -> caller_step s = Some s' -> call_inv s'.
Proof.
  intros [HA|[HB|HC]] Hstep.
  - destruct HA as (k & Hk & Hpc & Hp & Hb & Hrun).
    destruct k as [|c k].
    + (* trigger() *)
      assert (HtB : trigger_state s) by (by repeat split).
      destruct (cycle_init p s post Harr (trigger_state_quiescent _ HtB)
                  s' Hpc Hstep) as [Hinv Hdat].
      right; left. exists s, (size (pools s p)). split; [done|].
      split; [done|]. rewrite Hdat.
      assert (Hws : workers (pools s' p) = workers (pools s0 p)).
      { destruct (caller_step_workers _ _ p Hstep) as [->|(i & w & Hc & _)].
        - by rewrite Hp.
        - simpl in Hpc. rewrite Hpc in Hc. done. }
      rewrite Hws. pose proof HJ0 as H0. simpl in Hrun.
      by rewrite <- Hrun in H0.
    + apply Forall_cons in Hk as [Hc Hk].
      destruct (plain_step c _ s Hc Hpc) as (s1 & Hs1 & ? & ? & ? & Hr).
      simplify_eq. left. exists k. rewrite Hr.
      repeat split; try done; congruence.
  - destruct HB as (sB & fin & HtB & Hinv & HJ).
    destruct (cycle_caller p sB post Harr fin s s' Hinv Hstep)
      as [Hdat Hnext].
    assert (Hws : workers (pools s' p) = workers (pools s p)).
    { destruct (caller_step_workers _ _ p Hstep) as [->|(i & w & Hc & _)];
        [done|].
      destruct (ci_pc _ _ _ _ _ Hinv) as [[_ Hpc]|Hpc]; rewrite Hpc in Hc;
        [done|]. by destruct fin. }
    destruct Hnext as [[fin' Hinv']|Hdone].
    + right; left. exists sB, fin'. rewrite Hws, Hdat. done.
    + right; right. exists sB, (dat s'). split; [done|].
      rewrite Hws, Hdat.
      assert (Hpc' : cpc s' = post) by apply Hdone.
      assert (Hcr : cret s' = cret sB) by apply Hdone.
      split; [by eapply cycle_done_post|]. split; [done|].
      exists post. by rewrite Hpc', Hcr.
  - destruct HC as (sB & dC & HtB & Hdone & HJ & k & Hk & Hpc & Hrun).
    destruct k as [|c k]; [by unfold caller_step in Hstep; rewrite Hpc in Hstep|].
    apply Forall_cons in Hk as [Hc Hk].
    destruct (plain_step c _ s Hc Hpc) as (s1 & Hs1 & ? & Hp1 & Hb1 & Hr).
    simplify_eq. right; right. exists sB, dC. split; [done|].
    split; [|split].
    + by eapply cycle_post_ext.
    + by rewrite Hp1.
    + exists (cpc s'). split; [done|]. split; [done|]. by rewrite Hr.
Qed.

Lemma call_worker_other s q i :
  q <> p -> call_inv s -> worker_step q i s = None.
Proof.
  intros Hq [HA|[HB|HC]].
  - apply idle_worker_blocked. by apply before_cycle_idle.
  - destruct HB as (sB & fin & HtB & Hinv & _).
    eapply cycle_worker_other; [|done..].
    intros q' _. by apply trigger_state_idle.
  - apply idle_worker_blocked. by apply after_cycle_idle.
Qed.

Lemma call_worker s s' i :
  call_inv s -> worker_step p i s = Some s' -> call_inv s'.
Proof.
  intros [HA|[HB|HC]] Hstep.
  - by rewrite idle_worker_blocked in Hstep by (by apply before_cycle_idle).
  - destruct HB as (sB & fin & HtB & Hinv & HJ).
    right; left. exists sB, fin. split; [done|]. split.
    + by eapply cycle_worker.
    + destruct HtB as (Hp & Hb & Hd & _). eapply (HJstep sB); try done.
      by rewrite <- Hd.
  - by rewrite idle_worker_blocked in Hstep by (by apply after_cycle_idle).
Qed.

Lemma call_step s s' :
  call_inv s -> step s s' -> call_inv s' /\ measure p s' < measure p s.
Proof.
  intros Hinv [[|q i] Hstep]; simpl in Hstep.
  - split; [by eapply call_caller|by apply caller_step_measure].
  - destruct (decide (q = p)) as [->|Hne].
    + split; [by eapply call_worker|by eapply worker_step_measure].
    + by rewrite call_worker_other in Hstep.
Qed.

Lemma call_progress s : call_inv s -> cpc s <> [] -> exists s', step s s'.
Proof.
  intros [HA|[HB|HC]] Hne.
  - destruct HA as (k & Hk & Hpc & _). destruct k as [|c k].
    + eexists. exists Caller. simpl. unfold caller_step. by rewrite Hpc.
    + apply Forall_cons in Hk as [Hc _].
      destruct (plain_step c _ s Hc Hpc) as (s' & Hs' & _).
      exists s'. by exists Caller.
  - destruct HB as (sB & fin & _ & Hinv & _). by eapply cycle_progress.
  - destruct HC as (sB & dC & _ & _ & _ & k & Hk & Hpc & _).
    destruct k as [|c k]; [done|].
    apply Forall_cons in Hk as [Hc _].
    destruct (plain_step c _ s Hc Hpc) as (s' & Hs' & _).
    exists s'. by exists Caller.
Qed.

(** A call made of plain statements around one [trigger_sync()] always
    returns; when it has, the pool is quiescent again after exactly one more
    trigger and one more completed sync, every worker having run the bound
    function once more, the other pools and barriers are as before, and the
    data and the returned value are what the plain statements after the
    cycle make of the data [dC] the workers left. *)
Lemma call_spec :
  returns_always s0 /\
  (exists s', steps s0 s' /\ cpc s' = []) /\
  (forall s', steps s0 s' -> cpc s' = [] ->
     exists sB dC, trigger_state sB /\ cycle_post p sB s' /\
       J (workers (pools s' p)) dC /\
       (dat s', cret s') = run_plain post (dC, cret sB)).
Proof.
  assert (Hall : forall s', steps s0 s' -> call_inv s').
  { intros s' Hs. eapply (steps_invariant call_inv); [|apply call_init|done].
    intros ? ? ? ?. by eapply call_step. }
  split; [|split].
  - eapply returns_always_intro;
      [exact call_step|exact call_progress|apply call_init].
  - destruct (reaches_return call_inv (measure p) call_step call_progress
                s0 call_init) as (s' & ? & ? & _). eauto.
  - intros s' Hs Hret. destruct (Hall s' Hs) as [HA|[HB|HC]].
    + destruct HA as (k & _ & Hpc & _). rewrite Hret in Hpc.
      by destruct k.
    + destruct HB as (sB & fin & _ & Hinv & _).
      destruct (ci_pc _ _ _ _ _ Hinv) as [[_ Hpc]|Hpc];
        rewrite Hret in Hpc; [done|]. by destruct fin.
    + destruct HC as (sB & dC & HtB & Hcp & HJ & k & _ & Hpc & Hrun).
      exists sB, dC. split; [done|]. split; [done|]. split; [done|].
      rewrite Hret in Hpc. subst k. by simpl in Hrun.
Qed.

(** Every state of a run of the call is before, inside or after the
    cycle. *)
Lemma call_reachable s' : steps s0 s' -> call_inv s'.
Proof.
  intros Hs. eapply (steps_invariant call_inv); [|apply call_init|done].
  intros ? ? ? ?. by eapply call_step.
Qed.

End Call.

(** *** Which workers have got how far *)

(** How many statements of the body [c] a worker has still to complete in
    the iteration that follows the [r0]-th completed sync. *)
Definition todo (r0 : nat) (c : list instr) (w : worker) : nat :=
  match pc w with
  | Parked => if Nat.eqb (released w) r0 then length c else 0
  | Woken => length c
  | Running r | Waiting _ _ r => length r
  | Exited => 0
  end.

(** [l] lists, without repetition, the workers that satisfy [Q]. *)
Definition lists (Q : worker -> Prop) (ws : list worker) (l : list nat)
  : Prop :=
  NoDup l /\ forall j, j ∈ l <-> exists x, ws !! j = Some x /\ Q x.

Lemma lists_insert_same Q ws l i w w' :
  ws !! i = Some w -> (Q w <-> Q w') -> lists Q ws l ->
  lists Q (<[i := w']> ws) l.
Proof.
  intros Hi HQ [Hnd Hl]. split; [done|]. intros j. rewrite Hl.
  destruct (decide (j = i)) as [->|Hne].
  - rewrite list_lookup_insert_eq by (by eapply lookup_lt_Some).
    split; intros (x & Hx & ?); simplify_eq; eexists; split; try done;
      by apply HQ.
  - by rewrite list_lookup_insert_ne.
Qed.

Lemma lists_insert_new Q ws l i w w' :
  ws !! i = Some w -> ~ Q w -> Q w' -> lists Q ws l ->
  lists Q (<[i := w']> ws) (l ++ [i]).
Proof.
  intros Hi HnQ HQ [Hnd Hl]. split.
  - apply NoDup_app. split; [done|]. split; [|apply NoDup_singleton].
    intros j Hj ->%list_elem_of_singleton.
    apply Hl in Hj as (x & Hx & ?). by simplify_eq.
  - intros j. rewrite elem_of_app, list_elem_of_singleton, Hl.
    destruct (decide (j = i)) as [->|Hne].
    + rewrite list_lookup_insert_eq by (by eapply lookup_lt_Some).
      split; [|by right]. intros _. by exists w'.
    + rewrite list_lookup_insert_ne by done. split; [|by left].
      by intros [?|?].
Qed.

Lemma lists_nil Q ws :
  (forall j x, ws !! j = Some x -> ~ Q x) -> lists Q ws [].
Proof.
  intros H. split; [apply NoDup_nil_2|]. intros j. split.
  - by intros ?%elem_of_nil.
  - intros (x & Hx & HQ). by destruct (H j x Hx).
Qed.

Lemma lists_nil_inv Q ws l :
  (forall j x, ws !! j = Some x -> ~ Q x) -> lists Q ws l -> l = [].
Proof.
  intros H [_ Hl]. destruct l as [|j l]; [done|].
  destruct (proj1 (Hl j)) as (x & Hx & HQ); [by left|].
  by destruct (H j x Hx).
Qed.

Lemma lists_all Q ws l :
  (forall j x, ws !! j = Some x -> Q x) -> lists Q ws l ->
  l ≡ₚ seq 0 (length ws).
Proof.
  intros H [Hnd Hl]. apply NoDup_Permutation; [done|apply NoDup_seq|].
  intros j. rewrite Hl, elem_of_seq. split.
  - intros (x & Hx & _). apply lookup_lt_Some in Hx. lia.
  - intros [_ Hlt]. destruct (lookup_lt_is_Some_2 ws j) as [x Hx]; [lia|].
    exists x. split; [done|]. by eapply H.
Qed.

(** A worker's action inside a cycle, with all that the invariant says of
    the worker before and after. *)
Lemma cycle_worker_view p sB k fin s i s' :
  Forall (fun i => forall b, i = Arrive b -> b = p) (closure p) ->
  1 <= arrivals (closure p) ->
  cycle_inv p sB k fin s -> worker_step p i s = Some s' ->
  exists w w',
    workers (pools s p) !! i = Some w /\
    workers (pools s' p) = <[i := w']> (workers (pools s p)) /\
    own_move p s w w' /\ arg w = i /\
    wok p sB (phase (bars s p)) w /\
    wok p sB (phase (bars s' p)) w' /\
    dat s' = match pc w with
             | Running (Do f :: _) => f i (dat s)
             | _ => dat s
             end.
Proof.
  intros Hbar Harr Hinv Hstep.
  pose proof (cycle_worker p sB k Hbar Harr fin s i s' Hinv Hstep) as Hinv'.
  destruct (workers (pools s p) !! i) as [w|] eqn:Hi.
  2:{ unfold worker_step in Hstep. by rewrite Hi in Hstep. }
  destruct (worker_step_workers _ _ _ _ w Hstep Hi) as (w' & Hws & Hmv).
  destruct (worker_step_effect _ _ _ _ w Hstep Hi) as [_ Hd].
  pose proof (ci_args _ _ _ _ _ Hinv i w Hi) as Harg.
  exists w, w'. do 4 (split; [done|]). split; [|split].
  - apply (proj1 (Forall_lookup _ _) (ci_wok _ _ _ _ _ Hinv) i w Hi).
  - apply (proj1 (Forall_lookup _ _) (ci_wok _ _ _ _ _ Hinv') i w').
    rewrite Hws. apply list_lookup_insert_eq. by eapply lookup_lt_Some.
  - rewrite Hd, Harg. done.
Qed.

(** *** What no run changes: the size of a pool and the arguments bound to
    its workers *)

Lemma worker_step_pools_other s s' q i p :
  worker_step q i s = Some s' -> p <> q -> pools s' p = pools s p.
Proof.
  unfold worker_step. intros Hstep Hne.
  destruct (workers (pools s q) !! i) as [w|]; simplify_eq/=.
  destruct (pc w) as [| |[|[]]| |]; simpl in Hstep;
    repeat match type of Hstep with
    | context [match ?x with _ => _ end] => destruct x
    end; simplify_eq; simpl; by rewrite ?upd_ne.
Qed.

Lemma own_move_arg p s w w' : own_move p s w w' -> arg w' = arg w.
Proof.
  unfold own_move.
  destruct (pc w) as [| |[|[]]| |]; try done; intros ->; try done.
  by destruct (stop_requested w).
Qed.

Lemma map_arg_insert (ws : list worker) i w w' :
  ws !! i = Some w -> arg w' = arg w ->
  map arg (<[i := w']> ws) = map arg ws.
Proof.
  intros Hi Ha. change (arg <$> <[i:=w']> ws = arg <$> ws).
  rewrite list_fmap_insert, Ha. apply list_insert_id.
  by rewrite list_lookup_fmap, Hi.
Qed.

Lemma step_args p s s' :
  step s s' ->
  map arg (workers (pools s' p)) = map arg (workers (pools s p)).
Proof.
  intros [[|q i] Hstep]; simpl in Hstep.
  - destruct (caller_step_workers _ _ p Hstep)
      as [->|(i & w & _ & Hi & ->)]; [done|].
    by eapply map_arg_insert.
  - destruct (decide (p = q)) as [->|Hne].
    + destruct (workers (pools s q) !! i) as [w|] eqn:Hi.
      2:{ unfold worker_step in Hstep. by rewrite Hi in Hstep. }
      destruct (worker_step_workers _ _ _ _ w Hstep Hi) as (w' & -> & Hmv).
      eapply map_arg_insert; [done|]. by eapply own_move_arg.
    + by rewrite (worker_step_pools_other _ _ _ _ p Hstep).
Qed.

(** X4: whatever the caller does with a pool ([trigger], [sync], stop
    requests, joins) and whatever the workers do, along every run the
    number of workers of each pool, which is what [size()] returns, and the
    argument bound to each worker stay what they were. *)
Theorem pool_shape_fixed (p : P) (s s' : sys) :
  steps s s' ->
  size (pools s' p) = size (pools s p) /\
  map arg (workers (pools s' p)) = map arg (workers (pools s p)).
Proof.
  intros Hs. induction Hs as [s|s s1 s' Hstep _ [IH1 IH2]]; [done|].
  rewrite IH1, IH2. split; [|by apply step_args].
  destruct Hstep as [[|q i] Hstep]; simpl in Hstep.
  - by eapply caller_step_size.
  - by eapply worker_step_size.
Qed.

(** *** One cycle, counted *)

(** Between the start and the end of a cycle, worker [w] has become [w']:
    the same argument, one more call of [F], one more release. *)
Definition ran_once (w w' : worker) : Prop :=
  arg w' = arg w /\ invoked w' = S (invoked w) /\
  released w' = S (released w).

Lemma steps_balanced p s s' :
  steps s s' -> Forall balanced (workers (pools s p)) ->
  Forall balanced (workers (pools s' p)).
Proof.
  intros Hs Hb.
  eapply (steps_invariant (fun s => Forall balanced (workers (pools s p))));
    [|done..].
  intros ? ? ? ?. by eapply step_balanced.
Qed.

Lemma quiescent_ran_once p s0 s' :
  quiescent p s0 -> quiescent p s' ->
  size (pools s' p) = size (pools s0 p) ->
  syncs (pools s' p) = S (syncs (pools s0 p)) ->
  Forall balanced (workers (pools s0 p)) ->
  Forall balanced (workers (pools s' p)) ->
  Forall2 ran_once (workers (pools s0 p)) (workers (pools s' p)).
Proof.
  intros Hq0 Hq' Hsz Hsy Hb0 Hb'.
  apply Forall2_same_length_lookup. split; [by unfold size in Hsz|].
  intros i w w' Hi Hi'.
  destruct (proj1 (Forall_lookup _ _) (q_workers _ _ Hq0) i w Hi)
    as (Hpc & Hr & _).
  destruct (proj1 (Forall_lookup _ _) (q_workers _ _ Hq') i w' Hi')
    as (Hpc' & Hr' & _).
  pose proof (proj1 (Forall_lookup _ _) Hb0 i w Hi) as Hbw.
  pose proof (proj1 (Forall_lookup _ _) Hb' i w' Hi') as Hbw'.
  unfold balanced in Hbw, Hbw'. rewrite Hpc in Hbw. rewrite Hpc' in Hbw'.
  repeat split.
  - by rewrite (q_args _ _ Hq0 i w Hi), (q_args _ _ Hq' i w' Hi').
  - lia.
  - lia.
Qed.

(** What a call made of plain statements around one [trigger_sync()] on
    pool [p] leaves of the pools and barriers. *)
Lemma cycle_counts p pre post s0 :
  Forall (fun i => forall b, i = Arrive b -> b = p) (closure p) ->
  1 <= arrivals (closure p) ->
  Forall (fun c => plain c = true) pre ->
  Forall (fun c => plain c = true) post ->
  quiescent p s0 -> (forall q, idle q s0) ->
  Forall balanced (workers (pools s0 p)) ->
  cpc s0 = pre ++ trigger_sync p ++ post ->
  returns_always s0 /\
  (exists s', steps s0 s' /\ cpc s' = []) /\
  (forall s', steps s0 s' -> cpc s' = [] ->
     quiescent p s' /\
     Forall2 ran_once (workers (pools s0 p)) (workers (pools s' p)) /\
     triggers (pools s' p) = S (triggers (pools s0 p)) /\
     syncs (pools s' p) = S (syncs (pools s0 p)) /\
     phase (bars s' p)
     = (if decide (size (pools s0 p) = 0) then phase (bars s0 p)
        else phase (bars s0 p) + arrivals (closure p)) /\
     (forall q, q <> p -> pools s' q = pools s0 q /\ bars s' q = bars s0 q)).
Proof.
  intros Hbar Harr Hpre Hpost Hq0 Hidle Hb0 Hpc.
  destruct (call_spec p pre post (fun _ _ => True) s0 Hbar Harr Hpre Hpost
              Hq0 Hidle Hpc I) as (Hret & Hex & Hfin); [done|].
  split; [done|]. split; [done|]. intros s' Hs Hc.
  destruct (Hfin s' Hs Hc) as (sB & dC & (Hp & Hb & _) & Hcp & _).
  destruct Hcp as [Hq Hsz Hsy Htr Hph Hfr]. rewrite Hp in Hsz, Hsy, Htr, Hph.
  rewrite Hb in Hph. split; [done|]. split.
  { apply quiescent_ran_once; try done. by eapply steps_balanced. }
  do 3 (split; [done|]).
  intros q Hne. destruct (Hfr q Hne) as [-> ->]. by rewrite Hp, Hb.
Qed.

(** X5: [trigger_sync()] on a pool whose bound function rendezvouses, at
    least once, on a barrier of its own armed for all the workers, called
    while no iteration is outstanding.  It always returns; when it has, no
    iteration is outstanding again, every worker has called the bound
    function exactly once more and released the finish semaphore exactly
    once more, there has been one trigger and one completed sync, the
    barrier has gone through as many phases as the bound function has
    rendezvous, and the other pools and barriers are as they were. *)
Theorem trigger_sync_runs_once (p : P) (s0 : sys) :
  Forall (fun i => forall b, i = Arrive b -> b = p) (closure p) ->
  1 <= arrivals (closure p) ->
  quiescent p s0 -> (forall q, idle q s0) ->
  Forall balanced (workers (pools s0 p)) ->
  cpc s0 = trigger_sync p ->
  returns_always s0 /\
  (exists s', steps s0 s' /\ cpc s' = []) /\
  (forall s', steps s0 s' -> cpc s' = [] ->
     quiescent p s' /\
     Forall2 ran_once (workers (pools s0 p)) (workers (pools s' p)) /\
     triggers (pools s' p) = S (triggers (pools s0 p)) /\
     syncs (pools s' p) = S (syncs (pools s0 p)) /\
     phase (bars s' p)
     = (if decide (size (pools s0 p) = 0) then phase (bars s0 p)
        else phase (bars s0 p) + arrivals (closure p)) /\
     (forall q, q <> p -> pools s' q = pools s0 q /\ bars s' q = bars s0 q)).
Proof.
  intros Hbar Harr Hq0 Hidle Hb0 Hpc.
  apply (cycle_counts p [] [] s0); done.
Qed.

(** *** A bound function without rendezvous *)

(** The data after the body [c] has run for the argument [a] with nothing
    else running in between. *)
Fixpoint run_body (c : list instr) (a : nat) (d : D) : D :=
  match c with
  | [] => d
  | Do f :: r => run_body r a (f a d)
  | Arrive _ :: r => run_body r a d
  end.

(** A run from [s] to [s'] in which only worker [i] of pool [p] moves: it
    ends as [w'], has taken [taken] permits of the start semaphore and given
    [given] permits to the finish semaphore, and leaves the data [d']. *)
Record solo (p : P) (i : nat) (w' : worker) (taken given : nat) (d' : D)
    (s s' : sys) : Prop := Solo
  { so_steps : steps s s';
    so_cpc : cpc s' = cpc s;
    so_synced : synced (pools s' p) = synced (pools s p);
    so_start : start_sem (pools s' p) + taken = start_sem (pools s p);
    so_finish : finish_sem (pools s' p) = finish_sem (pools s p) + given;
    so_workers : workers (pools s' p) = <[i := w']> (workers (pools s p));
    so_dat : dat s' = d' }.

Lemma worker_eta (w : worker) :
  Worker (arg w) (stop_requested w) (pc w) (invoked w) (released w) = w.
Proof. by destruct w. Qed.

Lemma body_alone (p : P) (i : nat) (r : list instr) :
  forall (s : sys) (w : worker),
    arrivals r = 0 ->
    workers (pools s p) !! i = Some w -> pc w = Running r ->
    exists s', solo p i (set_pc (Running []) w) 0 0
                    (run_body r (arg w) (dat s)) s s'.
Proof.
  induction r as [|[b|f] r IH]; intros s w Ha Hi Hpc; [|done|].
  - exists s. split; try done; try lia.
    symmetry. apply list_insert_id. rewrite Hi. f_equal.
    unfold set_pc. rewrite <- Hpc. by rewrite worker_eta.
  - set (s1 := set_worker p i (set_pc (Running r) w)
                 (set_dat (f (arg w) (dat s)) s)).
    assert (Hstep : worker_step p i s = Some s1).
    { unfold worker_step. rewrite Hi. simpl. by rewrite Hpc. }
    assert (Hws1 : workers (pools s1 p)
                   = <[i := set_pc (Running r) w]> (workers (pools s p))).
    { simpl. by rewrite upd_eq. }
    destruct (IH s1 (set_pc (Running r) w)) as (s' & Hsolo); [done| |done|].
    { rewrite Hws1. apply list_lookup_insert_eq. by eapply lookup_lt_Some. }
    destruct Hsolo as [Hst Hc Hsy Hss Hfs Hw Hd].
    exists s'. split.
    + eapply rtc_l; [by exists (WorkerOf p i)|done].
    + by rewrite Hc.
    + rewrite Hsy. simpl. by rewrite upd_eq.
    + rewrite Hss. simpl. by rewrite upd_eq.
    + rewrite Hfs. simpl. by rewrite upd_eq.
    + rewrite Hw, Hws1. by rewrite list_insert_insert_eq.
    + by rewrite Hd.
Qed.

(** One iteration of worker [i] with nothing else running in between. *)
Lemma iteration_alone (p : P) (i : nat) (s : sys) (w : worker) :
  arrivals (closure p) = 0 ->
  workers (pools s p) !! i = Some w ->
  pc w = Parked -> stop_requested w = false ->
  0 < start_sem (pools s p) ->
  exists s', solo p i
               (Worker (arg w) false Parked (S (invoked w)) (S (released w)))
               1 1 (run_body (closure p) (arg w) (dat s)) s s'.
Proof.
  intros Ha Hi Hpc Hstop Hstart.
  destruct (start_sem (pools s p)) as [|m] eqn:Hm; [lia|].
  pose proof (lookup_lt_Some _ _ _ Hi) as Hlt.
  set (s1 := set_worker p i (set_pc Woken w)
               (set_pool p (set_start m (pools s p)) s)).
  assert (Hs1 : worker_step p i s = Some s1).
  { unfold worker_step. rewrite Hi. simpl. by rewrite Hpc, Hm. }
  assert (Hi1 : workers (pools s1 p) !! i = Some (set_pc Woken w)).
  { simpl. rewrite !upd_eq. simpl. by apply list_lookup_insert_eq. }
  set (s2 := set_worker p i (invoke (closure p) (set_pc Woken w)) s1).
  assert (Hs2 : worker_step p i s1 = Some s2).
  { unfold worker_step. rewrite Hi1. simpl. by rewrite Hstop. }
  assert (Hi2 : workers (pools s2 p) !! i
                = Some (invoke (closure p) (set_pc Woken w))).
  { unfold s2. simpl. rewrite !upd_eq. simpl. apply list_lookup_insert_eq.
    by rewrite length_insert. }
  destruct (body_alone p i (closure p) s2 _ Ha Hi2 eq_refl)
    as (s3 & [Hst3 Hc3 Hsy3 Hss3 Hfs3 Hw3 Hd3]).
  set (w3 := set_pc (Running []) (invoke (closure p) (set_pc Woken w))) in *.
  assert (Hi3 : workers (pools s3 p) !! i = Some w3).
  { rewrite Hw3. apply list_lookup_insert_eq.
    unfold s2. simpl. rewrite !upd_eq. simpl. by rewrite !length_insert. }
  set (s4 := set_worker p i (finish w3)
               (set_pool p (set_finish (S (finish_sem (pools s3 p)))
                              (pools s3 p)) s3)).
  assert (Hs4 : worker_step p i s3 = Some s4).
  { unfold worker_step. by rewrite Hi3. }
  exists s4. split.
  - eapply rtc_l; [by exists (WorkerOf p i)|].
    eapply rtc_l; [by exists (WorkerOf p i)|].
    eapply rtc_trans; [exact Hst3|].
    apply rtc_once. by exists (WorkerOf p i).
  - simpl. by rewrite Hc3.
  - simpl. rewrite !upd_eq. simpl. rewrite Hsy3. unfold s2. simpl.
    by rewrite !upd_eq.
  - simpl. rewrite !upd_eq. simpl.
    assert (start_sem (pools s2 p) = m) as Hm2
      by (unfold s2; simpl; by rewrite !upd_eq).
    lia.
  - simpl. rewrite !upd_eq. simpl. rewrite Hfs3. unfold s2. simpl.
    rewrite !upd_eq. simpl. lia.
  - simpl. rewrite !upd_eq. simpl. rewrite Hw3. unfold s2. simpl.
    rewrite !upd_eq. simpl. rewrite !list_insert_insert_eq.
    f_equal. unfold finish. simpl. by rewrite Hstop.
  - simpl. by rewrite Hd3.
Qed.

(** As many iterations of worker [i] as the start semaphore has permits,
    with nothing else running in between. *)
Lemma iterations_alone (p : P) (i : nat) (w : worker) (m : nat) :
  forall s : sys,
    arrivals (closure p) = 0 ->
    workers (pools s p) !! i = Some w ->
    pc w = Parked -> stop_requested w = false ->
    m <= start_sem (pools s p) ->
    exists s', solo p i
                 (Worker (arg w) false Parked (m + invoked w)
                         (m + released w))
                 m m (Nat.iter m (run_body (closure p) (arg w)) (dat s)) s s'.
Proof.
  induction m as [|m IH]; intros s Ha Hi Hpc Hstop Hm.
  - exists s. split; try done; try lia.
    symmetry. apply list_insert_id. rewrite Hi. f_equal. simpl.
    rewrite <- Hpc, <- Hstop. by rewrite worker_eta.
  - destruct (IH s Ha Hi Hpc Hstop) as (s1 & [Hst Hc Hsy Hss Hfs Hw Hd]);
      [lia|].
    set (w1 := Worker (arg w) false Parked (m + invoked w) (m + released w))
      in *.
    destruct (iteration_alone p i s1 w1 Ha)
      as (s2 & [Hst2 Hc2 Hsy2 Hss2 Hfs2 Hw2 Hd2]); try done.
    { rewrite Hw. apply list_lookup_insert_eq. by eapply lookup_lt_Some. }
    { lia. }
    exists s2. split.
    + by eapply rtc_trans.
    + by rewrite Hc2.
    + by rewrite Hsy2.
    + lia.
    + lia.
    + rewrite Hw2, Hw. by rewrite list_insert_insert_eq.
    + rewrite Hd2, Hd. done.
Qed.

(** The loop of [sync()] when the finish semaphore holds enough permits. *)
Lemma acquire_all (p : P) (m : nat) :
  forall (s : sys) (k : list cinstr),
    cpc s = replicate m (CFinishAcquire p) ++ k ->
    m <= finish_sem (pools s p) ->
    exists s', steps s s' /\ cpc s' = k /\ dat s' = dat s /\
      workers (pools s' p) = workers (pools s p) /\
      synced (pools s' p) = synced (pools s p).
Proof.
  induction m as [|m IH]; intros s k Hc Hm.
  - exists s. split; [apply rtc_refl|done].
  - destruct (finish_sem (pools s p)) as [|n] eqn:Hn; [lia|].
    set (s1 := set_cpc (replicate m (CFinishAcquire p) ++ k)
                 (set_pool p (set_finish n (pools s p)) s)).
    assert (Hs1 : caller_step s = Some s1).
    { unfold caller_step. rewrite Hc. simpl. by rewrite Hn. }
    destruct (IH s1 k) as (s' & Hst & Hc' & Hd & Hw & Hsy); [done| |].
    { simpl. rewrite upd_eq. simpl. lia. }
    exists s'. split; [eapply rtc_l; [by exists Caller|done]|].
    split; [done|]. split; [by rewrite Hd|].
    split; [rewrite Hw|rewrite Hsy]; simpl; by rewrite upd_eq.
Qed.

(** X10: when the bound function has no rendezvous, [trigger_sync()] does
    not make every worker run it once: from a pool at rest there is a run
    in which the first worker takes every permit of the start semaphore and
    runs the function once per worker of the pool, while no other worker
    runs it at all, and [sync()] returns all the same.  The semaphores count
    iterations, not workers; it is the rendezvous at the head of a bound
    function that ties one iteration to each worker. *)
Theorem barrier_free_iteration_unfair (p : P) (s0 : sys)
    (k : list cinstr) :
  arrivals (closure p) = 0 ->
  quiescent p s0 ->
  cpc s0 = trigger_sync p ++ k ->
  exists s',
    steps s0 s' /\ cpc s' = k /\ synced (pools s' p) = true /\
    dat s' = Nat.iter (size (pools s0 p)) (run_body (closure p) 0) (dat s0) /\
    forall i w, workers (pools s0 p) !! i = Some w ->
      exists w', workers (pools s' p) !! i = Some w' /\
        invoked w'
        = (if decide (i = 0) then size (pools s0 p) else 0) + invoked w.
Proof.
  intros Ha [Hws Hargs Hss Hfs Hsy _ _] Hc.
  set (n := size (pools s0 p)).
  set (s1 := set_cpc (CSync p :: k) (set_pool p (trigger (pools s0 p)) s0)).
  assert (Hs1 : caller_step s0 = Some s1).
  { unfold caller_step. by rewrite Hc. }
  assert (Hp1 : pools s1 p = trigger (pools s0 p)).
  { simpl. by rewrite upd_eq. }
  assert (Hsolo : exists s2 ws2,
            steps s1 s2 /\ cpc s2 = cpc s1 /\
            synced (pools s2 p) = false /\
            finish_sem (pools s2 p) = n /\
            workers (pools s2 p) = ws2 /\ length ws2 = n /\
            dat s2 = Nat.iter n (run_body (closure p) 0) (dat s0) /\
            forall i w, workers (pools s0 p) !! i = Some w ->
              exists w', ws2 !! i = Some w' /\
                invoked w' = (if decide (i = 0) then n else 0) + invoked w).
  { destruct (workers (pools s0 p)) as [|w0 ws] eqn:Hws0.
    - exists s1, []. rewrite Hp1. unfold n, size, trigger. rewrite Hws0.
      simpl. split; [apply rtc_refl|]. split; [done|]. split; [done|].
      split; [lia|]. by repeat split.
    - destruct (proj1 (Forall_lookup _ _) Hws 0 w0 eq_refl)
        as (Hpc0 & _ & Hst0).
      destruct (iterations_alone p 0 w0 n s1 Ha)
        as (s2 & [Hst Hc2 Hsy2 Hss2 Hfs2 Hw2 Hd2]); try done.
      { rewrite Hp1. simpl. by rewrite Hws0. }
      { rewrite Hp1. simpl. unfold n. lia. }
      rewrite Hp1 in Hsy2, Hfs2, Hw2. simpl in Hsy2, Hfs2, Hw2.
      rewrite Hws0 in Hw2. simpl in Hw2.
      rewrite (Hargs 0 w0 eq_refl) in Hd2.
      eexists s2, _. split; [done|]. split; [done|]. split; [done|].
      split; [lia|]. split; [exact Hw2|].
      split; [unfold n, size; by rewrite Hws0|].
      split; [done|]. intros [|i] w Hi; simplify_eq/=.
      + eexists. split; [done|]. simpl. done.
      + by exists w. }
  destruct Hsolo as (s2 & ws2 & Hst2 & Hc2 & Hsy2 & Hfs2 & Hw2 & Hlen2
                     & Hd2 & Hinv).
  set (s3 := set_cpc (replicate n (CFinishAcquire p) ++ CSetSynced p :: k)
               s2).
  assert (Hs3 : caller_step s2 = Some s3).
  { unfold caller_step. rewrite Hc2. simpl. rewrite Hsy2.
    unfold size. by rewrite Hw2, Hlen2. }
  destruct (acquire_all p n s3 (CSetSynced p :: k))
    as (s4 & Hst4 & Hc4 & Hd4 & Hw4 & _); [done|simpl; lia|].
  set (s5 := set_cpc k (set_pool p (mark_synced (pools s4 p)) s4)).
  assert (Hs5 : caller_step s4 = Some s5).
  { unfold caller_step. by rewrite Hc4. }
  exists s5. split.
  - eapply rtc_l; [by exists Caller|].
    eapply rtc_trans; [exact Hst2|].
    eapply rtc_l; [by exists Caller|].
    eapply rtc_trans; [exact Hst4|].
    apply rtc_once. by exists Caller.
  - split; [done|]. simpl. rewrite upd_eq. simpl. split; [done|].
    split; [by rewrite Hd4|]. rewrite Hw4. simpl. by rewrite Hw2.
Qed.


End Semantics.
End Pool.

Arguments Pool.sys : clear implicits.
Arguments Pool.instr : clear implicits.
Arguments Pool.cinstr : clear implicits.
Arguments Pool.pool : clear implicits.
Arguments Pool.worker : clear implicits.

(** ** MountainRangeThreaded *)

Module MountainRange.
Import Pool.

(** The two pools of the class; each has a barrier of its own
    ([ds_barrier], [step_barrier]), named after it. *)
Inductive pool_id := ds_workers | step_workers.

#[global] Instance pool_id_eq_dec : EqDecision pool_id.
Proof. intros [] []; (by left) || (by right). Defined.

Definition ds_barrier : pool_id := ds_workers.
Definition step_barrier : pool_id := step_workers.

(** What the class takes from elsewhere.  [value_type] and its arithmetic:
    the zero that the literals [0] convert to, [+] (also the atomic [+=]),
    and the division by a [size_t].  The content of the arrays [h] and [g],
    whose common size [h.size()] is fixed at construction, the sections
    being written in place.  From [MountainRangeSharedMem.hpp], which is not
    part of the sources: the partition oracle and the three operations on a
    section of cells, [update_h_section] returning the new content of [h]
    and [update_g_section] the new content of [g].  And the number of
    workers, [const size_t nthreads =
    getenv_as_size_t("SOLVER_NUM_THREADS")]. *)
Record grid_model := GridModel
  { gm_value_type : Type;
    gm_vzero : gm_value_type;
    gm_vadd : gm_value_type -> gm_value_type -> gm_value_type;
    gm_vdiv_size : gm_value_type -> nat -> gm_value_type;
    gm_field : Type;
    gm_cells : nat;
    gm_divided_cell_range : nat -> nat -> nat -> nat * nat;
    gm_ds_section : gm_field -> gm_field -> nat -> nat -> gm_value_type;
    gm_update_h_section :
      nat -> nat -> gm_value_type -> gm_field -> gm_field -> gm_field;
    gm_update_g_section : nat -> nat -> gm_field -> gm_field -> gm_field;
    gm_nthreads : nat }.

(** *** The functions of the file and the calls they make *)

(** The functions defined in [MountainRangeThreaded.hpp]: the members of
    [CoordinatedLoopingThreadpool] and the lambda its constructor starts
    each thread on; [getenv_as_size_t]; the members of
    [MountainRangeThreaded], the two lambdas its constructor builds the
    pools around, and its destructor, which is implicit and of which only
    the calls into this file are listed. *)
Inductive func :=
| pool_constructor | pool_worker | pool_destructor | pool_size | pool_sync
| pool_trigger | pool_trigger_sync
| fn_getenv_as_size_t
| fn_ds_this_thread | fn_step_this_thread
| mrt_constructor | ds_lambda | step_lambda | fn_dsteepness | fn_step
| mrt_destructor.

Definition all_funcs : list func :=
  [pool_constructor; pool_worker; pool_destructor; pool_size; pool_sync;
   pool_trigger; pool_trigger_sync; fn_getenv_as_size_t;
   fn_ds_this_thread; fn_step_this_thread;
   mrt_constructor; ds_lambda; step_lambda; fn_dsteepness; fn_step;
   mrt_destructor].

(** The section operations of the base class. *)
Inductive work := add_section | elevate_section | regrade_section.

(** What a function body is made of, as far as calls go; assignments and
    tests are left out, and every call of a body is listed, whatever the
    branch or loop it stands in. *)
Inductive stmt :=
| Call (f : func)        (* a call of a function of the file *)
| New_pool (f : func)    (* a pool is constructed around [f] *)
| New_thread (f : func)  (* [workers.emplace_back(f)]: a thread runs [f] *)
| Call_bound             (* [F(arg)], [F] being what the pool was given *)
| Partition              (* [divided_cell_range(h.size(), tid, nthreads)] *)
| Work (w : work)        (* a section operation on the cells found *)
| Wait (b : pool_id)     (* [arrive_and_wait()] on a barrier *)
| Library (name : string). (* a call of something defined elsewhere *)

Definition body (f : func) : list stmt :=
  match f with
  | pool_constructor =>
      [Library "counting_semaphore"; Library "counting_semaphore";
       New_thread pool_worker]
  | pool_worker =>
      [Library "acquire"; Library "stop_requested"; Call_bound;
       Library "release"]
  | pool_destructor => [Library "request_stop"; Call pool_trigger]
  | pool_size => [Library "size"]
  | pool_sync => [Library "acquire"]
  | pool_trigger => [Library "size"; Library "release"]
  | pool_trigger_sync => [Call pool_trigger; Call pool_sync]
  | fn_getenv_as_size_t =>
      [Library "getenv"; Library "strlen"; Library "from_chars";
       Library "strlen"]
  | fn_ds_this_thread => [Partition; Work add_section; Wait ds_barrier]
  | fn_step_this_thread =>
      [Partition; Work elevate_section; Wait step_barrier;
       Work regrade_section]
  | mrt_constructor =>
      [Library "MountainRangeSharedMem"; Call fn_getenv_as_size_t;
       Library "iota"; New_pool ds_lambda;
       Library "iota"; New_pool step_lambda;
       Library "barrier"; Library "barrier"; Call fn_step]
  | ds_lambda =>
      [Partition; Wait ds_barrier; Work add_section; Wait ds_barrier]
  | step_lambda =>
      [Partition; Wait step_barrier; Work elevate_section;
       Wait step_barrier; Work regrade_section; Wait step_barrier]
  | fn_dsteepness => [Call pool_trigger_sync; Library "size"]
  | fn_step => [Call pool_trigger_sync]
  | mrt_destructor => [Call pool_destructor; Call pool_destructor]
  end%string.

(** The functions that pools are constructed around, anywhere in the
    file. *)
Definition bound : list func :=
  flat_map
    (fun f => flat_map (fun st => match st with
                                  | New_pool g => [g]
                                  | _ => []
                                  end) (body f))
    all_funcs.

(** The functions a statement calls.  Constructing a pool calls the pool's
    constructor; the call [F(arg)] of a worker goes to one of the functions
    that pools are constructed around. *)
Definition targets (st : stmt) : list func :=
  match st with
  | Call g | New_thread g => [g]
  | New_pool _ => [pool_constructor]
  | Call_bound => bound
  | Partition | Work _ | Wait _ | Library _ => []
  end.

Definition callees (f : func) : list func := flat_map targets (body f).

(** [f] has a call of [g]. *)
Definition calls (f g : func) : Prop := In g (callees f).

(** The statements of a body other than its rendezvous. *)
Definition without_waits (b : list stmt) : list stmt :=
  List.filter (fun st => match st with Wait _ => false | _ => true end) b.

(** Folding steps that commute pairwise gives the same result in any
    order. *)
Lemma fold_left_comm_perm {A B : Type} (f : A -> B -> A) (l l' : list B) :
  (forall a x y, x ∈ l -> y ∈ l -> f (f a x) y = f (f a y) x) ->
  l ≡ₚ l' -> forall a, fold_left f l a = fold_left f l' a.
Proof.
  intros Hcomm Hperm. induction Hperm as [|x l l' _ IH|x y l|l l' l'' H1 IH1 H2 IH2];
    intros a; simpl.
  - done.
  - apply IH. intros b u v Hu Hv. apply Hcomm; by right.
  - f_equal. apply Hcomm; [left|right; left].
  - rewrite IH1 by done. apply IH2. intros b u v Hu Hv.
    apply Hcomm; by rewrite H1.
Qed.

Section Stepper.
Variable M : grid_model.

Local Abbreviation value_type := (gm_value_type M).
Local Abbreviation vzero := (gm_vzero M).
Local Abbreviation vadd := (gm_vadd M).
Local Abbreviation vdiv_size := (gm_vdiv_size M).
Local Abbreviation field := (gm_field M).
Local Abbreviation cells := (gm_cells M).
Local Abbreviation divided_cell_range := (gm_divided_cell_range M).
Local Abbreviation ds_section := (gm_ds_section M).
Local Abbreviation update_h_section := (gm_update_h_section M).
Local Abbreviation update_g_section := (gm_update_g_section M).
Local Abbreviation nthreads := (gm_nthreads M).

(** The members that are not pools or barriers, with the grid state
    inherited from the base class. *)
Record mrt := Mrt
  { h : field; g : field; t : value_type;
    ds_aggregator : value_type; iter_time_step : value_type }.

Definition set_h (x : field) (d : mrt) : mrt :=
  Mrt x (g d) (t d) (ds_aggregator d) (iter_time_step d).
Definition set_g (x : field) (d : mrt) : mrt :=
  Mrt (h d) x (t d) (ds_aggregator d) (iter_time_step d).
Definition set_t (x : value_type) (d : mrt) : mrt :=
  Mrt (h d) (g d) x (ds_aggregator d) (iter_time_step d).
Definition set_ds_aggregator (x : value_type) (d : mrt) : mrt :=
  Mrt (h d) (g d) (t d) x (iter_time_step d).
Definition set_iter_time_step (x : value_type) (d : mrt) : mrt :=
  Mrt (h d) (g d) (t d) (ds_aggregator d) x.

(** [ds_aggregator += ds_section(first, last)] *)
Definition add_ds_section (tid : nat) (d : mrt) : mrt :=
  let '(first, last) := divided_cell_range cells tid nthreads in
  set_ds_aggregator
    (vadd (ds_aggregator d) (ds_section (h d) (g d) first last)) d.

(** [update_h_section(first, last, iter_time_step)] *)
Definition update_h (tid : nat) (d : mrt) : mrt :=
  let '(first, last) := divided_cell_range cells tid nthreads in
  set_h (update_h_section first last (iter_time_step d) (h d) (g d)) d.

(** [update_g_section(first, last)] *)
Definition update_g (tid : nat) (d : mrt) : mrt :=
  let '(first, last) := divided_cell_range cells tid nthreads in
  set_g (update_g_section first last (h d) (g d)) d.

(** The closure installed in [ds_workers] by the constructor. *)
Definition ds_closure : list (instr pool_id mrt) :=
  [Arrive ds_barrier; Do add_ds_section; Arrive ds_barrier].

(** The closure installed in [step_workers] by the constructor. *)
Definition step_closure : list (instr pool_id mrt) :=
  [Arrive step_barrier; Do update_h; Arrive step_barrier; Do update_g;
   Arrive step_barrier].

(** The private members [ds_this_thread] and [step_this_thread]. *)
Definition ds_this_thread : list (instr pool_id mrt) :=
  [Do add_ds_section; Arrive ds_barrier].

Definition step_this_thread : list (instr pool_id mrt) :=
  [Do update_h; Arrive step_barrier; Do update_g].

Definition closure (p : pool_id) : list (instr pool_id mrt) :=
  match p with
  | ds_workers => ds_closure
  | step_workers => step_closure
  end.

(** [dsteepness()] *)
Definition dsteepness : list (cinstr pool_id mrt value_type) :=
  CData (set_ds_aggregator vzero)
  :: trigger_sync ds_workers
  ++ [CRet (fun d => vdiv_size (ds_aggregator d) cells)].

(** [step(time_step)] *)
Definition step_call (time_step : value_type)
  : list (cinstr pool_id mrt value_type) :=
  CData (set_iter_time_step time_step)
  :: trigger_sync step_workers
  ++ [CData (fun d => set_t (vadd (t d) time_step) d); CRet t].

(** The object once its members are initialised, before the constructor's
    body runs: the base class has set up [h0], [g0] and [t0]; the two
    scalar members hold whatever they hold. *)
Definition members (h0 g0 : field) (t0 agg0 dt0 : value_type)
  : sys pool_id mrt value_type :=
  Sys (fun _ => new_pool (seq 0 nthreads))
      (fun _ => Barrier nthreads nthreads 0)
      (Mrt h0 g0 t0 agg0 dt0) [] None.

(** The constructor's body: [step(0)]. *)
Definition constructor_body : list (cinstr pool_id mrt value_type) :=
  step_call vzero.

Local Abbreviation state := (sys pool_id mrt value_type).

Lemma closure_own_barrier p :
  Forall (fun i => forall b, i = Arrive b -> b = p) (closure p).
Proof.
  destruct p; repeat apply Forall_cons_2; try apply Forall_nil_2;
    intros b Hb; by simplify_eq.
Qed.

Lemma closure_arrives p : 1 <= arrivals (closure p).
Proof. destruct p; simpl; lia. Qed.

(** The object between two calls: no iteration is outstanding on either
    pool, and both pools have [nthreads] workers. *)
Definition ready (s : state) : Prop :=
  forall p, quiescent p s /\ size (pools s p) = nthreads.

(** [ds_section] over the cells of thread [tid], on the grid of [d0]. *)
Definition contribution (d0 : mrt) (tid : nat) : value_type :=
  let '(first, last) := divided_cell_range cells tid nthreads in
  ds_section (h d0) (g d0) first last.

(** The accumulator after the threads of [l] have added their
    contribution, in this order. *)
Definition accumulate (d0 : mrt) (l : list nat) : value_type :=
  fold_left (fun a i => vadd a (contribution d0 i)) l (ds_aggregator d0).

(** During a reduction started on the data [d0] after [r0] completed syncs:
    the grid is untouched and the accumulator holds the contributions of
    the workers that are past their addition. *)
Definition ds_progress (r0 : nat) (d0 : mrt)
    (ws : list (worker pool_id mrt)) (d : mrt) : Prop :=
  h d = h d0 /\ g d = g d0 /\ t d = t d0 /\
  iter_time_step d = iter_time_step d0 /\
  exists l, lists (fun w => todo r0 ds_closure w <= 1) ws l /\
            ds_aggregator d = accumulate d0 l.

Lemma accumulate_snoc d0 l i :
  accumulate d0 (l ++ [i]) = vadd (accumulate d0 l) (contribution d0 i).
Proof. unfold accumulate. by rewrite fold_left_app. Qed.

Lemma add_ds_section_spec d0 tid d :
  h d = h d0 -> g d = g d0 ->
  add_ds_section tid d
  = set_ds_aggregator (vadd (ds_aggregator d) (contribution d0 tid)) d.
Proof.
  intros Hh Hg. unfold add_ds_section, contribution.
  destruct (divided_cell_range cells tid nthreads). by rewrite Hh, Hg.
Qed.

Ltac suffixes H :=
  unfold closure, ds_closure, step_closure in H;
  match type of H with
  | _ = ?pre ++ _ => destruct pre as [|? [|? [|? [|? [|? [|? pre]]]]]]
  end; simplify_eq/=.

Lemma ds_progress_step (sB : state) k fin (s : state) i (s' : state) d0 :
  cycle_inv closure ds_workers sB k fin s ->
  ds_progress (syncs (pools sB ds_workers)) d0
              (workers (pools s ds_workers)) (dat s) ->
  worker_step closure ds_workers i s = Some s' ->
  ds_progress (syncs (pools sB ds_workers)) d0
              (workers (pools s' ds_workers)) (dat s').
Proof.
  intros Hinv (Hh & Hg & Ht & Hdt & l & Hl & Hacc) Hstep.
  destruct (cycle_worker_view closure ds_workers sB k fin s i s'
              (closure_own_barrier _) (closure_arrives _) Hinv Hstep)
    as (w & w' & Hi & Hws & Hmv & Harg & [Hst Hwk] & [_ Hwk'] & Hd).
  rewrite Hws. unfold own_move in Hmv.
  set (r0 := syncs (pools sB ds_workers)) in *.
  assert (Hsame : (todo r0 ds_closure w <= 1 <-> todo r0 ds_closure w' <= 1) ->
            dat s' = dat s ->
            ds_progress r0 d0 (<[i := w']> (workers (pools s ds_workers)))
                        (dat s')).
  { intros HQ ->. repeat split; try done. exists l. split; [|done].
    by eapply lists_insert_same. }
  destruct (pc w) as [| |r|b q r|] eqn:Hpc.
  - subst w'. destruct Hwk' as [Hr _]. simpl in Hr.
    apply Hsame; [|done]. unfold todo. simpl.
    by rewrite Hpc, Hr, Nat.eqb_refl.
  - rewrite Hst in Hmv. subst w'. apply Hsame; [|done].
    unfold todo. simpl. by rewrite Hpc.
  - destruct Hwk as (Hr & pre & Hcl & Hph). suffixes Hcl;
      try (apply Hsame; [unfold todo; simpl; rewrite Hpc; simpl; lia|done]).
    + rewrite Hd, (add_ds_section_spec d0) by done.
      repeat split; try done. exists (l ++ [arg w]). split.
      * eapply lists_insert_new; [done| | |done]; unfold todo; simpl;
          rewrite ?Hpc; simpl; lia.
      * simpl. by rewrite accumulate_snoc, Hacc.
    + apply Hsame; [|done]. unfold todo, finish. cbn [pc released].
      rewrite Hpc. cbn [length].
      destruct (Nat.eqb_spec (S (released w)) (syncs (pools sB ds_workers)));
        [lia|done].
  - destruct Hwk as (-> & Hr & pre & Hcl & Hq & Hph). subst w'.
    apply Hsame; [|done]. unfold todo. simpl. by rewrite Hpc.
  - done.
Qed.

Lemma ready_idle (s : state) q : ready s -> idle q s.
Proof. intros H. apply quiescent_idle, H. Qed.

Lemma quiescent_todo (s : state) p r0 c j x :
  quiescent p s -> syncs (pools s p) = S r0 ->
  workers (pools s p) !! j = Some x -> todo r0 c x = 0.
Proof.
  intros Hq Hs Hj.
  destruct (proj1 (Forall_lookup _ _) (q_workers _ _ Hq) j x Hj)
    as (Hpc & Hr & _).
  unfold todo. rewrite Hpc, Hr, Hs.
  by destruct (Nat.eqb_spec (S r0) r0); [lia|].
Qed.

Lemma quiescent_todo_all (s : state) p c j x :
  quiescent p s -> workers (pools s p) !! j = Some x ->
  todo (syncs (pools s p)) c x = length c.
Proof.
  intros Hq Hj.
  destruct (proj1 (Forall_lookup _ _) (q_workers _ _ Hq) j x Hj)
    as (Hpc & Hr & _).
  unfold todo. by rewrite Hpc, Hr, Nat.eqb_refl.
Qed.

(** After a cycle on pool [p] started from a ready object, the object is
    ready again. *)
Lemma cycle_post_ready p pre post (s0 sB s' : state) :
  ready s0 -> trigger_state p pre post s0 sB ->
  cycle_post closure p sB s' -> ready s'.
Proof.
  intros Hr (Hp & Hb & _) [Hq Hsz _ _ _ Hfr] q.
  destruct (decide (q = p)) as [->|Hne].
  - split; [done|]. rewrite Hsz, Hp. apply Hr.
  - destruct (Hfr q Hne) as [Hp' Hb']. destruct (Hr q) as [[] ?].
    split; [split|]; rewrite ?Hp', ?Hb', ?Hp, ?Hb; done.
Qed.

(** [dsteepness()] on a ready object: it always returns, with the object
    ready again; every worker of [ds_workers] has added its contribution to
    an accumulator reset to zero, exactly once, in some order [l]; the
    returned value is that sum divided by the number of cells; nothing else
    of the data has changed, and [step_workers] and its barrier have not
    been touched. *)
Lemma dsteepness_runs (s0 : state) :
  ready s0 -> cpc s0 = dsteepness ->
  returns_always closure s0 /\
  (exists s', steps closure s0 s' /\ cpc s' = []) /\
  (forall s', steps closure s0 s' -> cpc s' = [] ->
     ready s' /\
     (exists l, l ≡ₚ seq 0 nthreads /\
        let d0 := set_ds_aggregator vzero (dat s0) in
        dat s' = set_ds_aggregator (accumulate d0 l) (dat s0) /\
        cret s' = Some (vdiv_size (accumulate d0 l) cells)) /\
     triggers (pools s' ds_workers) = S (triggers (pools s0 ds_workers)) /\
     syncs (pools s' ds_workers) = S (syncs (pools s0 ds_workers)) /\
     pools s' step_workers = pools s0 step_workers /\
     bars s' step_workers = bars s0 step_workers).
Proof.
  intros Hr Hpc.
  set (d0 := set_ds_aggregator vzero (dat s0)).
  set (r0 := syncs (pools s0 ds_workers)).
  destruct (call_spec closure ds_workers
              [CData (set_ds_aggregator vzero)]
              [CRet (fun d => vdiv_size (ds_aggregator d) cells)]
              (ds_progress r0 d0) s0) as (Hret & Hex & Hfin).
  - apply closure_own_barrier.
  - apply closure_arrives.
  - by repeat constructor.
  - by repeat constructor.
  - apply Hr.
  - intros q. by apply ready_idle.
  - done.
  - simpl. fold d0. repeat split; try done. exists []. split; [|done].
    apply lists_nil. intros j x Hj.
    rewrite (quiescent_todo_all s0 ds_workers _ j x) by (done || apply Hr).
    simpl. lia.
  - intros sB fin s i s' Hp Hb Hd Hinv HJ Hstep.
    unfold r0 in *. rewrite <- Hp in HJ |- *.
    by eapply (ds_progress_step sB _ fin s i s' d0 Hinv).
  - split; [done|]. split; [done|].
    intros s' Hs Hc. destruct (Hfin s' Hs Hc)
      as (sB & dC & HtB & Hpost & HJ & Hrun).
    pose proof HtB as (Hp & Hb & HdB & _).
    split; [by eapply cycle_post_ready|].
    destruct HJ as (Hh & Hg & Ht & Hdt & l & Hl & Hacc).
    simpl in Hrun. injection Hrun as Hdat Hcret.
    destruct Hpost as [Hq Hsz Hsy Htr _ Hfr].
    rewrite Hp in Hsy, Htr, Hsz.
    split; [|split; [done|split; [done|]]].
    + exists l. split.
      * replace nthreads with (length (workers (pools s' ds_workers))).
        2:{ destruct (Hr ds_workers) as [_ <-]. exact Hsz. }
        eapply lists_all; [|exact Hl]. intros j x Hj. simpl.
        rewrite (quiescent_todo s' ds_workers r0 _ j x) by done. lia.
      * simpl. fold d0. rewrite Hcret, Hdat, Hacc. split; [|done].
        destruct dC. simpl in *. unfold set_ds_aggregator. simpl.
        by rewrite Hh, Hg, Ht, Hdt, Hacc.
    + destruct (Hfr step_workers) as [-> ->]; [done|]. by rewrite Hp, Hb.
Qed.

Lemma ready_set_cpc (s : state) k : ready s -> ready (set_cpc k s).
Proof. intros H p. destruct (H p) as [[] ?]. by split; [split|]. Qed.

(** The sequential reduction of the metric over the whole domain, divided
    by the number of cells. *)
Definition sequential_mean (d : mrt) : value_type :=
  vdiv_size (ds_section (h d) (g d) 0 cells) cells.

Lemma accumulate_reset d l :
  accumulate (set_ds_aggregator vzero d) l
  = fold_left (fun a i => vadd a (contribution d i)) l vzero.
Proof. done. Qed.

(** C2: [dsteepness()] on a ready object always returns.  The accumulator
    it reads at the end is zero plus the contribution of every worker of
    [ds_workers], each added exactly once, in the order [l] in which the
    workers got to it; the returned value is that accumulator divided by the
    number of cells; [ds_workers] has gone through exactly one more trigger
    and one more completed sync.  With a single worker whose range is the
    whole domain, and a zero that is neutral on the left, the returned
    value is the sequential mean of the grid the call started from. *)
Theorem dsteepness_mean (s0 : state) :
  ready s0 -> cpc s0 = dsteepness ->
  returns_always closure s0 /\
  (exists s', steps closure s0 s' /\ cpc s' = []) /\
  (forall s', steps closure s0 s' -> cpc s' = [] ->
     (exists l, l ≡ₚ seq 0 nthreads /\
        ds_aggregator (dat s')
        = fold_left (fun a i => vadd a (contribution (dat s0) i)) l vzero /\
        cret s' = Some (vdiv_size (ds_aggregator (dat s')) cells)) /\
     triggers (pools s' ds_workers) = S (triggers (pools s0 ds_workers)) /\
     syncs (pools s' ds_workers) = S (syncs (pools s0 ds_workers)) /\
     (nthreads = 1 -> divided_cell_range cells 0 1 = (0, cells) ->
      (forall x, vadd vzero x = x) ->
      cret s' = Some (sequential_mean (dat s0)))).
Proof.
  intros Hr Hpc. destruct (dsteepness_runs s0 Hr Hpc) as (Hret & Hex & Hfin).
  split; [done|]. split; [done|]. intros s' Hs Hc.
  destruct (Hfin s' Hs Hc)
    as (_ & (l & Hl & Hd & Hcr) & Htr & Hsy & _).
  rewrite accumulate_reset in Hd, Hcr.
  split; [|split; [done|split; [done|]]].
  - exists l. split; [done|]. rewrite Hd. simpl. done.
  - intros Hn Hrange Hzero. rewrite Hcr. rewrite Hn in Hl. simpl in Hl.
    apply Permutation_singleton_r in Hl as ->. simpl.
    rewrite Hzero. unfold sequential_mean, contribution.
    by rewrite Hn, Hrange.
Qed.

(** C10: [dsteepness()] changes nothing of the grid: when it has returned,
    [h], [g], the clock [t] and the published time step are what they were,
    [step_workers] and [step_barrier] have not been touched, and the object
    is ready for the next call, which therefore sees the same fields and
    leaves them the same. *)
Theorem dsteepness_frame (s0 : state) :
  ready s0 -> cpc s0 = dsteepness ->
  forall s', steps closure s0 s' -> cpc s' = [] ->
    (h (dat s') = h (dat s0) /\ g (dat s') = g (dat s0) /\
     t (dat s') = t (dat s0) /\
     iter_time_step (dat s') = iter_time_step (dat s0)) /\
    pools s' step_workers = pools s0 step_workers /\
    bars s' step_workers = bars s0 step_workers /\
    ready s' /\
    forall s'', steps closure (set_cpc dsteepness s') s'' -> cpc s'' = [] ->
      h (dat s'') = h (dat s0) /\ g (dat s'') = g (dat s0) /\
      t (dat s'') = t (dat s0).
Proof.
  intros Hr Hpc s' Hs Hc.
  destruct (dsteepness_runs s0 Hr Hpc) as (_ & _ & Hfin).
  destruct (Hfin s' Hs Hc) as (Hr' & (l & _ & Hd & _) & _ & _ & Hp & Hb).
  rewrite Hd. do 4 (split; [done|]).
  intros s'' Hs' Hc'.
  destruct (dsteepness_runs (set_cpc dsteepness s')
              (ready_set_cpc _ _ Hr') eq_refl)
    as (_ & _ & Hfin').
  destruct (Hfin' s'' Hs' Hc') as (_ & (l' & _ & Hd' & _) & _).
  rewrite Hd'. simpl. by rewrite Hd.
Qed.

(** The elevation after the threads of [l] have updated their section, in
    this order, with the time step and the gradient of [d0]. *)
Definition elevate (d0 : mrt) (l : list nat) : field :=
  fold_left
    (fun x i =>
       let '(first, last) := divided_cell_range cells i nthreads in
       update_h_section first last (iter_time_step d0) x (g d0))
    l (h d0).

(** The gradient after the threads of [l] have updated their section, in
    this order, from the elevation [hh]. *)
Definition regrade (hh : field) (d0 : mrt) (l : list nat) : field :=
  fold_left
    (fun x i =>
       let '(first, last) := divided_cell_range cells i nthreads in
       update_g_section first last hh x)
    l (g d0).

(** During an update started on the data [d0] after [r0] completed syncs:
    [l1] lists the workers past their elevation update, [l2] those past
    their gradient update. *)
Definition step_progress (r0 : nat) (d0 : mrt)
    (ws : list (worker pool_id mrt)) (d : mrt) : Prop :=
  t d = t d0 /\ ds_aggregator d = ds_aggregator d0 /\
  iter_time_step d = iter_time_step d0 /\
  exists l1 l2,
    lists (fun w => todo r0 step_closure w <= 3) ws l1 /\
    lists (fun w => todo r0 step_closure w <= 1) ws l2 /\
    h d = elevate d0 l1 /\ g d = regrade (h d) d0 l2.

Lemma elevate_snoc d0 l i :
  elevate d0 (l ++ [i])
  = let '(first, last) := divided_cell_range cells i nthreads in
    update_h_section first last (iter_time_step d0) (elevate d0 l) (g d0).
Proof. unfold elevate. by rewrite fold_left_app. Qed.

Lemma regrade_snoc hh d0 l i :
  regrade hh d0 (l ++ [i])
  = let '(first, last) := divided_cell_range cells i nthreads in
    update_g_section first last hh (regrade hh d0 l).
Proof. unfold regrade. by rewrite fold_left_app. Qed.

(** While a worker is about to update its elevation section, no worker has
    got past the second rendezvous: the gradient is still the old one. *)
Lemma none_past_gradient (sB : state) k fin (s : state) i w r :
  cycle_inv closure step_workers sB k fin s ->
  workers (pools s step_workers) !! i = Some w ->
  pc w = Running r -> length r = 4 ->
  forall j x, workers (pools s step_workers) !! j = Some x ->
    ~ todo (syncs (pools sB step_workers)) step_closure x <= 1.
Proof.
  intros Hinv Hi Hpc Hlen j x Hj.
  pose proof (ci_wok _ _ _ _ _ _ Hinv) as Hw.
  destruct (proj1 (Forall_lookup _ _) Hw i w Hi) as [_ Hwk].
  destruct (proj1 (Forall_lookup _ _) Hw j x Hj) as [_ Hwx].
  rewrite Hpc in Hwk. destruct Hwk as (_ & pre & Hcl & Hph).
  suffixes Hcl; try done. unfold todo.
  destruct (pc x) as [| |rx|b q rx|] eqn:Hpcx; simpl.
  - destruct Hwx as [[-> _]|[_ Hx]]; [rewrite Nat.eqb_refl; lia|].
    simpl in Hx. lia.
  - lia.
  - destruct Hwx as (_ & pre & Hcl & Hx). suffixes Hcl; lia.
  - destruct Hwx as (_ & _ & pre & Hcl & Hq & Hx). suffixes Hcl; lia.
  - done.
Qed.

Lemma step_progress_step (sB : state) k fin (s : state) i (s' : state) d0 :
  cycle_inv closure step_workers sB k fin s ->
  step_progress (syncs (pools sB step_workers)) d0
                (workers (pools s step_workers)) (dat s) ->
  worker_step closure step_workers i s = Some s' ->
  step_progress (syncs (pools sB step_workers)) d0
                (workers (pools s' step_workers)) (dat s').
Proof.
  intros Hinv (Ht & Hagg & Hdt & l1 & l2 & Hl1 & Hl2 & Hh & Hg) Hstep.
  destruct (cycle_worker_view closure step_workers sB k fin s i s'
              (closure_own_barrier _) (closure_arrives _) Hinv Hstep)
    as (w & w' & Hi & Hws & Hmv & Harg & [Hst Hwk] & [_ Hwk'] & Hd).
  rewrite Hws. unfold own_move in Hmv.
  set (r0 := syncs (pools sB step_workers)) in *.
  assert (Hsame :
            (todo r0 step_closure w <= 3 <-> todo r0 step_closure w' <= 3) ->
            (todo r0 step_closure w <= 1 <-> todo r0 step_closure w' <= 1) ->
            dat s' = dat s ->
            step_progress r0 d0
              (<[i := w']> (workers (pools s step_workers))) (dat s')).
  { intros HQ1 HQ2 ->. repeat split; try done. exists l1, l2.
    split; [by eapply lists_insert_same|].
    split; [by eapply lists_insert_same|done]. }
  destruct (pc w) as [| |r|b q r|] eqn:Hpc.
  - subst w'. destruct Hwk' as [Hr _]. simpl in Hr.
    apply Hsame; [| |done]; unfold todo; simpl;
      by rewrite Hpc, Hr, Nat.eqb_refl.
  - rewrite Hst in Hmv. subst w'.
    apply Hsame; [| |done]; unfold todo; simpl; by rewrite Hpc.
  - pose proof (none_past_gradient sB k fin s i w r Hinv Hi Hpc) as Hnone.
    destruct Hwk as (Hr & pre & Hcl & Hph). suffixes Hcl;
      try (apply Hsame; [| |done]; unfold todo; simpl; rewrite Hpc; simpl;
           lia).
    + (* the elevation update *)
      assert (l2 = []) as ->.
      { eapply lists_nil_inv; [|exact Hl2]. by apply Hnone. }
      rewrite Hd. unfold update_h.
      destruct (divided_cell_range cells (arg w) nthreads)
        as [first last] eqn:Hrange.
      repeat split; try done. exists (l1 ++ [arg w]), []. simpl.
      split; [|split; [|split]].
      * eapply lists_insert_new; [done| | |done]; unfold todo; simpl;
          rewrite ?Hpc; simpl; lia.
      * eapply lists_insert_same; [done| |done]. unfold todo; simpl.
        rewrite ?Hpc; simpl. lia.
      * rewrite elevate_snoc, Hrange, Hh, Hdt. by rewrite Hg.
      * done.
    + (* the gradient update *)
      rewrite Hd. unfold update_g.
      destruct (divided_cell_range cells (arg w) nthreads)
        as [first last] eqn:Hrange.
      repeat split; try done. exists l1, (l2 ++ [arg w]). simpl.
      split; [|split; [|split]].
      * eapply lists_insert_same; [done| |done]. unfold todo; simpl.
        rewrite ?Hpc; simpl. lia.
      * eapply lists_insert_new; [done| | |done]; unfold todo; simpl;
          rewrite ?Hpc; simpl; lia.
      * done.
      * by rewrite regrade_snoc, Hrange, Hg.
    + apply Hsame; [| |done]; unfold todo, finish; cbn [pc released];
        rewrite Hpc; cbn [length];
        destruct (Nat.eqb_spec (S (released w))
                    (syncs (pools sB step_workers))); lia.
  - destruct Hwk as (-> & Hr & pre & Hcl & Hq & Hph). subst w'.
    apply Hsame; [| |done]; unfold todo; simpl; by rewrite Hpc.
  - done.
Qed.

(** [step(time_step)] on a ready object: it always returns, with the object
    ready again; every worker of [step_workers] has updated its section of
    [h] exactly once, with the published time step and the old gradient, in
    some order [l1]; then every worker has updated its section of [g]
    exactly once from the fully updated [h], in some order [l2]; the clock
    has advanced by [time_step] and its new value is returned;
    [ds_workers], its barrier and the accumulator have not been touched. *)
Lemma step_call_runs (s0 : state) (time_step : value_type) :
  ready s0 -> cpc s0 = step_call time_step ->
  returns_always closure s0 /\
  (exists s', steps closure s0 s' /\ cpc s' = []) /\
  (forall s', steps closure s0 s' -> cpc s' = [] ->
     ready s' /\
     (exists l1 l2, l1 ≡ₚ seq 0 nthreads /\ l2 ≡ₚ seq 0 nthreads /\
        let d0 := set_iter_time_step time_step (dat s0) in
        dat s' = Mrt (elevate d0 l1) (regrade (elevate d0 l1) d0 l2)
                     (vadd (t (dat s0)) time_step)
                     (ds_aggregator (dat s0)) time_step) /\
     cret s' = Some (vadd (t (dat s0)) time_step) /\
     triggers (pools s' step_workers)
     = S (triggers (pools s0 step_workers)) /\
     syncs (pools s' step_workers) = S (syncs (pools s0 step_workers)) /\
     pools s' ds_workers = pools s0 ds_workers /\
     bars s' ds_workers = bars s0 ds_workers).
Proof.
  intros Hr Hpc.
  set (d0 := set_iter_time_step time_step (dat s0)).
  set (r0 := syncs (pools s0 step_workers)).
  destruct (call_spec closure step_workers
              [CData (set_iter_time_step time_step)]
              [CData (fun d => set_t (vadd (t d) time_step) d); CRet t]
              (step_progress r0 d0) s0) as (Hret & Hex & Hfin).
  - apply closure_own_barrier.
  - apply closure_arrives.
  - by repeat constructor.
  - by repeat constructor.
  - apply Hr.
  - intros q. by apply ready_idle.
  - done.
  - simpl. fold d0. repeat split; try done. exists [], [].
    assert (Hnil : forall m, m < 5 ->
              lists (fun w => todo r0 step_closure w <= m)
                    (workers (pools s0 step_workers)) []).
    { intros m Hm. apply lists_nil. intros j x Hj.
      rewrite (quiescent_todo_all s0 step_workers _ j x)
        by (done || apply Hr).
      simpl. lia. }
    split; [apply Hnil; lia|]. split; [apply Hnil; lia|done].
  - intros sB fin s i s' Hp Hb Hd Hinv HJ Hstep.
    unfold r0 in *. rewrite <- Hp in HJ |- *.
    by eapply (step_progress_step sB _ fin s i s' d0 Hinv).
  - split; [done|]. split; [done|].
    intros s' Hs Hc. destruct (Hfin s' Hs Hc)
      as (sB & dC & HtB & Hcp & HJ & Hrun).
    pose proof HtB as (Hp & Hb & HdB & _).
    split; [by eapply cycle_post_ready|].
    destruct HJ as (Ht & Hagg & Hdt & l1 & l2 & Hl1 & Hl2 & Hh & Hg).
    simpl in Hrun. injection Hrun as Hdat Hcret.
    destruct Hcp as [Hq Hsz Hsy Htr _ Hfr].
    rewrite Hp in Hsy, Htr, Hsz.
    assert (Hlen : length (workers (pools s' step_workers)) = nthreads).
    { destruct (Hr step_workers) as [_ <-]. exact Hsz. }
    assert (Hall : forall m l,
              lists (fun w => todo r0 step_closure w <= m)
                    (workers (pools s' step_workers)) l ->
              l ≡ₚ seq 0 nthreads).
    { intros m l Hl. rewrite <- Hlen. eapply lists_all; [|exact Hl].
      intros j x Hj. simpl.
      rewrite (quiescent_todo s' step_workers r0 _ j x) by done. lia. }
    split; [|split; [|split; [done|split; [done|]]]].
    + exists l1, l2. split; [by eapply Hall|]. split; [by eapply Hall|].
      simpl. fold d0. rewrite Hdat. destruct dC. simpl in *.
      unfold set_t. simpl. by rewrite Ht, Hagg, Hdt, Hg, Hh.
    + rewrite Hcret. simpl. by rewrite Ht.
    + destruct (Hfr ds_workers) as [-> ->]; [done|]. by rewrite Hp, Hb.
Qed.

(** A call of a member function on the object: the caller runs the body to
    its end, whatever the scheduler does. *)
Definition call (body : list (cinstr pool_id mrt value_type))
    (s s' : state) : Prop :=
  steps closure (set_cpc body s) s' /\ cpc s' = [].

(** Calls made one after the other by the same caller. *)
Inductive run_calls :
  list (list (cinstr pool_id mrt value_type)) -> state -> state -> Prop :=
| run_calls_nil s : run_calls [] s s
| run_calls_cons body bodies s s1 s2 :
    call body s s1 -> run_calls bodies s1 s2 ->
    run_calls (body :: bodies) s s2.

(** C3: [step(time_step)] on a ready object.  Its first action stores
    [time_step] in [iter_time_step] and leaves the pools alone, so the store
    precedes the trigger; the call always returns; when it has,
    [step_workers] has gone through exactly one more trigger and one more
    completed sync, in which every worker updated the elevation with the
    published [time_step]; the clock is the old clock plus [time_step], and
    that new clock is the value returned. *)
Theorem step_call_spec (s0 : state) (time_step : value_type) :
  ready s0 -> cpc s0 = step_call time_step ->
  (exists s1, caller_step s0 = Some s1 /\
     iter_time_step (dat s1) = time_step /\ pools s1 = pools s0 /\
     cpc s1 = trigger_sync step_workers
              ++ [CData (fun d => set_t (vadd (t d) time_step) d); CRet t]) /\
  returns_always closure s0 /\
  (exists s', steps closure s0 s' /\ cpc s' = []) /\
  (forall s', steps closure s0 s' -> cpc s' = [] ->
     iter_time_step (dat s') = time_step /\
     (exists l1, l1 ≡ₚ seq 0 nthreads /\
        h (dat s') = elevate (set_iter_time_step time_step (dat s0)) l1) /\
     triggers (pools s' step_workers)
     = S (triggers (pools s0 step_workers)) /\
     syncs (pools s' step_workers) = S (syncs (pools s0 step_workers)) /\
     t (dat s') = vadd (t (dat s0)) time_step /\
     cret s' = Some (t (dat s'))).
Proof.
  intros Hr Hpc.
  destruct (step_call_runs s0 time_step Hr Hpc) as (Hret & Hex & Hfin).
  split; [|split; [done|split; [done|]]].
  - eexists. unfold caller_step. rewrite Hpc. simpl. by repeat split.
  - intros s' Hs Hc.
    destruct (Hfin s' Hs Hc)
      as (_ & (l1 & l2 & Hl1 & _ & Hd) & Hcr & Htr & Hsy & _).
    simpl in Hd. rewrite Hd. simpl. repeat split; try done.
    by exists l1.
Qed.

Lemma step_calls_clock dts : forall (s0 s' : state),
  ready s0 -> run_calls (map step_call dts) s0 s' ->
  ready s' /\ t (dat s') = fold_left vadd dts (t (dat s0)).
Proof.
  induction dts as [|dt dts IH]; intros s0 s' Hr Hrun; inversion Hrun;
    subst; [done|].
  match goal with H : call _ _ _ |- _ => destruct H as [Hs Hc] end.
  destruct (step_call_runs (set_cpc (step_call dt) s0) dt
              (ready_set_cpc _ _ Hr) eq_refl) as (_ & _ & Hfin).
  destruct (Hfin _ Hs Hc) as (Hr1 & (l1 & l2 & _ & _ & Hd) & _).
  match goal with H : run_calls _ _ _ |- _ =>
    destruct (IH _ _ Hr1 H) as [Hr' Ht] end.
  split; [done|]. rewrite Ht, Hd. done.
Qed.

Lemma step_calls_exist dts : forall (s0 : state),
  ready s0 -> exists s', run_calls (map step_call dts) s0 s'.
Proof.
  induction dts as [|dt dts IH]; intros s0 Hr.
  { exists s0. constructor. }
  destruct (step_call_runs (set_cpc (step_call dt) s0) dt
              (ready_set_cpc _ _ Hr) eq_refl)
    as (_ & (s1 & Hs & Hc) & Hfin).
  destruct (Hfin _ Hs Hc) as (Hr1 & _).
  destruct (IH s1 Hr1) as [s' Hrun].
  exists s'. econstructor; [|done]. by split.
Qed.

(** C6 (as amended): for every number of workers, every ready object and
    every list of
    time steps, calling [step] with each of them in turn can always be
    carried through, and every way of doing so leaves the clock equal to
    the old clock to which the time steps have been added one after the
    other; when addition is associative with a neutral zero, that is the
    old clock plus the sum of the time steps. *)
Theorem step_calls_advance_clock (dts : list value_type) (s0 : state) :
  ready s0 ->
  (exists s', run_calls (map step_call dts) s0 s') /\
  (forall s', run_calls (map step_call dts) s0 s' ->
     t (dat s') = fold_left vadd dts (t (dat s0)) /\
     ((forall x y z, vadd (vadd x y) z = vadd x (vadd y z)) ->
      (forall x, vadd x vzero = x) ->
      t (dat s') = vadd (t (dat s0)) (fold_left vadd dts vzero))).
Proof.
  intros Hr. split; [by apply step_calls_exist|].
  intros s' Hrun. destruct (step_calls_clock dts s0 s' Hr Hrun) as [_ Ht].
  split; [done|]. intros Hassoc Hzero. rewrite Ht.
  clear Ht Hrun. generalize (t (dat s0)) as x.
  induction dts as [|dt dts IH] using rev_ind; intros x.
  - simpl. by rewrite Hzero.
  - rewrite !fold_left_app. simpl. by rewrite IH, Hassoc.
Qed.

Lemma members_ready h0 g0 t0 agg0 dt0 : ready (members h0 g0 t0 agg0 dt0).
Proof.
  intros p. unfold members, size. simpl.
  rewrite length_map, length_seq. split; [|done].
  split; simpl; unfold size; simpl; rewrite ?length_map, ?length_seq;
    try done.
  - apply Forall_lookup. intros i w Hi.
    apply list_lookup_fmap_Some in Hi as (a & -> & _). by repeat split.
  - intros i w Hi. apply list_lookup_fmap_Some in Hi as (a & -> & Ha).
    simpl. by apply lookup_seq in Ha as [-> _].
Qed.

(** C4: construction.  The members being initialised, the body [step(0)]
    always returns and leaves the object ready.  Every worker has then
    updated its section of the elevation with a zero time step and, after
    all of them had done so, its section of the gradient.  So, when a zero
    time step leaves the elevation as it is, when the sections of the
    workers, updated in any order, make up the update of the whole domain,
    and when adding zero leaves the clock as it is: after construction the
    elevation is the initial one, the gradient is what [update_g_section]
    over the whole domain makes of the initial elevation, and the clock is
    what it was. *)
Theorem constructor_populates_gradient h0 g0 t0 agg0 dt0 :
  let s0 := set_cpc constructor_body (members h0 g0 t0 agg0 dt0) in
  let d0 := Mrt h0 g0 t0 agg0 vzero in
  returns_always closure s0 /\
  (exists s', steps closure s0 s' /\ cpc s' = []) /\
  (forall s', steps closure s0 s' -> cpc s' = [] ->
     ready s' /\
     (exists l1 l2, l1 ≡ₚ seq 0 nthreads /\ l2 ≡ₚ seq 0 nthreads /\
        h (dat s') = elevate d0 l1 /\
        g (dat s') = regrade (h (dat s')) d0 l2 /\
        t (dat s') = vadd t0 vzero) /\
     ((forall l, l ≡ₚ seq 0 nthreads -> elevate d0 l = h0) ->
      (forall l, l ≡ₚ seq 0 nthreads ->
                 regrade h0 d0 l = update_g_section 0 cells h0 g0) ->
      vadd t0 vzero = t0 ->
      h (dat s') = h0 /\
      g (dat s') = update_g_section 0 cells h0 g0 /\
      t (dat s') = t0)).
Proof.
  intros s0 d0.
  destruct (step_call_runs s0 vzero
              (ready_set_cpc _ _ (members_ready h0 g0 t0 agg0 dt0)) eq_refl)
    as (Hret & Hex & Hfin).
  split; [done|]. split; [done|]. intros s' Hs Hc.
  destruct (Hfin s' Hs Hc) as (Hr' & (l1 & l2 & Hl1 & Hl2 & Hd) & _).
  change (set_iter_time_step vzero (dat s0)) with d0 in Hd.
  split; [done|]. rewrite Hd. simpl. split.
  - by exists l1, l2.
  - intros Hh Hg Ht. rewrite (Hh l1 Hl1), (Hg l2 Hl2). done.
Qed.

(** The plain actions of a body, in order, rendezvous left out. *)
Fixpoint actions (c : list (instr pool_id mrt)) : list (nat -> mrt -> mrt) :=
  match c with
  | [] => []
  | Arrive _ :: c => actions c
  | Do f :: c => f :: actions c
  end.

(** What the threads execute of a body that calls nothing: each section
    operation as the plain action of the model, which finds the thread's
    cells itself, and each [arrive_and_wait()] as a rendezvous. *)
Definition work_fun (w : work) : nat -> mrt -> mrt :=
  match w with
  | add_section => add_ds_section
  | elevate_section => update_h
  | regrade_section => update_g
  end.

Fixpoint instrs (b : list stmt) : option (list (instr pool_id mrt)) :=
  match b with
  | [] => Some []
  | Partition :: r => instrs r
  | Work w :: r => cons (Do (work_fun w)) <$> instrs r
  | Wait q :: r => cons (Arrive q) <$> instrs r
  | _ :: _ => None
  end.

Lemma calls_spare_helpers f g :
  calls f g -> g <> fn_ds_this_thread /\ g <> fn_step_this_thread.
Proof.
  unfold calls. destruct f; cbv; intros H;
    repeat (destruct H as [<-|H]; [by split|]); done.
Qed.

(** C9 (as amended).  [ds_this_thread] and [step_this_thread] are private
    members of a class that has no friend, so that only the functions of
    this file can call them.  No function of the file has a call of either
    of them, and no chain of calls, from any function of the file, ends in
    one of them; the functions that the pools are constructed around, and
    that the constructor's calls do reach, are the two lambdas, whose bodies
    are what the workers of the two pools execute.  Each helper has the
    statements of the corresponding lambda, rendezvous apart, in the same
    order: the same partition computation and the same mutation of the
    accumulator or of the fields; the lambda is the helper with one
    rendezvous put in front and, for the step, one more at the end.
    [ds_this_thread] has one rendezvous where the lambda has two (one
    fewer), [step_this_thread] has one where the lambda has three (two
    fewer). *)
Theorem helper_members_never_called :
  (forall f, ~ calls f fn_ds_this_thread /\ ~ calls f fn_step_this_thread) /\
  (forall f g, tc calls f g ->
     g <> fn_ds_this_thread /\ g <> fn_step_this_thread) /\
  bound = [ds_lambda; step_lambda] /\
  tc calls mrt_constructor ds_lambda /\
  tc calls mrt_constructor step_lambda /\
  instrs (body ds_lambda) = Some (closure ds_workers) /\
  instrs (body step_lambda) = Some (closure step_workers) /\
  instrs (body fn_ds_this_thread) = Some ds_this_thread /\
  instrs (body fn_step_this_thread) = Some step_this_thread /\
  without_waits (body fn_ds_this_thread) = without_waits (body ds_lambda) /\
  without_waits (body fn_step_this_thread)
  = without_waits (body step_lambda) /\
  actions ds_this_thread = actions ds_closure /\
  actions step_this_thread = actions step_closure /\
  ds_closure = Arrive ds_barrier :: ds_this_thread /\
  step_closure
  = Arrive step_barrier :: step_this_thread ++ [Arrive step_barrier] /\
  arrivals ds_this_thread = 1 /\ arrivals ds_closure = 2 /\
  arrivals step_this_thread = 1 /\ arrivals step_closure = 3.
Proof.
  assert (Hreach : forall g, In g bound -> tc calls mrt_constructor g).
  { intros g Hg.
    eapply tc_l; [|eapply tc_l; [|apply tc_once]].
    - instantiate (1 := pool_constructor). cbv. tauto.
    - instantiate (1 := pool_worker). cbv. tauto.
    - exact Hg. }
  split.
  { intros f. split; intros H; by destruct (calls_spare_helpers _ _ H). }
  split.
  { intros f g Hfg. induction Hfg as [f g H|f f' g _ _ IH]; [|done].
    by eapply calls_spare_helpers. }
  split; [reflexivity|].
  split; [apply Hreach; cbv; tauto|].
  split; [apply Hreach; cbv; tauto|].
  by repeat split.
Qed.

(** The member functions a user of the class can call. *)
Inductive public_call : list (cinstr pool_id mrt value_type) -> Prop :=
| public_dsteepness : public_call dsteepness
| public_step time_step : public_call (step_call time_step).

Lemma run_calls_ready bodies : forall (s0 s' : state),
  Forall public_call bodies -> ready s0 -> run_calls bodies s0 s' ->
  ready s'.
Proof.
  induction bodies as [|body bodies IH]; intros s0 s' Hpub Hr Hrun;
    inversion Hrun; subst; [done|].
  apply Forall_cons in Hpub as [Hbody Hpub].
  match goal with H : call _ _ _ |- _ => destruct H as [Hs Hc] end.
  eapply IH; [done| |done].
  destruct Hbody as [|dt].
  - destruct (dsteepness_runs (set_cpc dsteepness s0)
                (ready_set_cpc _ _ Hr) eq_refl) as (_ & _ & Hfin).
    by destruct (Hfin _ Hs Hc) as [? _].
  - destruct (step_call_runs (set_cpc (step_call dt) s0) dt
                (ready_set_cpc _ _ Hr) eq_refl) as (_ & _ & Hfin).
    by destruct (Hfin _ Hs Hc) as [? _].
Qed.

(** C8: destruction of either pool of the object, after construction and
    any calls of the member functions, none included.  The destructor asks
    every worker to stop, calls [trigger()] once and joins the workers.
    Every run of it is finite and cannot stop before the caller has
    returned, so it always completes, and some run does complete.  In any
    state of a run where the trigger has happened, every worker has been
    asked to stop.  When the destructor has returned, every worker has
    returned (the joins succeeded), [trigger()] was called exactly once and
    no [sync()] was completed, no worker called the bound function or
    released the finish semaphore, and the grid is untouched. *)
Theorem pool_destruction_completes h0 g0 t0 agg0 dt0 bodies
    (s1 s2 : state) (p : pool_id) :
  call constructor_body (members h0 g0 t0 agg0 dt0) s1 ->
  Forall public_call bodies -> run_calls bodies s1 s2 ->
  let s := set_cpc (destroy p nthreads) s2 in
  returns_always closure s /\
  (exists s', steps closure s s' /\ cpc s' = []) /\
  (forall s', steps closure s s' ->
     triggers (pools s' p) <> triggers (pools s2 p) ->
     Forall (fun w => stop_requested w = true) (workers (pools s' p))) /\
  (forall s', steps closure s s' -> cpc s' = [] ->
     Forall (fun w => pc w = Exited /\ stop_requested w = true)
            (workers (pools s' p)) /\
     triggers (pools s' p) = S (triggers (pools s2 p)) /\
     syncs (pools s' p) = syncs (pools s2 p) /\
     finish_sem (pools s' p) = finish_sem (pools s2 p) /\
     map history (workers (pools s' p))
     = map history (workers (pools s2 p)) /\
     dat s' = dat s2).
Proof.
  intros [Hs1 Hc1] Hpub Hrun s.
  assert (Hr1 : ready s1).
  { destruct (step_call_runs
                (set_cpc constructor_body (members h0 g0 t0 agg0 dt0)) vzero
                (ready_set_cpc _ _ (members_ready h0 g0 t0 agg0 dt0))
                eq_refl) as (_ & _ & Hfin).
    by destruct (Hfin _ Hs1 Hc1) as [? _]. }
  pose proof (run_calls_ready bodies s1 s2 Hpub Hr1 Hrun) as Hr2.
  assert (Hidle : forall q, idle q s).
  { intros q. apply ready_idle. by apply ready_set_cpc. }
  apply (destroy_spec closure p s Hidle).
  unfold s. simpl. by destruct (Hr2 p) as [_ ->].
Qed.

(** *** Any sequence of calls *)

(** What a user can ask of the object. *)
Inductive request := Dsteepness | Step (time_step : value_type).

Definition body_of (r : request) : list (cinstr pool_id mrt value_type) :=
  match r with
  | Dsteepness => dsteepness
  | Step time_step => step_call time_step
  end.

Fixpoint reductions (rs : list request) : nat :=
  match rs with
  | [] => 0
  | Dsteepness :: rs => S (reductions rs)
  | Step _ :: rs => reductions rs
  end.

Fixpoint updates (rs : list request) : nat :=
  match rs with
  | [] => 0
  | Dsteepness :: rs => updates rs
  | Step _ :: rs => S (updates rs)
  end.

Fixpoint time_steps (rs : list request) : list value_type :=
  match rs with
  | [] => []
  | Dsteepness :: rs => time_steps rs
  | Step time_step :: rs => time_step :: time_steps rs
  end.

(** The object at rest after [a] iterations of [step_workers] and [b]
    iterations of [ds_workers]. *)
Record at_rest (a b : nat) (s : state) : Prop := AtRest
  { ar_ready : ready s;
    ar_balanced : forall p, Forall balanced (workers (pools s p));
    ar_step_syncs : syncs (pools s step_workers) = a;
    ar_step_triggers : triggers (pools s step_workers) = a;
    ar_ds_syncs : syncs (pools s ds_workers) = b;
    ar_ds_triggers : triggers (pools s ds_workers) = b;
    ar_step_phase :
      phase (bars s step_barrier) = if decide (nthreads = 0) then 0 else 3 * a;
    ar_ds_phase :
      phase (bars s ds_barrier) = if decide (nthreads = 0) then 0 else 2 * b }.

Lemma at_rest_set_cpc a b (s : state) k :
  at_rest a b s -> at_rest a b (set_cpc k s).
Proof. intros []. split; try done. by apply ready_set_cpc. Qed.

Lemma members_at_rest h0 g0 t0 agg0 dt0 :
  at_rest 0 0 (members h0 g0 t0 agg0 dt0).
Proof.
  split; try done; [apply members_ready| |by case_decide..].
  intros p. apply Forall_lookup. intros i w Hi. simpl in Hi.
  apply list_lookup_fmap_Some in Hi as (a & -> & _). done.
Qed.

Lemma step_call_at_rest a b (s s' : state) time_step :
  at_rest a b s -> call (step_call time_step) s s' ->
  at_rest (S a) b s' /\ t (dat s') = vadd (t (dat s)) time_step.
Proof.
  intros Har [Hs Hc].
  pose proof (at_rest_set_cpc a b s (step_call time_step) Har)
    as [Hr Hb Hss Hst Hds Hdt Hsp Hdp].
  destruct (step_call_runs _ time_step Hr eq_refl) as (_ & _ & Hfin).
  destruct (Hfin s' Hs Hc) as (Hr' & (l1 & l2 & _ & _ & Hd) & _).
  destruct (cycle_counts closure step_workers
              [CData (set_iter_time_step time_step)]
              [CData (fun d => set_t (vadd (t d) time_step) d); CRet t]
              (set_cpc (step_call time_step) s)
              (closure_own_barrier _) (closure_arrives _)) as (_ & _ & Hcnt);
    try done; try (by repeat constructor); try apply Hr.
  { intros q. by apply ready_idle. }
  destruct (Hcnt s' Hs Hc) as (_ & Hran & Htr & Hsy & Hph & Hfr).
  destruct (Hfr ds_workers) as [Hp Hbar]; [done|].
  split; [|by rewrite Hd].
  split; try done.
  - intros [].
    + rewrite Hp. apply Hb.
    + eapply steps_balanced; [exact Hs|apply Hb].
  - by rewrite Hsy, Hss.
  - by rewrite Htr, Hst.
  - by rewrite Hp.
  - by rewrite Hp.
  - unfold step_barrier. rewrite Hph. unfold step_barrier in Hsp.
    rewrite Hsp. destruct (Hr step_workers) as [_ ->].
    repeat case_decide; try done; simpl; lia.
  - unfold ds_barrier in *. by rewrite Hbar.
Qed.

Lemma dsteepness_at_rest a b (s s' : state) :
  at_rest a b s -> call dsteepness s s' ->
  at_rest a (S b) s' /\ t (dat s') = t (dat s).
Proof.
  intros Har [Hs Hc].
  pose proof (at_rest_set_cpc a b s dsteepness Har)
    as [Hr Hb Hss Hst Hds Hdt Hsp Hdp].
  destruct (dsteepness_runs _ Hr eq_refl) as (_ & _ & Hfin).
  destruct (Hfin s' Hs Hc) as (Hr' & (l & _ & Hd & _) & _).
  destruct (cycle_counts closure ds_workers
              [CData (set_ds_aggregator vzero)]
              [CRet (fun d => vdiv_size (ds_aggregator d) cells)]
              (set_cpc dsteepness s)
              (closure_own_barrier _) (closure_arrives _)) as (_ & _ & Hcnt);
    try done; try (by repeat constructor); try apply Hr.
  { intros q. by apply ready_idle. }
  destruct (Hcnt s' Hs Hc) as (_ & Hran & Htr & Hsy & Hph & Hfr).
  destruct (Hfr step_workers) as [Hp Hbar]; [done|].
  split; [|by rewrite Hd].
  split; try done.
  - intros [].
    + eapply steps_balanced; [exact Hs|apply Hb].
    + rewrite Hp. apply Hb.
  - by rewrite Hp.
  - by rewrite Hp.
  - by rewrite Hsy, Hds.
  - by rewrite Htr, Hdt.
  - unfold step_barrier in *. by rewrite Hbar.
  - unfold ds_barrier. rewrite Hph. unfold ds_barrier in Hdp.
    rewrite Hdp. destruct (Hr ds_workers) as [_ ->].
    repeat case_decide; try done; simpl; lia.
Qed.

Lemma requests_at_rest rs : forall a b (s s' : state),
  at_rest a b s -> run_calls (map body_of rs) s s' ->
  at_rest (a + updates rs) (b + reductions rs) s' /\
  t (dat s') = fold_left vadd (time_steps rs) (t (dat s)).
Proof.
  induction rs as [|r rs IH]; intros a b s s' Har Hrun; inversion Hrun;
    subst.
  { by rewrite !Nat.add_0_r. }
  destruct r as [|dt]; simpl.
  - match goal with H : call _ _ _ |- _ =>
      destruct (dsteepness_at_rest a b _ _ Har H) as [Har1 Ht1] end.
    match goal with H : run_calls _ _ _ |- _ =>
      destruct (IH _ _ _ _ Har1 H) as [Har2 Ht2] end.
    rewrite Ht2, Ht1. split; [|done].
    by replace (b + S (reductions rs)) with (S b + reductions rs) by lia.
  - match goal with H : call _ _ _ |- _ =>
      destruct (step_call_at_rest a b _ _ dt Har H) as [Har1 Ht1] end.
    match goal with H : run_calls _ _ _ |- _ =>
      destruct (IH _ _ _ _ Har1 H) as [Har2 Ht2] end.
    rewrite Ht2, Ht1. split; [|done].
    by replace (a + S (updates rs)) with (S a + updates rs) by lia.
Qed.

Lemma requests_exist rs : forall a b (s : state),
  at_rest a b s -> exists s', run_calls (map body_of rs) s s'.
Proof.
  induction rs as [|r rs IH]; intros a b s Har.
  { exists s. constructor. }
  pose proof (ar_ready _ _ _ Har) as Hr.
  destruct r as [|dt]; simpl.
  - destruct (dsteepness_runs (set_cpc dsteepness s)
                (ready_set_cpc _ _ Hr) eq_refl) as (_ & (s1 & Hs & Hc) & _).
    destruct (dsteepness_at_rest a b s s1 Har (conj Hs Hc)) as [Har1 _].
    destruct (IH _ _ s1 Har1) as [s' Hrun].
    exists s'. econstructor; [by split|done].
  - destruct (step_call_runs (set_cpc (step_call dt) s) dt
                (ready_set_cpc _ _ Hr) eq_refl) as (_ & (s1 & Hs & Hc) & _).
    destruct (step_call_at_rest a b s s1 dt Har (conj Hs Hc)) as [Har1 _].
    destruct (IH _ _ s1 Har1) as [s' Hrun].
    exists s'. econstructor; [by split|done].
Qed.

(** How many iterations pool [p] has gone through once the constructor and
    the requests [rs] have been served. *)
Definition iterations (rs : list request) (p : pool_id) : nat :=
  match p with
  | step_workers => S (updates rs)
  | ds_workers => reductions rs
  end.

(** X6: the object can be used again and again.  After construction, any
    list of requests can be served, and however the threads are scheduled
    the object is then at rest: on each pool both semaphores are at zero,
    [synced] is set, every worker is parked with no stop requested, and the
    barrier is armed for [nthreads] arrivals; the pool has been triggered
    and synced once per request made to it (the constructor counting as an
    update), every one of its workers has called the bound function and
    released the finish semaphore exactly that many times, and its barrier
    has completed that many times the rendezvous of its closure (three for
    an update, two for a reduction); the clock is the initial clock plus
    zero plus the requested time steps, in order. *)
Theorem object_reusable h0 g0 t0 agg0 dt0 (rs : list request) :
  (exists s1 s2,
     call constructor_body (members h0 g0 t0 agg0 dt0) s1 /\
     run_calls (map body_of rs) s1 s2) /\
  (forall s1 s2,
     call constructor_body (members h0 g0 t0 agg0 dt0) s1 ->
     run_calls (map body_of rs) s1 s2 ->
     (forall p,
        start_sem (pools s2 p) = 0 /\ finish_sem (pools s2 p) = 0 /\
        synced (pools s2 p) = true /\
        size (pools s2 p) = nthreads /\
        pending (bars s2 p) = nthreads /\ expected (bars s2 p) = nthreads /\
        triggers (pools s2 p) = iterations rs p /\
        syncs (pools s2 p) = iterations rs p /\
        Forall (fun w => pc w = Parked /\ stop_requested w = false /\
                         invoked w = iterations rs p /\
                         released w = iterations rs p)
               (workers (pools s2 p)) /\
        phase (bars s2 p)
        = if decide (nthreads = 0) then 0
          else arrivals (closure p) * iterations rs p) /\
     t (dat s2) = fold_left vadd (time_steps rs) (vadd t0 vzero)).
Proof.
  pose proof (members_at_rest h0 g0 t0 agg0 dt0) as Har0.
  split.
  - destruct (step_call_runs
                (set_cpc constructor_body (members h0 g0 t0 agg0 dt0)) vzero
                (ready_set_cpc _ _ (members_ready h0 g0 t0 agg0 dt0))
                eq_refl) as (_ & (s1 & Hs & Hc) & _).
    destruct (step_call_at_rest 0 0 _ s1 vzero Har0 (conj Hs Hc))
      as [Har1 _].
    destruct (requests_exist rs _ _ s1 Har1) as [s2 Hrun].
    exists s1, s2. by repeat split.
  - intros s1 s2 Hcall Hrun.
    destruct (step_call_at_rest 0 0 _ s1 vzero Har0 Hcall) as [Har1 Ht1].
    destruct (requests_at_rest rs _ _ s1 s2 Har1 Hrun)
      as [[Hr Hb Hss Hst Hds Hdt Hsp Hdp] Ht2].
    split; [|by rewrite Ht2, Ht1].
    intros p. destruct (Hr p) as [[Hw Ha Hs0 Hf0 Hsy He Hp] Hsz].
    assert (Hit : triggers (pools s2 p) = iterations rs p /\
                  syncs (pools s2 p) = iterations rs p).
    { destruct p; simpl; rewrite ?Hss, ?Hst, ?Hds, ?Hdt; done. }
    destruct Hit as [Htr Hsyn].
    rewrite Hsz in He, Hp. do 8 (split; [done|]). split.
    + apply Forall_lookup. intros i w Hi.
      destruct (proj1 (Forall_lookup _ _) Hw i w Hi) as (Hpc & Hrel & Hstop).
      pose proof (proj1 (Forall_lookup _ _) (Hb p) i w Hi) as Hbal.
      unfold balanced in Hbal. rewrite Hpc in Hbal.
      repeat split; try done; lia.
    + destruct p; simpl.
      * unfold ds_barrier in Hdp. rewrite Hdp. case_decide; lia.
      * unfold step_barrier in Hsp. rewrite Hsp. case_decide; lia.
Qed.

(** *** Results that do not depend on the schedule *)

(** X7: when the addition of [value_type] is associative and commutative,
    [dsteepness()] returns the same value and leaves the same data however
    the threads are scheduled: the accumulator is zero plus the
    contributions of the workers taken in the order of their indices, and
    the value returned is that sum divided by the number of cells. *)
Theorem dsteepness_schedule_independent (s0 : state) :
  ready s0 -> cpc s0 = dsteepness ->
  (forall x y z, vadd (vadd x y) z = vadd x (vadd y z)) ->
  (forall x y, vadd x y = vadd y x) ->
  let total :=
    fold_left (fun a i => vadd a (contribution (dat s0) i))
              (seq 0 nthreads) vzero in
  (forall s', steps closure s0 s' -> cpc s' = [] ->
     dat s' = set_ds_aggregator total (dat s0) /\
     cret s' = Some (vdiv_size total cells)) /\
  (forall s' s'', steps closure s0 s' -> cpc s' = [] ->
     steps closure s0 s'' -> cpc s'' = [] ->
     dat s' = dat s'' /\ cret s' = cret s'').
Proof.
  intros Hr Hpc Hassoc Hcomm total.
  assert (Hone : forall s', steps closure s0 s' -> cpc s' = [] ->
            dat s' = set_ds_aggregator total (dat s0) /\
            cret s' = Some (vdiv_size total cells)).
  { intros s' Hs Hc.
    destruct (dsteepness_runs s0 Hr Hpc) as (_ & _ & Hfin).
    destruct (Hfin s' Hs Hc) as (_ & (l & Hl & Hd & Hcr) & _).
    rewrite accumulate_reset in Hd, Hcr.
    assert (Hsame :
              fold_left (fun a i => vadd a (contribution (dat s0) i)) l vzero
              = total).
    { apply fold_left_comm_perm; [|done]. intros a x y _ _.
      by rewrite !Hassoc, (Hcomm (contribution _ x)). }
    by rewrite Hd, Hcr, Hsame. }
  split; [done|]. intros s' s'' Hs' Hc' Hs'' Hc''.
  destruct (Hone s' Hs' Hc') as [-> ->].
  by destruct (Hone s'' Hs'' Hc'') as [-> ->].
Qed.

(** The elevation update of worker [i], for a time step [dt] and a
    gradient [gg]; its gradient update, from an elevation [hh]. *)
Definition elevate_one (dt : value_type) (gg : field) (i : nat) (x : field)
  : field :=
  let '(first, last) := divided_cell_range cells i nthreads in
  update_h_section first last dt x gg.

Definition regrade_one (hh : field) (i : nat) (x : field) : field :=
  let '(first, last) := divided_cell_range cells i nthreads in
  update_g_section first last hh x.

(** X8: when the section updates of any two workers commute, which is the
    case when sections are written cell by cell and do not overlap,
    [step(time_step)] leaves the same data and returns the same value
    however the threads are scheduled: the elevation is the old one updated
    section by section with [time_step] and the old gradient, the gradient
    is the old one updated section by section from that new elevation, and
    the clock has advanced by [time_step]. *)
Theorem step_schedule_independent (s0 : state) (time_step : value_type) :
  ready s0 -> cpc s0 = step_call time_step ->
  (forall i j x, i < nthreads -> j < nthreads ->
     elevate_one time_step (g (dat s0)) i
       (elevate_one time_step (g (dat s0)) j x)
     = elevate_one time_step (g (dat s0)) j
         (elevate_one time_step (g (dat s0)) i x)) ->
  (forall hh i j x, i < nthreads -> j < nthreads ->
     regrade_one hh i (regrade_one hh j x)
     = regrade_one hh j (regrade_one hh i x)) ->
  let new_h :=
    fold_left (fun x i => elevate_one time_step (g (dat s0)) i x)
              (seq 0 nthreads) (h (dat s0)) in
  let new_g :=
    fold_left (fun x i => regrade_one new_h i x)
              (seq 0 nthreads) (g (dat s0)) in
  (forall s', steps closure s0 s' -> cpc s' = [] ->
     dat s' = Mrt new_h new_g (vadd (t (dat s0)) time_step)
                  (ds_aggregator (dat s0)) time_step /\
     cret s' = Some (vadd (t (dat s0)) time_step)) /\
  (forall s' s'', steps closure s0 s' -> cpc s' = [] ->
     steps closure s0 s'' -> cpc s'' = [] ->
     dat s' = dat s'' /\ cret s' = cret s'').
Proof.
  intros Hr Hpc Hh Hg new_h new_g.
  assert (Hone : forall s', steps closure s0 s' -> cpc s' = [] ->
            dat s' = Mrt new_h new_g (vadd (t (dat s0)) time_step)
                         (ds_aggregator (dat s0)) time_step /\
            cret s' = Some (vadd (t (dat s0)) time_step)).
  { intros s' Hs Hc.
    destruct (step_call_runs s0 time_step Hr Hpc) as (_ & _ & Hfin).
    destruct (Hfin s' Hs Hc) as (_ & (l1 & l2 & Hl1 & Hl2 & Hd) & Hcr & _).
    simpl in Hd. split; [|done]. rewrite Hd.
    assert (Hin : forall l i, l ≡ₚ seq 0 nthreads -> i ∈ l -> i < nthreads).
    { intros l i Hl Hi. rewrite Hl in Hi. apply elem_of_seq in Hi. lia. }
    assert (H1 : elevate (set_iter_time_step time_step (dat s0)) l1 = new_h).
    { unfold elevate, new_h. simpl.
      apply (fold_left_comm_perm
               (fun x i => elevate_one time_step (g (dat s0)) i x));
        [|done].
      intros a x y Hx Hy. apply Hh; by apply (Hin l1). }
    rewrite H1.
    assert (H2 : regrade new_h (set_iter_time_step time_step (dat s0)) l2
                 = new_g).
    { unfold regrade, new_g. simpl.
      apply (fold_left_comm_perm (fun x i => regrade_one new_h i x));
        [|done].
      intros a x y Hx Hy. apply Hg; by apply (Hin l2). }
    by rewrite H2. }
  split; [done|]. intros s' s'' Hs' Hc' Hs'' Hc''.
  destruct (Hone s' Hs' Hc') as [-> ->].
  by destruct (Hone s'' Hs'' Hc'') as [-> ->].
Qed.

(** *** The rendezvous separate the phases of an update *)

(** Every state of a run of [step(time_step)] on a ready object is before,
    inside or after the cycle of [step_workers]. *)
Lemma step_call_reachable (s0 : state) (time_step : value_type) (s : state) :
  ready s0 -> cpc s0 = step_call time_step -> steps closure s0 s ->
  call_inv closure step_workers
    [CData (set_iter_time_step time_step)]
    [CData (fun d => set_t (vadd (t d) time_step) d); CRet t]
    (step_progress (syncs (pools s0 step_workers))
                   (set_iter_time_step time_step (dat s0))) s0 s.
Proof.
  intros Hr Hpc Hs.
  set (d0 := set_iter_time_step time_step (dat s0)).
  set (r0 := syncs (pools s0 step_workers)).
  apply call_reachable; try done.
  - apply closure_own_barrier.
  - apply closure_arrives.
  - by repeat constructor.
  - by repeat constructor.
  - apply Hr.
  - intros q. by apply ready_idle.
  - simpl. fold d0. repeat split; try done. exists [], [].
    assert (Hnil : forall m, m < 5 ->
              lists (fun w => todo r0 step_closure w <= m)
                    (workers (pools s0 step_workers)) []).
    { intros m Hm. apply lists_nil. intros j x Hj.
      rewrite (quiescent_todo_all s0 step_workers _ j x)
        by (done || apply Hr).
      simpl. lia. }
    split; [apply Hnil; lia|]. split; [apply Hnil; lia|done].
  - intros sB fin s1 i s' Hp Hb Hd Hinv HJ Hstep.
    unfold r0 in *. rewrite <- Hp in HJ |- *.
    by eapply (step_progress_step sB _ fin s1 i s' d0 Hinv).
Qed.

(** X9: the rendezvous of the closure of [step_workers] keep the two
    updates apart, in every state that a call of [step(time_step)] on a
    ready object can reach.  While a worker is about to update its section
    of the elevation, [iter_time_step] holds [time_step], the gradient is
    still the one the call started with, and no worker is about to update
    its section of the gradient.  While a worker is about to update its
    section of the gradient, every worker has updated its section of the
    elevation. *)
Theorem step_phases_separated (s0 : state) (time_step : value_type)
    (s : state) :
  ready s0 -> cpc s0 = step_call time_step -> steps closure s0 s ->
  let ws := workers (pools s step_workers) in
  let d0 := set_iter_time_step time_step (dat s0) in
  (forall i w, ws !! i = Some w -> pc w = Running (drop 1 step_closure) ->
     iter_time_step (dat s) = time_step /\ g (dat s) = g (dat s0) /\
     forall j x, ws !! j = Some x -> pc x <> Running (drop 3 step_closure)) /\
  (forall i w, ws !! i = Some w -> pc w = Running (drop 3 step_closure) ->
     exists l, l ≡ₚ seq 0 nthreads /\ h (dat s) = elevate d0 l).
Proof.
  intros Hr Hpc Hs ws d0.
  pose proof (step_call_reachable s0 time_step s Hr Hpc Hs) as Hinv.
  assert (Hparked : quiescent step_workers s ->
            forall i w r, ws !! i = Some w -> pc w <> Running r).
  { intros Hq i w r Hi Hw.
    destruct (proj1 (Forall_lookup _ _) (q_workers _ _ Hq) i w Hi)
      as (Hp & _). congruence. }
  destruct Hinv as [Hb|[Hc|Ha]].
  - destruct Hb as (k & _ & _ & Hp & Hbs & _).
    assert (Hq : quiescent step_workers s).
    { destruct (Hr step_workers) as [[] _].
      split; rewrite ?Hp, ?Hbs; done. }
    split; intros i w Hi Hw; by destruct (Hparked Hq i w _ Hi Hw).
  - destruct Hc as (sB & fin & HtB & Hci & HJ).
    pose proof HtB as (Hp & Hbs & HdB & _). simpl in HdB.
    pose proof (ci_wok _ _ _ _ _ _ Hci) as Hw.
    destruct HJ as (Ht & Hagg & Hdt & l1 & l2 & Hl1 & Hl2 & Hh & Hg).
    rewrite <- Hp in Hl1, Hl2.
    split; intros i w Hi Hpcw;
      destruct (proj1 (Forall_lookup _ _) Hw i w Hi) as [_ Hwk];
      rewrite Hpcw in Hwk; destruct Hwk as (_ & pre & Hcl & Hph);
      suffixes Hcl.
    + split; [done|]. split.
      * assert (l2 = []) as ->.
        { eapply lists_nil_inv; [|exact Hl2].
          by eapply (none_past_gradient sB _ fin s i w _ Hci Hi Hpcw). }
        by rewrite Hg.
      * intros j x Hj Hx.
        destruct (proj1 (Forall_lookup _ _) Hw j x Hj) as [_ Hwx].
        rewrite Hx in Hwx. destruct Hwx as (_ & pre & Hcl & Hphx).
        suffixes Hcl. lia.
    + exists l1. split; [|done].
      assert (Hlen : length (workers (pools s step_workers)) = nthreads).
      { rewrite (ci_size _ _ _ _ _ _ Hci). destruct (Hr step_workers) as [_ <-].
        by rewrite Hp. }
      rewrite <- Hlen. eapply lists_all; [|exact Hl1].
      intros j x Hj. simpl.
      destruct (proj1 (Forall_lookup _ _) Hw j x Hj) as [_ Hwx].
      unfold todo. destruct (pc x) as [| |rx|b q rx|] eqn:Hpcx; simpl.
      * destruct Hwx as [[_ Hx]|[Hx _]]; [simpl in Hx; lia|].
        destruct (Nat.eqb_spec (released x) (syncs (pools sB step_workers)));
          lia.
      * lia.
      * destruct Hwx as (_ & pre & Hcl & Hx). suffixes Hcl; lia.
      * destruct Hwx as (_ & _ & pre & Hcl & Hq & Hx). suffixes Hcl; lia.
      * done.
  - destruct Ha as (sB & dC & _ & [Hq _ _ _ _ _] & _).
    split; intros i w Hi Hw; by destruct (Hparked Hq i w _ Hi Hw).
Qed.

(** *** No thread at all *)

Lemma requests_zero_threads rs : forall (s s' : state),
  nthreads = 0 -> ready s -> run_calls (map body_of rs) s s' ->
  ready s' /\ h (dat s') = h (dat s) /\ g (dat s') = g (dat s) /\
  (last rs = Some Dsteepness -> cret s' = Some (vdiv_size vzero cells)).
Proof.
  intros s s' Hn. revert s.
  induction rs as [|r rs IH]; intros s Hr Hrun; inversion Hrun; subst.
  { done. }
  match goal with H : call _ _ _ |- _ => destruct H as [Hs Hc] end.
  assert (Hone : ready s1 /\ h (dat s1) = h (dat s) /\ g (dat s1) = g (dat s)
                 /\ (r = Dsteepness ->
                     cret s1 = Some (vdiv_size vzero cells))).
  { destruct r as [|dt]; simpl in Hs.
    - destruct (dsteepness_runs _ (ready_set_cpc _ _ Hr) eq_refl)
        as (_ & _ & Hfin).
      destruct (Hfin s1 Hs Hc) as (Hr1 & (l & Hl & Hd & Hcr) & _).
      rewrite Hn in Hl. apply Permutation_nil_r in Hl as ->.
      rewrite Hd, Hcr. done.
    - destruct (step_call_runs _ dt (ready_set_cpc _ _ Hr) eq_refl)
        as (_ & _ & Hfin).
      destruct (Hfin s1 Hs Hc) as (Hr1 & (l1 & l2 & Hl1 & Hl2 & Hd) & _).
      rewrite Hn in Hl1, Hl2.
      apply Permutation_nil_r in Hl1 as ->.
      apply Permutation_nil_r in Hl2 as ->.
      rewrite Hd. done. }
  destruct Hone as (Hr1 & Hh1 & Hg1 & Hc1).
  match goal with H : run_calls _ _ _ |- _ =>
    destruct (IH _ Hr1 H) as (Hr2 & Hh2 & Hg2 & Hc2) end.
  split; [done|]. split; [congruence|]. split; [congruence|].
  destruct rs as [|r' rs]; [|done].
  intros Hlast. simpl in Hlast. simplify_eq.
  match goal with H : run_calls _ _ _ |- _ => inversion H; subst end.
  by apply Hc1.
Qed.

(** X11: with no thread at all, which is what [SOLVER_NUM_THREADS=0] gives,
    nothing is ever computed, and no call blocks: the constructor and every
    later call return, the elevation and the gradient stay the ones the
    base class set up, only the clock moves, and a [dsteepness()] returns
    zero divided by the number of cells. *)
Theorem zero_threads_compute_nothing h0 g0 t0 agg0 dt0 (rs : list request) :
  nthreads = 0 ->
  (exists s1 s2,
     call constructor_body (members h0 g0 t0 agg0 dt0) s1 /\
     run_calls (map body_of rs) s1 s2) /\
  (forall s1 s2,
     call constructor_body (members h0 g0 t0 agg0 dt0) s1 ->
     run_calls (map body_of rs) s1 s2 ->
     h (dat s2) = h0 /\ g (dat s2) = g0 /\
     t (dat s2) = fold_left vadd (time_steps rs) (vadd t0 vzero) /\
     (last rs = Some Dsteepness ->
      cret s2 = Some (vdiv_size vzero cells))).
Proof.
  intros Hn.
  pose proof (members_at_rest h0 g0 t0 agg0 dt0) as Har0.
  split.
  { destruct (step_call_runs
                (set_cpc constructor_body (members h0 g0 t0 agg0 dt0)) vzero
                (ready_set_cpc _ _ (members_ready h0 g0 t0 agg0 dt0))
                eq_refl) as (_ & (s1 & Hs & Hc) & _).
    destruct (step_call_at_rest 0 0 _ s1 vzero Har0 (conj Hs Hc))
      as [Har1 _].
    destruct (requests_exist rs _ _ s1 Har1) as [s2 Hrun].
    exists s1, s2. by repeat split. }
  intros s1 s2 Hc Hrun.
  assert (Hclock : t (dat s2)
                   = fold_left vadd (time_steps rs) (vadd t0 vzero)).
  { destruct (step_call_at_rest 0 0 _ s1 vzero Har0 Hc) as [Har1 Ht1].
    destruct (requests_at_rest rs _ _ s1 s2 Har1 Hrun) as [_ Ht2].
    by rewrite Ht2, Ht1. }
  destruct (requests_zero_threads (Step vzero :: rs)
              (members h0 g0 t0 agg0 dt0) s2 Hn
              (members_ready h0 g0 t0 agg0 dt0)) as (_ & Hh & Hg & Hcr).
  { econstructor; [exact Hc|exact Hrun]. }
  split; [done|]. split; [done|]. split; [done|].
  intros Hlast. apply Hcr. destruct rs; [done|]. exact Hlast.
Qed.

End Stepper.

Arguments h {M} _.
Arguments g {M} _.
Arguments t {M} _.
Arguments ds_aggregator {M} _.
Arguments iter_time_step {M} _.

End MountainRange.

(** ** A small grid, to run the model on *)

Module Example.
Import Pool MountainRange.

Definition cell (x : list Z) (i : nat) : Z := nth i x 0%Z.

Definition in_range (first last i : nat) : bool :=
  (first <=? i) && (i <? last).

(** Modelled from the spec: the partition oracle of section 4.2, which is
    declared in [MountainRangeSharedMem.hpp]: balanced contiguous ranges,
    the remainder going to the first workers. *)
Definition divided_cell_range (S i N : nat) : nat * nat :=
  let q := S / N in
  let r := S mod N in
  let first := i * q + Nat.min i r in
  (first, first + q + (if i <? r then 1 else 0)).

(** An instance of the three section operations of the grid model: a
    metric summed over the cells of the section, an explicit elevation
    update, and a gradient recomputed from the neighbouring elevations. *)
Definition ds_section (h g : list Z) (first last : nat) : Z :=
  fold_left (fun a i => (a + cell h i * cell g i)%Z)
            (seq first (last - first)) 0%Z.

Definition update_h_section (first last : nat) (dt : Z) (h g : list Z)
  : list Z :=
  imap (fun i x => if in_range first last i then (x + dt * cell g i)%Z
                   else x) h.

Definition update_g_section (first last : nat) (h g : list Z) : list Z :=
  imap (fun i x =>
          if in_range first last i
          then (cell h (i - 1) + cell h (i + 1) - 2 * cell h i)%Z
          else x) g.

(** Four cells, integer values, [n] workers. *)
Definition grid (n : nat) : grid_model :=
  GridModel Z 0%Z Z.add (fun a k => (a / Z.of_nat k)%Z) (list Z) 4
            divided_cell_range ds_section update_h_section update_g_section
            n.

Definition h0 : list Z := [1; 4; 9; 16]%Z.
Definition g0 : list Z := [0; 0; 0; 0]%Z.

Definition state (n : nat) : Type := sys pool_id (mrt (grid n)) Z.

(** The object right after its members are initialised. *)
Definition fresh (n : nat) : state n := members (grid n) h0 g0 0%Z 7%Z 9%Z.

Definition all_threads : list (thread (P := pool_id)) :=
  [Caller; WorkerOf ds_workers 0; WorkerOf ds_workers 1;
   WorkerOf step_workers 0; WorkerOf step_workers 1].

(** A round-robin schedule, long enough for any call below. *)
Definition round_robin : list (thread (P := pool_id)) :=
  concat (replicate 40 all_threads).

(** The caller runs [body] to its end under the round-robin schedule. *)
Definition run (n : nat) (body : list (cinstr pool_id (mrt (grid n)) Z))
    (s : state n) : state n :=
  exec (closure (grid n)) round_robin (set_cpc body s).

(** The object once the constructor has returned. *)
Definition constructed (n : nat) : state n :=
  run n (constructor_body (grid n)) (fresh n).

Example constructed_2 :
  cpc (constructed 2) = [] /\
  h (dat (constructed 2)) = h0 /\
  g (dat (constructed 2)) = [3; 2; 2; -23]%Z /\
  t (dat (constructed 2)) = 0%Z.
Proof. vm_compute. by repeat split. Qed.

Example dsteepness_2 :
  cret (run 2 (dsteepness (grid 2)) (constructed 2)) = Some (-85)%Z.
Proof. vm_compute. reflexivity. Qed.

Lemma constructed_ready n :
  cpc (constructed n) = [] -> ready (grid n) (constructed n).
Proof.
  intros Hc.
  destruct (step_call_runs (grid n)
              (set_cpc (constructor_body (grid n)) (fresh n)) 0%Z
              (ready_set_cpc _ _ _ (members_ready _ _ _ _ _ _)) eq_refl)
    as (_ & _ & Hfin).
  by destruct (Hfin (constructed n) (exec_steps _ _ _) Hc) as [Hr _].
Qed.

(** C2, on the example grid with one worker: the call returns the
    sequential mean. *)
Lemma dsteepness_mean_witness :
  let s0 := set_cpc (dsteepness (grid 1)) (constructed 1) in
  exists s', steps (closure (grid 1)) s0 s' /\ cpc s' = [] /\
             cret s' = Some (sequential_mean (grid 1) (dat s0)) /\
             cret s' = Some (-85)%Z.
Proof.
  intros s0.
  assert (Hr : ready (grid 1) s0).
  { apply ready_set_cpc, constructed_ready. vm_compute. reflexivity. }
  destruct (dsteepness_mean (grid 1) s0 Hr eq_refl) as (_ & _ & Hfin).
  exists (exec (closure (grid 1)) round_robin s0).
  split; [exact (exec_steps _ _ _)|]. split; [vm_compute; reflexivity|].
  split; [|vm_compute; reflexivity].
  apply Hfin.
  - exact (exec_steps _ _ _).
  - vm_compute. reflexivity.
  - reflexivity.
  - reflexivity.
  - intros x. reflexivity.
Defined.

(** C3, on the example grid with two workers: one step of 3 from the
    constructed object. *)
Lemma step_call_spec_witness :
  let s0 := set_cpc (step_call (grid 2) 3%Z) (constructed 2) in
  exists s', steps (closure (grid 2)) s0 s' /\ cpc s' = [] /\
             iter_time_step (dat s') = 3%Z /\
             syncs (pools s' step_workers) = 2 /\
             t (dat s') = 3%Z /\ cret s' = Some 3%Z.
Proof.
  intros s0.
  assert (Hr : ready (grid 2) s0).
  { apply ready_set_cpc, constructed_ready. vm_compute. reflexivity. }
  destruct (step_call_spec (grid 2) s0 3%Z Hr eq_refl)
    as (_ & _ & _ & Hfin).
  exists (exec (closure (grid 2)) round_robin s0).
  split; [exact (exec_steps _ _ _)|]. split; [vm_compute; reflexivity|].
  destruct (Hfin (exec (closure (grid 2)) round_robin s0))
    as (Hdt & _ & _ & Hsy & Ht & Hcr).
  - exact (exec_steps _ _ _).
  - vm_compute. reflexivity.
  - split; [exact Hdt|]. split; [exact Hsy|].
    split; [exact Ht|]. rewrite Hcr, Ht. reflexivity.
Defined.

(** C4, on the example grid with two workers. *)
Lemma constructor_populates_gradient_witness :
  let s' := constructed 2 in
  steps (closure (grid 2))
        (set_cpc (constructor_body (grid 2)) (fresh 2)) s' /\
  cpc s' = [] /\
  h (dat s') = h0 /\
  g (dat s') = update_g_section 0 4 h0 g0 /\
  t (dat s') = 0%Z.
Proof.
  intros s'.
  assert (Hs : steps (closure (grid 2))
                 (set_cpc (constructor_body (grid 2)) (fresh 2)) s').
  { exact (exec_steps (closure (grid 2)) round_robin _). }
  assert (Hc : cpc s' = []).
  { vm_compute. reflexivity. }
  split; [exact Hs|]. split; [exact Hc|].
  destruct (constructor_populates_gradient (grid 2) h0 g0 0%Z 7%Z 9%Z)
    as (_ & _ & Hfin).
  destruct (Hfin s' Hs Hc) as (_ & _ & Hpop).
  apply Hpop.
  - intros l Hl. symmetry in Hl.
    apply Permutation_length_2_inv in Hl as [-> | ->];
      vm_compute; reflexivity.
  - intros l Hl. symmetry in Hl.
    apply Permutation_length_2_inv in Hl as [-> | ->];
      vm_compute; reflexivity.
  - reflexivity.
Defined.

(** C6, on the example grid with two workers: steps of 1, 2 and 3. *)
Lemma step_calls_advance_clock_witness :
  exists s',
    run_calls (grid 2) (map (step_call (grid 2)) [1; 2; 3]%Z)
              (constructed 2) s' /\
    t (dat s') = 6%Z.
Proof.
  assert (Hr : ready (grid 2) (constructed 2)).
  { apply constructed_ready. vm_compute. reflexivity. }
  destruct (step_calls_advance_clock (grid 2) [1; 2; 3]%Z (constructed 2) Hr)
    as [[s' Hrun] Hclock].
  exists s'. split; [exact Hrun|].
  destruct (Hclock s' Hrun) as [_ Hsum].
  rewrite Hsum.
  - vm_compute. reflexivity.
  - intros x y z. symmetry. apply Z.add_assoc.
  - intros x. apply Z.add_0_r.
Defined.

(** C10, on the example grid with two workers. *)
Lemma dsteepness_frame_witness :
  let s0 := set_cpc (dsteepness (grid 2)) (constructed 2) in
  exists s', steps (closure (grid 2)) s0 s' /\ cpc s' = [] /\
             h (dat s') = h0 /\ g (dat s') = [3; 2; 2; -23]%Z /\
             t (dat s') = 0%Z.
Proof.
  intros s0.
  assert (Hr : ready (grid 2) s0).
  { apply ready_set_cpc, constructed_ready. vm_compute. reflexivity. }
  exists (exec (closure (grid 2)) round_robin s0).
  split; [exact (exec_steps _ _ _)|]. split; [vm_compute; reflexivity|].
  destruct (dsteepness_frame (grid 2) s0 Hr eq_refl
              (exec (closure (grid 2)) round_robin s0))
    as ((Hh & Hg & Ht & _) & _).
  - exact (exec_steps _ _ _).
  - vm_compute. reflexivity.
  - rewrite Hh, Hg, Ht. vm_compute. by repeat split.
Defined.

(** C9 as stated fails: [step_this_thread] does not have exactly one
    rendezvous fewer than the closure of [step_workers]. *)
Lemma step_this_thread_not_one_fewer :
  ~ (arrivals (step_this_thread (grid 2)) + 1
     = arrivals (step_closure (grid 2))).
Proof. vm_compute. discriminate. Qed.

Definition step_pool_threads : list (thread (P := pool_id)) :=
  concat (replicate 20 [WorkerOf step_workers 0; WorkerOf step_workers 1]).

(** C5, on the example grid with two workers: [trigger()], then two
    [sync()] in a row on [step_workers]. *)
Lemma synced_flag_protocol_witness :
  let triggered :=
    exec (closure (grid 2)) [Caller]
         (set_cpc [CTrigger step_workers] (constructed 2)) in
  let s := set_cpc [CSync step_workers; CSync step_workers] triggered in
  let s' :=
    exec (closure (grid 2))
         (step_pool_threads ++ [Caller; Caller; Caller; Caller]) s in
  synced (pools s step_workers) = false /\
  steps (closure (grid 2)) s s' /\ cpc s' = [CSync step_workers] /\
  synced (pools s' step_workers) = true /\
  caller_step s' = Some (set_cpc [] s').
Proof.
  intros triggered s s'.
  split; [vm_compute; reflexivity|]. split; [exact (exec_steps _ _ _)|].
  split; [vm_compute; reflexivity|].
  destruct (synced_flag_protocol (R := Z) (closure (grid 2)) step_workers)
    as (_ & _ & _ & Htwice).
  destruct (Htwice s s') as (Hsy & Hstep & _).
  - reflexivity.
  - exact (exec_steps _ _ _).
  - vm_compute. reflexivity.
  - split; [exact Hsy|exact Hstep].
Defined.


(** C8, on the example grid with two workers: [step_workers] destroyed
    right after construction. *)
Lemma pool_destruction_completes_witness :
  let s0 := set_cpc (destroy step_workers 2) (constructed 2) in
  exists s', steps (closure (grid 2)) s0 s' /\ cpc s' = [] /\
    Forall (fun w => pc w = Exited /\ stop_requested w = true)
           (workers (pools s' step_workers)) /\
    triggers (pools s' step_workers) = 2 /\
    syncs (pools s' step_workers) = 1.
Proof.
  intros s0.
  destruct (pool_destruction_completes (grid 2) h0 g0 0%Z 7%Z 9%Z []
              (constructed 2) (constructed 2) step_workers)
    as (_ & _ & _ & Hfin).
  { split; [exact (exec_steps _ _ _)|vm_compute; reflexivity]. }
  { constructor. }
  { constructor. }
  exists (exec (closure (grid 2)) round_robin s0).
  split; [exact (exec_steps _ _ _)|]. split; [vm_compute; reflexivity|].
  destruct (Hfin (exec (closure (grid 2)) round_robin s0))
    as (Hw & Htr & Hsy & _).
  - exact (exec_steps _ _ _).
  - vm_compute. reflexivity.
  - split; [exact Hw|]. split.
    + etransitivity; [exact Htr|vm_compute; reflexivity].
    + etransitivity; [exact Hsy|vm_compute; reflexivity].
Defined.

(** X4, on the example grid with two workers: half-way through a step, the
    pool still has its two workers, bound to 0 and 1. *)
Lemma pool_shape_fixed_witness :
  let s0 := set_cpc (step_call (grid 2) 3%Z) (constructed 2) in
  let s' :=
    exec (closure (grid 2))
         [Caller; Caller; WorkerOf step_workers 1; WorkerOf step_workers 1;
          WorkerOf step_workers 1; WorkerOf step_workers 0] s0 in
  steps (closure (grid 2)) s0 s' /\
  size (pools s' step_workers) = 2 /\
  map arg (workers (pools s' step_workers)) = [0; 1].
Proof.
  intros s0 s'.
  assert (Hs : steps (closure (grid 2)) s0 s').
  { exact (exec_steps _ _ _). }
  split; [exact Hs|].
  destruct (pool_shape_fixed (closure (grid 2)) step_workers s0 s' Hs)
    as [Hsz Hargs].
  split.
  - etransitivity; [exact Hsz|vm_compute; reflexivity].
  - etransitivity; [exact Hargs|vm_compute; reflexivity].
Defined.

(** X5, on the example grid with two workers: one [trigger_sync()] on
    [step_workers] of the constructed object. *)
Lemma trigger_sync_runs_once_witness :
  let s0 := set_cpc (trigger_sync step_workers) (constructed 2) in
  exists s', steps (closure (grid 2)) s0 s' /\ cpc s' = [] /\
    Forall2 ran_once (workers (pools s0 step_workers))
            (workers (pools s' step_workers)) /\
    triggers (pools s' step_workers) = 2 /\
    syncs (pools s' step_workers) = 2 /\
    phase (bars s' step_workers) = 6.
Proof.
  intros s0.
  assert (Hr : ready (grid 2) s0).
  { apply ready_set_cpc, constructed_ready. vm_compute. reflexivity. }
  destruct (trigger_sync_runs_once (R := Z) (closure (grid 2)) step_workers
              s0) as (_ & _ & Hfin).
  - apply closure_own_barrier.
  - apply closure_arrives.
  - apply Hr.
  - intros q. apply ready_idle. exact Hr.
  - vm_compute. repeat constructor.
  - reflexivity.
  - exists (exec (closure (grid 2)) round_robin s0).
    split; [exact (exec_steps _ _ _)|]. split; [vm_compute; reflexivity|].
    destruct (Hfin (exec (closure (grid 2)) round_robin s0))
      as (_ & Hran & Htr & Hsy & Hph & _).
    + exact (exec_steps _ _ _).
    + vm_compute. reflexivity.
    + split; [exact Hran|]. split.
      * etransitivity; [exact Htr|vm_compute; reflexivity].
      * split; [etransitivity; [exact Hsy|vm_compute; reflexivity]|].
        rewrite Hph. vm_compute. reflexivity.
Defined.

(** X6, on the example grid with two workers: a step, a reduction and
    another step after construction. *)
Lemma object_reusable_witness :
  exists s1 s2,
    call (grid 2) (constructor_body (grid 2)) (fresh 2) s1 /\
    run_calls (grid 2)
              (map (body_of (grid 2)) [Step (grid 2) 1%Z; Dsteepness (grid 2); Step (grid 2) 2%Z])
              s1 s2 /\
    triggers (pools s2 step_workers) = 3 /\
    triggers (pools s2 ds_workers) = 1 /\
    t (dat s2) = 3%Z.
Proof.
  destruct (object_reusable (grid 2) h0 g0 0%Z 7%Z 9%Z
              [Step (grid 2) 1%Z; Dsteepness (grid 2); Step (grid 2) 2%Z])
    as [(s1 & s2 & Hc & Hrun) Hfin].
  exists s1, s2. split; [exact Hc|]. split; [exact Hrun|].
  destruct (Hfin s1 s2 Hc Hrun) as [Hp Ht].
  destruct (Hp step_workers) as (_ & _ & _ & _ & _ & _ & Htr & _).
  destruct (Hp ds_workers) as (_ & _ & _ & _ & _ & _ & Htr' & _).
  split; [exact Htr|]. split; [exact Htr'|].
  etransitivity; [exact Ht|vm_compute; reflexivity].
Defined.

(** X7, on the example grid with two workers, where values are integers. *)
Lemma dsteepness_schedule_independent_witness :
  let s0 := set_cpc (dsteepness (grid 2)) (constructed 2) in
  exists s', steps (closure (grid 2)) s0 s' /\ cpc s' = [] /\
             ds_aggregator (dat s') = (-339)%Z /\
             cret s' = Some (-85)%Z.
Proof.
  intros s0.
  assert (Hr : ready (grid 2) s0).
  { apply ready_set_cpc, constructed_ready. vm_compute. reflexivity. }
  destruct (dsteepness_schedule_independent (grid 2) s0 Hr eq_refl)
    as [Hone _].
  - intros x y z. symmetry. apply Z.add_assoc.
  - intros x y. apply Z.add_comm.
  - exists (exec (closure (grid 2)) round_robin s0).
    split; [exact (exec_steps _ _ _)|]. split; [vm_compute; reflexivity|].
    destruct (Hone (exec (closure (grid 2)) round_robin s0))
      as [Hd Hcr].
    + exact (exec_steps _ _ _).
    + vm_compute. reflexivity.
    + split.
      * rewrite Hd. vm_compute. reflexivity.
      * etransitivity; [exact Hcr|vm_compute; reflexivity].
Defined.


(** The section updates of the example grid write cell by cell, so any two
    of them commute. *)
Lemma update_h_section_comm a b a' b' dt (gg x : list Z) :
  update_h_section a b dt (update_h_section a' b' dt x gg) gg
  = update_h_section a' b' dt (update_h_section a b dt x gg) gg.
Proof.
  unfold update_h_section. apply list_eq. intros k.
  rewrite !list_lookup_imap. destruct (x !! k) as [z|]; simpl; [|done].
  destruct (in_range a b k), (in_range a' b' k); f_equal; lia.
Qed.

Lemma update_g_section_comm a b a' b' (hh x : list Z) :
  update_g_section a b hh (update_g_section a' b' hh x)
  = update_g_section a' b' hh (update_g_section a b hh x).
Proof.
  unfold update_g_section. apply list_eq. intros k.
  rewrite !list_lookup_imap. destruct (x !! k) as [z|]; simpl; [|done].
  by destruct (in_range a b k), (in_range a' b' k).
Qed.

(** X8, on the example grid with two workers: one step of 3 from the
    constructed object. *)
Lemma step_schedule_independent_witness :
  let s0 := set_cpc (step_call (grid 2) 3%Z) (constructed 2) in
  exists s', steps (closure (grid 2)) s0 s' /\ cpc s' = [] /\
             h (dat s') = [10; 10; 15; -53]%Z /\
             g (dat s') = [0; 5; -73; 121]%Z /\
             cret s' = Some 3%Z.
Proof.
  intros s0.
  assert (Hr : ready (grid 2) s0).
  { apply ready_set_cpc, constructed_ready. vm_compute. reflexivity. }
  assert (Hh : forall i j (x : list Z), i < 2 -> j < 2 ->
            elevate_one (grid 2) 3%Z (g (dat s0)) i
              (elevate_one (grid 2) 3%Z (g (dat s0)) j x)
            = elevate_one (grid 2) 3%Z (g (dat s0)) j
                (elevate_one (grid 2) 3%Z (g (dat s0)) i x)).
  { intros i j x _ _. apply update_h_section_comm. }
  assert (Hg : forall (hh : list Z) i j (x : list Z), i < 2 -> j < 2 ->
            regrade_one (grid 2) hh i (regrade_one (grid 2) hh j x)
            = regrade_one (grid 2) hh j (regrade_one (grid 2) hh i x)).
  { intros hh i j x _ _. apply update_g_section_comm. }
  pose proof (step_schedule_independent (grid 2) s0 3%Z Hr eq_refl Hh Hg)
    as H.
  cbv zeta in H. destruct H as [Hone _].
  exists (exec (closure (grid 2)) round_robin s0).
  split; [exact (exec_steps _ _ _)|]. split; [vm_compute; reflexivity|].
  destruct (Hone (exec (closure (grid 2)) round_robin s0)) as [Hd Hcr].
  - exact (exec_steps _ _ _).
  - vm_compute. reflexivity.
  - rewrite Hd, Hcr. vm_compute. by repeat split.
Defined.


(** X9, on the example grid with two workers: a step of 3 from the
    constructed object, stopped when worker 0 has passed the first
    rendezvous and is about to update its section of the elevation. *)
Lemma step_phases_separated_witness :
  let s0 := set_cpc (step_call (grid 2) 3%Z) (constructed 2) in
  let s :=
    exec (closure (grid 2))
         [Caller; Caller;
          WorkerOf step_workers 0; WorkerOf step_workers 0;
          WorkerOf step_workers 0;
          WorkerOf step_workers 1; WorkerOf step_workers 1;
          WorkerOf step_workers 1;
          WorkerOf step_workers 0] s0 in
  steps (closure (grid 2)) s0 s /\
  iter_time_step (dat s) = 3%Z /\ g (dat s) = [3; 2; 2; -23]%Z.
Proof.
  intros s0 s.
  assert (Hr : ready (grid 2) s0).
  { apply ready_set_cpc, constructed_ready. vm_compute. reflexivity. }
  assert (Hs : steps (closure (grid 2)) s0 s).
  { exact (exec_steps _ _ _). }
  split; [exact Hs|].
  pose proof (step_phases_separated (grid 2) s0 3%Z s Hr eq_refl Hs) as H.
  cbv zeta in H. destruct H as [Hh _].
  destruct (Hh 0 (Worker 0 false (Running (drop 1 (step_closure (grid 2))))
                         2 1))
    as (Hdt & Hg & _).
  - vm_compute. reflexivity.
  - reflexivity.
  - split; [exact Hdt|]. rewrite Hg. vm_compute. reflexivity.
Defined.

(** The reduction of the example grid without its rendezvous. *)
Definition bare_closure (p : pool_id)
  : list (instr pool_id (mrt (grid 2))) :=
  [Do (add_ds_section (grid 2))].

(** X10, on the example grid with two workers, for the reduction without
    its rendezvous: worker 0 adds its section twice, worker 1 never. *)
Lemma barrier_free_iteration_unfair_witness :
  let s0 := set_cpc (trigger_sync ds_workers) (constructed 2) in
  exists s' w0 w1,
    steps bare_closure s0 s' /\ cpc s' = [] /\
    workers (pools s' ds_workers) !! 0 = Some w0 /\ invoked w0 = 2 /\
    workers (pools s' ds_workers) !! 1 = Some w1 /\ invoked w1 = 0.
Proof.
  intros s0.
  assert (Hr : ready (grid 2) s0).
  { apply ready_set_cpc, constructed_ready. vm_compute. reflexivity. }
  destruct (barrier_free_iteration_unfair bare_closure ds_workers s0 [])
    as (s' & Hs & Hc & _ & _ & Hinv).
  - reflexivity.
  - exact (proj1 (Hr ds_workers)).
  - reflexivity.
  - destruct (Hinv 0 (Worker 0 false Parked 0 0)) as (w0 & Hw0 & Hi0).
    { vm_compute. reflexivity. }
    destruct (Hinv 1 (Worker 1 false Parked 0 0)) as (w1 & Hw1 & Hi1).
    { vm_compute. reflexivity. }
    exists s', w0, w1. split; [exact Hs|]. split; [exact Hc|].
    split; [exact Hw0|]. split; [rewrite Hi0; vm_compute; reflexivity|].
    split; [exact Hw1|]. rewrite Hi1. vm_compute. reflexivity.
Defined.

(** X11, on the example grid without any worker: a step and a reduction
    after construction. *)
Lemma zero_threads_compute_nothing_witness :
  exists s1 s2,
    call (grid 0) (constructor_body (grid 0))
         (members (grid 0) h0 g0 0%Z 7%Z 9%Z) s1 /\
    run_calls (grid 0)
              (map (body_of (grid 0)) [Step (grid 0) 2%Z; Dsteepness (grid 0)])
              s1 s2 /\
    h (dat s2) = h0 /\ g (dat s2) = g0 /\ t (dat s2) = 2%Z /\
    cret s2 = Some 0%Z.
Proof.
  destruct (zero_threads_compute_nothing (grid 0) h0 g0 0%Z 7%Z 9%Z
              [Step (grid 0) 2%Z; Dsteepness (grid 0)] eq_refl)
    as [(s1 & s2 & Hc & Hrun) Hfin].
  exists s1, s2. split; [exact Hc|]. split; [exact Hrun|].
  destruct (Hfin s1 s2 Hc Hrun) as (Hh & Hg & Ht & Hcr).
  split; [exact Hh|]. split; [exact Hg|]. split; [exact Ht|].
  apply Hcr. reflexivity.
Defined.


End Example.

(** ** The clock in binary64 arithmetic *)

Module FloatExample.
Import Pool MountainRange.

Definition cell (x : list float) (i : nat) : float := nth i x 0%float.

Fixpoint float_of_nat (n : nat) : float :=
  match n with
  | O => 0%float
  | S k => (float_of_nat k + 1)%float
  end.

(** The section operations of [Example], on binary64 values. *)
Definition ds_section (h g : list float) (first last : nat) : float :=
  fold_left (fun a i => (a + cell h i * cell g i)%float)
            (seq first (last - first)) 0%float.

Definition update_h_section (first last : nat) (dt : float)
    (h g : list float) : list float :=
  imap (fun i x => if Example.in_range first last i
                   then (x + dt * cell g i)%float else x) h.

Definition update_g_section (first last : nat) (h g : list float)
  : list float :=
  imap (fun i x =>
          if Example.in_range first last i
          then (cell h (i - 1) + cell h (i + 1) - 2 * cell h i)%float
          else x) g.

(** Four cells, binary64 values with the rounded addition of the
    hardware, [n] workers. *)
Definition grid (n : nat) : grid_model :=
  GridModel float 0%float PrimFloat.add
            (fun a k => (a / float_of_nat k)%float) (list float) 4
            Example.divided_cell_range ds_section update_h_section
            update_g_section n.

Definition h0 : list float := [1; 4; 9; 16]%float.
Definition g0 : list float := [0; 0; 0; 0]%float.

(** C6 as stated fails: with two workers and the clock at 1e16, two steps
    of 1 leave the clock at 1e16, each addition being rounded, whereas the
    clock plus the sum of the two steps is 1e16 + 2, a binary64 value. *)
Lemma step_calls_clock_not_sum :
  exists s0 s' : sys pool_id (mrt (grid 2)) float,
    call (grid 2) (constructor_body (grid 2))
         (members (grid 2) h0 g0 1e16%float 0%float 0%float) s0 /\
    ready (grid 2) s0 /\ t (dat s0) = 1e16%float /\
    run_calls (grid 2) (map (step_call (grid 2)) [1%float; 1%float]) s0 s' /\
    t (dat s') = 1e16%float /\
    t (dat s')
    <> PrimFloat.add (t (dat s0))
         (fold_left PrimFloat.add [1%float; 1%float] 0%float).
Proof.
  destruct (step_call_runs (grid 2)
              (set_cpc (constructor_body (grid 2))
                 (members (grid 2) h0 g0 1e16%float 0%float 0%float))
              0%float
              (ready_set_cpc _ _ _ (members_ready _ _ _ _ _ _)) eq_refl)
    as (_ & (s0 & Hs & Hc) & Hfin).
  destruct (Hfin s0 Hs Hc) as (Hr & (l1 & l2 & _ & _ & Hd) & _).
  assert (Ht0 : t (dat s0) = 1e16%float).
  { rewrite Hd. vm_compute. reflexivity. }
  destruct (step_calls_exist (grid 2) [1%float; 1%float] s0 Hr)
    as [s' Hrun].
  destruct (step_calls_clock (grid 2) [1%float; 1%float] s0 s' Hr Hrun)
    as [_ Ht].
  assert (Ht' : t (dat s') = 1e16%float).
  { rewrite Ht, Ht0. vm_compute. reflexivity. }
  exists s0, s'. split; [by split|]. split; [done|]. split; [done|].
  split; [done|]. split; [done|].
  intros H.
  pose proof (eq_trans (eq_sym Ht') H) as H1.
  pose proof (f_equal
                (fun z => PrimFloat.add z
                            (fold_left PrimFloat.add [1%float; 1%float]
                                       0%float)) Ht0) as H2.
  pose proof (f_equal (fun x => PrimFloat.eqb x 1e16%float)
                (eq_trans H1 H2)) as H3.
  vm_compute in H3. discriminate H3.
Qed.

End FloatExample.
